(** * TL2 software transactional memory: region, transaction and protocol

    Shallow embedding of [tl2/region.hpp], [tl2/transaction.hpp] and
    [tl2/tm.cpp].  The shared region, the live transaction, the caller's
    private memory and a log of the calls made on versioned locks form an
    explicit state; every operation is a function from a state to an
    outcome.  Integers are [Z] with the wrap-around of their C++ type written
    out ([wrap32] for [std::uint32_t] and [std::atomic_uint], [wrap64] for
    [std::uintptr_t] and [std::size_t]). *)

From Stdlib Require Import ZArith Lia List Bool Sorted.
From stdpp Require Import base list gmap.

Local Open Scope Z_scope.

(** ** Machine integers and bytes *)

Abbreviation byte := Byte.byte.

Definition wrap32 (x : Z) : Z := x mod 2 ^ 32.
Definition wrap64 (x : Z) : Z := x mod 2 ^ 64.

(** The first [n] bytes of the object [src]; reading more bytes than the
    object holds is undefined, hence [None]. *)
Definition load (src : list byte) (n : Z) : option (list byte) :=
  if (0 <=? n) && (n <=? Z.of_nat (length src))
  then Some (take (Z.to_nat n) src)
  else None.

(** [memcpy dst src n]: the bytes of the object [dst] after copying [n] bytes
    from the object [src] to its start.  Copying more bytes than either
    object holds is undefined, hence [None]. *)
Definition memcpy (dst src : list byte) (n : Z) : option (list byte) :=
  match load src n with
  | Some b =>
      if n <=? Z.of_nat (length dst) then Some (b ++ drop (Z.to_nat n) dst)
      else None
  | None => None
  end.

(** ** Versioned lock *)

(** [VersionedLock::TimeStamp], as [tm.cpp] and [region.hpp] read it. *)
Record TimeStamp : Type := { locked : bool; version : Z }.

(** Modelled from the spec: [versioned_lock.hpp] is not among the sources.
    The lock is the pair (locked, version) of spec section 3; [Sample] is the
    atomic load, [TryLock] sets [locked] when the lock is free and leaves the
    version alone (its [rv] argument is informational only), [Unlock] clears
    [locked] and keeps the version, [UnlockVersion] (the overload
    [Unlock(wv)]) clears [locked] and stores the new version. *)
Record VersionedLock : Type := { vl_locked : bool; vl_version : Z }.

Definition Sample (l : VersionedLock) : TimeStamp :=
  {| locked := vl_locked l; version := vl_version l |}.

Definition TryLock (l : VersionedLock) (rv : Z) : bool * VersionedLock :=
  if vl_locked l then (false, l)
  else (true, {| vl_locked := true; vl_version := vl_version l |}).

Definition Unlock (l : VersionedLock) : VersionedLock :=
  {| vl_locked := false; vl_version := vl_version l |}.

Definition UnlockVersion (l : VersionedLock) (v : Z) : VersionedLock :=
  {| vl_locked := false; vl_version := v |}.

(** ** Region *)

(** [Region::Word]: the lock and the 8 bytes of the [std::uint64_t] payload
    (the field is [word] in [region.hpp] and [data] in [tm.cpp]). *)
Record Word : Type := { lock : VersionedLock; data : list byte }.

Record Segment : Type := { seg_size : Z; words : list Word }.

Record Region : Type :=
  { align : Z; mem : list Segment; gvc : Z; segs : Z }.

Definition kFIRST : Z := Z.shiftl 1 32.
Definition kADDR_MASK : Z := 0x000000000000FFFF.

Definition new_Word : Word :=
  {| lock := {| vl_locked := false; vl_version := 0 |};
     data := replicate 8 Byte.x00 |}.

(** [Segment{size}]: the default member initialiser gives 1024 words. *)
Definition new_Segment (size : Z) : Segment :=
  {| seg_size := size; words := replicate 1024 new_Word |}.

(** [Region(size, align) : align(align), mem(512, Segment{size})]. *)
Definition new_Region (size align : Z) : Region :=
  {| align := align; mem := replicate 512 (new_Segment size);
     gvc := 0; segs := 1 |}.

(** The two indices of [mem[addr >> 32].words[(addr & kADDR_MASK) / align]]. *)
Definition word_path (r : Region) (addr : Z) : Z * Z :=
  (Z.shiftr addr 32, Z.land addr kADDR_MASK / align r).

(** [Region::word]: [None] when the division is by zero or an index is not
    below the size of its vector. *)
Definition word (r : Region) (addr : Z) : option Word :=
  if align r =? 0 then None
  else
    match mem r !! Z.to_nat (fst (word_path r addr)) with
    | Some seg => words seg !! Z.to_nat (snd (word_path r addr))
    | None => None
    end.

(** Assignment through the reference that [word] returns. *)
Definition set_word (r : Region) (addr : Z) (w : Word) : Region :=
  match mem r !! Z.to_nat (fst (word_path r addr)) with
  | Some seg =>
      {| align := align r;
         mem := <[Z.to_nat (fst (word_path r addr)) :=
                    {| seg_size := seg_size seg;
                       words := <[Z.to_nat (snd (word_path r addr)) := w]> (words seg) |}]>
                (mem r);
         gvc := gvc r; segs := segs r |}
  | None => r
  end.

(** The region after [gvc.fetch_add(1)]. *)
Definition bump_gvc (r : Region) : Region :=
  {| align := align r; mem := mem r; gvc := wrap32 (gvc r + 1); segs := segs r |}.

(** The address decomposition as the specification words it. *)
Definition spec_word_path (align : Z) (addr : Z) : Z * Z :=
  (Z.shiftr addr 32, Z.land addr 0xFFFFFFFF / align).

(** ** Transaction *)

(** The write set is a [std::map]: its entries are kept, and iterated, in
    ascending order of their key. *)
Definition WriteSet : Type := list (Z * list byte).

Fixpoint ws_find (k : Z) (ws : WriteSet) : option (list byte) :=
  match ws with
  | [] => None
  | (k', b) :: rest => if k' =? k then Some b else ws_find k rest
  end.

(** [ws[k] = b]: replaces the buffer of an existing key, inserts a new key
    at its place in the order. *)
Fixpoint ws_assign (k : Z) (b : list byte) (ws : WriteSet) : WriteSet :=
  match ws with
  | [] => [(k, b)]
  | (k', b') :: rest =>
      if k <? k' then (k, b) :: (k', b') :: rest
      else if k =? k' then (k, b) :: rest
      else (k', b') :: ws_assign k b rest
  end.

Record Transaction : Type :=
  { ro : bool; rv : Z; wv : Z; read_set : gset Z; write_set : WriteSet }.

Definition with_read_set (t : Transaction) (rs : gset Z) : Transaction :=
  {| ro := ro t; rv := rv t; wv := wv t; read_set := rs; write_set := write_set t |}.

Definition with_write_set (t : Transaction) (ws : WriteSet) : Transaction :=
  {| ro := ro t; rv := rv t; wv := wv t; read_set := read_set t; write_set := ws |}.

Definition with_wv (t : Transaction) (v : Z) : Transaction :=
  {| ro := ro t; rv := rv t; wv := v; read_set := read_set t; write_set := write_set t |}.

(** ** State and outcomes *)

(** The caller's private memory, byte by byte. *)
Definition PrivMem : Type := Z -> byte.

Definition pm_read (pm : PrivMem) (a : Z) (n : Z) : list byte :=
  map (fun i => pm (a + Z.of_nat i)) (seq 0 (Z.to_nat n)).

Definition pm_write (pm : PrivMem) (a : Z) (bs : list byte) : PrivMem :=
  fun x =>
    if (a <=? x) && (x <? a + Z.of_nat (length bs))
    then nth (Z.to_nat (x - a)) bs Byte.x00
    else pm x.

(** The calls made on the locks and payloads, in the order they are made,
    each with the address whose word the call was made for.  In
    [LockWriteSet] the object of [TryLock] is the local [w] initialised from
    that word; everywhere else it is the word of the region itself. *)
Inductive Event : Type :=
| EvTryLock (addr : Z) (ok : bool)
| EvUnlock (addr : Z)
| EvUnlockVersion (addr : Z) (v : Z)
| EvSample (addr : Z)
| EvLoad (addr : Z)
| EvStore (addr : Z)
| EvFetchAdd.

(** [txn] is the object behind the handle [tx]: [None] once it was deleted. *)
Record State : Type :=
  { reg : Region; txn : option Transaction; pmem : PrivMem; log : list Event }.

(** [Fault] is undefined behaviour (an index out of range, a division by
    zero, a copy past an object, the use of a deleted transaction or of a
    reference to an object whose lifetime has ended);
    [Timeout] is a loop that used up its fuel. *)
Inductive Outcome (A : Type) : Type :=
| Ok (a : A) (s : State)
| Fault
| Timeout.

Arguments Ok {A} a s.
Arguments Fault {A}.
Arguments Timeout {A}.

Definition M (A : Type) : Type := State -> Outcome A.

Definition ret {A : Type} (a : A) : M A := fun s => Ok a s.

Definition bind {A B : Type} (m : M A) (f : A -> M B) : M B :=
  fun s =>
    match m s with
    | Ok a s' => f a s'
    | Fault => Fault
    | Timeout => Timeout
    end.

Notation "'let*' x ':=' m 'in' k" := (bind m (fun x => k))
  (at level 10, x name, m at level 100, k at level 200).

Definition fault {A : Type} : M A := fun _ => Fault.
Definition timeout {A : Type} : M A := fun _ => Timeout.

Definition lift {A : Type} (o : option A) : M A :=
  match o with Some a => ret a | None => fault end.

Definition get_region : M Region := fun s => Ok (reg s) s.

Definition put_region (r : Region) : M unit :=
  fun s => Ok tt {| reg := r; txn := txn s; pmem := pmem s; log := log s |}.

Definition get_txn : M Transaction :=
  fun s => match txn s with Some t => Ok t s | None => Fault end.

Definition put_txn (t : Transaction) : M unit :=
  fun s => match txn s with
           | Some _ => Ok tt {| reg := reg s; txn := Some t; pmem := pmem s; log := log s |}
           | None => Fault
           end.

(** [delete transaction]. *)
Definition delete_txn : M unit :=
  fun s => match txn s with
           | Some _ => Ok tt {| reg := reg s; txn := None; pmem := pmem s; log := log s |}
           | None => Fault
           end.

Definition get_pmem : M PrivMem := fun s => Ok (pmem s) s.

Definition put_pmem (pm : PrivMem) : M unit :=
  fun s => Ok tt {| reg := reg s; txn := txn s; pmem := pm; log := log s |}.

Definition emit (e : Event) : M unit :=
  fun s => Ok tt {| reg := reg s; txn := txn s; pmem := pmem s; log := log s ++ [e] |}.

(** [region->word(addr)] used as a reference. *)
Definition word_ref (addr : Z) : M Word :=
  let* r := get_region in lift (word r addr).

Definition store_word (addr : Z) (w : Word) : M unit :=
  let* r := get_region in put_region (set_word r addr w).

(** ** Region operations *)

(** The inner loop of [LockWriteSet] over the vector [locked].  Its
    elements are references to the objects [w] of earlier iterations of the
    outer loop, whose lifetime ended with their iteration: [l.get()] on the
    first of them is undefined.  With no element the body is not reached. *)
Definition unlock_locked (locked : list (Z * Word)) : M unit :=
  match locked with
  | [] => ret tt
  | _ :: _ => fault
  end.

(** The outer loop of [LockWriteSet].  [auto w = word(entry.first)] declares
    a [Region::Word] object, not a reference: [TryLock] is called on the
    lock of that copy. *)
Fixpoint LockWriteSet_loop (rv : Z) (entries : WriteSet) (locked : list (Z * Word))
  : M bool :=
  match entries with
  | [] => ret true
  | entry :: rest =>
      let* w := word_ref (fst entry) in
      let res := TryLock (lock w) rv in
      let* _ := emit (EvTryLock (fst entry) (fst res)) in
      if negb (fst res) then
        let* _ := unlock_locked locked in
        ret false
      else
        LockWriteSet_loop rv rest
          (locked ++ [(fst entry, {| lock := snd res; data := data w |})])
  end.

Definition LockWriteSet : M bool :=
  let* t := get_txn in
  LockWriteSet_loop (rv t) (write_set t) [].

Fixpoint UnlockWriteSet_loop (entries : WriteSet) : M unit :=
  match entries with
  | [] => ret tt
  | entry :: rest =>
      let* w := word_ref (fst entry) in
      let* _ := emit (EvUnlock (fst entry)) in
      let* _ := store_word (fst entry) {| lock := Unlock (lock w); data := data w |} in
      UnlockWriteSet_loop rest
  end.

Definition UnlockWriteSet : M unit :=
  let* t := get_txn in
  UnlockWriteSet_loop (write_set t).

(** The read set is a [std::unordered_set]; [elements] fixes one order of
    iteration. *)
Fixpoint ValidateReadSet_loop (rv : Z) (addrs : list Z) : M bool :=
  match addrs with
  | [] => ret true
  | addr :: rest =>
      let* w := word_ref addr in
      let* _ := emit (EvSample addr) in
      let ts := Sample (lock w) in
      if (rv <? version ts) || locked ts then ret false
      else ValidateReadSet_loop rv rest
  end.

Definition ValidateReadSet : M bool :=
  let* t := get_txn in
  ValidateReadSet_loop (rv t) (elements (read_set t)).

Fixpoint Commit_loop (wv : Z) (entries : WriteSet) : M unit :=
  match entries with
  | [] => ret tt
  | entry :: rest =>
      let* wl := word_ref (fst entry) in
      let* r := get_region in
      let* d := lift (memcpy (data wl) (snd entry) (align r)) in
      let* _ := emit (EvStore (fst entry)) in
      let* _ := store_word (fst entry) {| lock := lock wl; data := d |} in
      let* _ := emit (EvUnlockVersion (fst entry) wv) in
      let* _ := store_word (fst entry) {| lock := UnlockVersion (lock wl) wv; data := d |} in
      Commit_loop wv rest
  end.

Definition Commit : M unit :=
  let* t := get_txn in
  Commit_loop (wv t) (write_set t).

(** Modelled from the spec: [Region::Alloc] is called by [tm_alloc] and is
    not among the sources.  Spec sections 1, 4.3 and 5: the segment id comes
    from the monotonic counter, the returned address is [id << 32], and the
    directory of segments is pre-sized and does not grow. *)
Definition Alloc (size : Z) : M Z :=
  let* r := get_region in
  let* _ := put_region {| align := align r; mem := mem r; gvc := gvc r;
                          segs := wrap32 (segs r + 1) |} in
  ret (Z.shiftl (wrap32 (segs r + 1)) 32).

(** ** The transactional interface *)

Definition tm_create (size align : Z) : Region := new_Region size align.

Definition tm_start : Z := kFIRST.

Definition tm_begin (is_ro : bool) : M unit :=
  fun s =>
    Ok tt {| reg := reg s;
             txn := Some {| ro := is_ro; rv := gvc (reg s); wv := 0;
                            read_set := ∅; write_set := [] |};
             pmem := pmem s; log := log s |}.

(** [for (std::size_t offset = 0; offset < size; offset += region->align)]:
    the body answers [Some v] for [return v] and [None] to go on; one unit of
    fuel is used at each test of the condition. *)
Fixpoint for_offsets (fuel : nat) (size : Z) (body : Z -> M (option bool))
  (offset : Z) : M (option bool) :=
  match fuel with
  | O => timeout
  | S fuel' =>
      if offset <? size then
        let* x := body offset in
        match x with
        | Some v => ret (Some v)
        | None =>
            let* r := get_region in
            for_offsets fuel' size body (wrap64 (offset + align r))
        end
      else ret None
  end.

Definition tm_write_body (source target : Z) (offset : Z) : M (option bool) :=
  let* r := get_region in
  let* t := get_txn in
  let target_word := wrap64 (target + offset) in
  let source_word := wrap64 (source + offset) in
  let ws1 := ws_assign target_word (replicate (Z.to_nat (align r)) Byte.x00) (write_set t) in
  let* _ := put_txn (with_write_set t ws1) in
  let* buf := lift (ws_find target_word ws1) in
  let* pm := get_pmem in
  let* b := lift (memcpy buf (pm_read pm source_word (align r)) (align r)) in
  let* _ := put_txn (with_write_set t (ws_assign target_word b ws1)) in
  ret None.

Definition tm_write (fuel : nat) (source size target : Z) : M bool :=
  let* _ := for_offsets fuel size (tm_write_body source target) 0 in
  ret true.

(** The sampling branch shared by both loops of [tm_read]. *)
Definition read_shared (addr target_addr : Z) (w : Word) : M (option bool) :=
  let* r := get_region in
  let* t := get_txn in
  let* _ := emit (EvSample addr) in
  let ts := Sample (lock w) in
  if locked ts || (rv t <? version ts) then
    let* _ := delete_txn in
    ret (Some false)
  else
    let* _ := emit (EvLoad addr) in
    let* b := lift (load (data w) (align r)) in
    let* pm := get_pmem in
    let* _ := put_pmem (pm_write pm target_addr b) in
    ret None.

Definition tm_read_ro_body (source target : Z) (offset : Z) : M (option bool) :=
  let addr := wrap64 (source + offset) in
  let* w := word_ref addr in
  let target_addr := wrap64 (target + offset) in
  read_shared addr target_addr w.

Definition tm_read_rw_body (source target : Z) (offset : Z) : M (option bool) :=
  let* r := get_region in
  let* t := get_txn in
  let addr := wrap64 (source + offset) in
  let* _ := put_txn (with_read_set t ({[ addr ]} ∪ read_set t)) in
  let* w := word_ref addr in
  let target_addr := wrap64 (target + offset) in
  match ws_find addr (write_set t) with
  | Some buf =>
      let* b := lift (load buf (align r)) in
      let* pm := get_pmem in
      let* _ := put_pmem (pm_write pm target_addr b) in
      ret None
  | None => read_shared addr target_addr w
  end.

Definition tm_read (fuel : nat) (source size target : Z) : M bool :=
  let* t := get_txn in
  let* x := for_offsets fuel size
              (if ro t then tm_read_ro_body source target
               else tm_read_rw_body source target) 0 in
  match x with
  | Some v => ret v
  | None => ret true
  end.

Definition tm_end : M bool :=
  let* t := get_txn in
  if ro t then
    let* _ := delete_txn in
    ret true
  else
    let* ok := LockWriteSet in
    if negb ok then
      let* _ := delete_txn in
      ret false
    else
      let* r := get_region in
      let* _ := emit EvFetchAdd in
      let* _ := put_region (bump_gvc r) in
      let* _ := put_txn (with_wv t (wrap32 (gvc r + 1))) in
      if wrap32 (rv t + 1) =? wrap32 (gvc r + 1) then
        let* _ := Commit in
        let* _ := delete_txn in
        ret true
      else
        let* valid := ValidateReadSet in
        if negb valid then
          let* _ := UnlockWriteSet in
          let* _ := delete_txn in
          ret false
        else
          let* _ := Commit in
          let* _ := delete_txn in
          ret true.

(** [tm_end] from [transaction->wv = region->gvc.fetch_add(1) + 1] to its
    end (tm.cpp:150-168): what it runs once [LockWriteSet] has returned
    [true], [t] being the transaction read at its start. *)
Definition tm_end_commit (t : Transaction) : M bool :=
  let* r := get_region in
  let* _ := emit EvFetchAdd in
  let* _ := put_region (bump_gvc r) in
  let* _ := put_txn (with_wv t (wrap32 (gvc r + 1))) in
  if wrap32 (rv t + 1) =? wrap32 (gvc r + 1) then
    let* _ := Commit in
    let* _ := delete_txn in
    ret true
  else
    let* valid := ValidateReadSet in
    if negb valid then
      let* _ := UnlockWriteSet in
      let* _ := delete_txn in
      ret false
    else
      let* _ := Commit in
      let* _ := delete_txn in
      ret true.

Definition tm_alloc (size : Z) : M Z := Alloc size.

Definition tm_free (segment : Z) : M bool := ret true.

(** ** Sequences of calls of the interface *)

Inductive Call : Type :=
| CBegin (is_ro : bool)
| CRead (fuel : nat) (source size target : Z)
| CWrite (fuel : nat) (source size target : Z)
| CEnd
| CAlloc (size : Z)
| CFree (segment : Z).

Definition exec (c : Call) : M unit :=
  match c with
  | CBegin is_ro => tm_begin is_ro
  | CRead fuel source size target =>
      let* _ := tm_read fuel source size target in ret tt
  | CWrite fuel source size target =>
      let* _ := tm_write fuel source size target in ret tt
  | CEnd => let* _ := tm_end in ret tt
  | CAlloc size => let* _ := tm_alloc size in ret tt
  | CFree segment => let* _ := tm_free segment in ret tt
  end.

Fixpoint exec_all (cs : list Call) : M unit :=
  match cs with
  | [] => ret tt
  | c :: rest => let* _ := exec c in exec_all rest
  end.

(** ** Predicates used in the statements *)

(** 512 segments of 1024 words each. *)
Definition region_shape (r : Region) : Prop :=
  length (mem r) = 512%nat /\
  Forall (fun seg => length (words seg) = 1024%nat) (mem r).

(** The write set obtained from the empty one by the assignments [ins], the
    first of the list first. *)
Definition ws_of (ins : list (Z * list byte)) : WriteSet :=
  fold_left (fun ws e => ws_assign (fst e) (snd e) ws) ins [].

(** The lock of the word at [addr] is free. *)
Definition word_free (r : Region) (addr : Z) : bool :=
  match word r addr with
  | Some w => negb (vl_locked (lock w))
  | None => false
  end.

(** The check made on a sampled word by [tm_read] and [ValidateReadSet]:
    [true] when the word is locked or newer than [rv]. *)
Definition word_stale (r : Region) (rv : Z) (addr : Z) : bool :=
  match word r addr with
  | Some w => vl_locked (lock w) || (rv <? vl_version (lock w))
  | None => false
  end.

(** The word at [addr] is copied from the write set by [tm_read]. *)
Definition served (t : Transaction) (addr : Z) : bool :=
  negb (ro t) && bool_decide (is_Some (ws_find addr (write_set t))).

(** The address of the [k]-th word of an access at [base]. *)
Definition word_addr (base al k : Z) : Z := wrap64 (base + k * al).

(** The bytes that one iteration of [tm_read] copies to the target: the
    start of the staged buffer when the address is served from the write
    set, of the payload of the shared word otherwise. *)
Definition read_source (r : Region) (t : Transaction) (addr : Z) : option (list byte) :=
  if served t addr then
    match ws_find addr (write_set t) with
    | Some buf => load buf (align r)
    | None => None
    end
  else
    match word r addr with
    | Some w => load (data w) (align r)
    | None => None
    end.

(** [tm_read] aborts at this address: it is not served from the write set
    and its lock is held or its version is newer than [rv]. *)
Definition read_stops (r : Region) (t : Transaction) (addr : Z) : bool :=
  negb (served t addr) && word_stale r (rv t) addr.

(** Following the spec's words for [lock_write_set]: try the addresses in
    the order of their insertion; at the first failure release what was
    acquired, last acquired first, and answer [false]. *)
Fixpoint spec_lock_write_set (r : Region) (order : list Z) (acquired : list Z)
  : bool * list Event :=
  match order with
  | [] => (true, [])
  | a :: rest =>
      if word_free r a then
        let res := spec_lock_write_set r rest (a :: acquired) in
        (fst res, EvTryLock a true :: snd res)
      else (false, EvTryLock a false :: map EvUnlock acquired)
  end.

(** The state of [tm_end] after [gvc.fetch_add(1)] and the assignment of
    [wv], [s] being the state in which [LockWriteSet] returned. *)
Definition after_fetch_add (s : State) (t : Transaction) : State :=
  {| reg := bump_gvc (reg s);
     txn := Some (with_wv t (wrap32 (gvc (reg s) + 1)));
     pmem := pmem s; log := log s ++ [EvFetchAdd] |}.

(** ** Concrete states

    The scenarios of the specification: [align = 8], a first segment of 64
    bytes, the addresses [A 0 .. A 7] at [(1 << 32) + 8 * i]. *)

Definition A (i : Z) : Z := kFIRST + 8 * i.

Definition ex_pm : PrivMem :=
  pm_write (fun _ => Byte.x00) 1000
    [Byte.x77; Byte.x66; Byte.x55; Byte.x44; Byte.x33; Byte.x22; Byte.x11; Byte.x01;
     Byte.xf7; Byte.xf6; Byte.xf5; Byte.xf4; Byte.xf3; Byte.xf2; Byte.xf1; Byte.xf0].

Definition ex_init : State :=
  {| reg := tm_create 64 8; txn := None; pmem := ex_pm; log := [] |}.

(** The state an outcome ends in ([s] when there is none). *)
Definition final_state {A : Type} (o : Outcome A) (s : State) : State :=
  match o with
  | Ok _ s' => s'
  | _ => s
  end.

(** The state reached from [s] by the calls [cs] ([s] itself when they do
    not all return). *)
Definition state_after (cs : list Call) (s : State) : State :=
  final_state (exec_all cs s) s.

(** A word whose lock is held, at version [v]. *)
Definition held_Word (v : Z) : Word :=
  {| lock := {| vl_locked := true; vl_version := v |}; data := replicate 8 Byte.x00 |}.

(** A word committed at version [v]. *)
Definition committed_Word (v : Z) : Word :=
  {| lock := {| vl_locked := false; vl_version := v |}; data := replicate 8 Byte.x55 |}.

Definition with_region (s : State) (r : Region) : State :=
  {| reg := r; txn := txn s; pmem := pmem s; log := log s |}.

(** The value an outcome returns. *)
Definition value_of {A : Type} (o : Outcome A) : option A :=
  match o with
  | Ok a _ => Some a
  | _ => None
  end.

(** A region whose clock is at 5 and whose word at [A 1] was committed at
    version 4, and a transaction begun when the clock was at 3, which read
    [A 1] and [A 3] and wrote [A 0]. *)
Definition ex_region_5 : Region :=
  {| align := 8; mem := mem (set_word (tm_create 64 8) (A 1) (committed_Word 4));
     gvc := 5; segs := 1 |}.

Definition ex_txn_3 : Transaction :=
  {| ro := false; rv := 3; wv := 0; read_set := {[ A 1 ]} ∪ {[ A 3 ]};
     write_set := [(A 0, pm_read ex_pm 1000 8)] |}.

Definition ex_state_3 : State :=
  {| reg := ex_region_5; txn := Some ex_txn_3; pmem := ex_pm; log := [] |}.

(** A region whose clock is at its last value, [2^32 - 1], and whose word at
    [A 1] was committed at version 4. *)
Definition ex_region_last : Region :=
  {| align := 8; mem := mem (set_word (tm_create 64 8) (A 1) (committed_Word 4));
     gvc := 2 ^ 32 - 1; segs := 1 |}.

(** ** Relations between states

    Used to state what the operations keep. *)

(** Two addresses name the same word when their two indices agree. *)
Definition same_word (r : Region) (a b : Z) : Prop :=
  Z.to_nat (fst (word_path r a)) = Z.to_nat (fst (word_path r b)) /\
  Z.to_nat (snd (word_path r a)) = Z.to_nat (snd (word_path r b)).

Definition add_log (s : State) (l : list Event) : State :=
  {| reg := reg s; txn := txn s; pmem := pmem s; log := log s ++ l |}.

(** [r'] has a word exactly where [r] has one, with the alignment and the
    counters of [r]. *)
Definition same_layout (r r' : Region) : Prop :=
  align r' = align r /\ gvc r' = gvc r /\ segs r' = segs r /\
  (region_shape r -> region_shape r') /\
  (forall b, is_Some (word r' b) <-> is_Some (word r b)).

(** Every word of [r'] is the word of [r] at the same address, but for a lock
    flag that may have been cleared. *)
Definition only_unlocked (r r' : Region) : Prop :=
  forall b w', word r' b = Some w' ->
    exists w, word r b = Some w /\ data w' = data w /\
              vl_version (lock w') = vl_version (lock w) /\
              (vl_locked (lock w') = true -> vl_locked (lock w) = true).

(** Every word of [r'] is the word of [r] at the same address or was
    released at version [v]. *)
Definition released_at (v : Z) (r r' : Region) : Prop :=
  forall b w', word r' b = Some w' ->
    word r b = Some w' \/ lock w' = {| vl_locked := false; vl_version := v |}.

Definition set_txn (s : State) (o : option Transaction) : State :=
  {| reg := reg s; txn := o; pmem := pmem s; log := log s |}.

Definition is_read_or_write (c : Call) : bool :=
  match c with
  | CRead _ _ _ _ | CWrite _ _ _ _ => true
  | _ => false
  end.

Definition ro_inv (s : State) : Prop :=
  forall t, txn s = Some t -> ro t = true /\ read_set t = ∅.

(** The state of [tm_read] called in [s] with transaction [t], before the
    iteration on the [k]-th word. *)
Definition read_inv (source target : Z) (s : State) (t : Transaction)
    (k : Z) (s1 : State) : Prop :=
  let al := align (reg s) in
  reg s1 = reg s /\
  (exists t1, txn s1 = Some t1 /\ ro t1 = ro t /\ rv t1 = rv t /\ wv t1 = wv t /\
              write_set t1 = write_set t /\
              forall x, x ∈ read_set t1 <->
                        x ∈ read_set t \/
                        (ro t = false /\ exists j, 0 <= j < k /\ x = word_addr source al j)) /\
  (exists l, log s1 = log s ++ l /\
             (forall a, In (EvSample a) l \/ In (EvLoad a) l -> served t a = false) /\
             (forall j, 0 <= j < k -> served t (word_addr source al j) = false ->
                        In (EvSample (word_addr source al j)) l)) /\
  (forall j, 0 <= j < k ->
     read_stops (reg s) t (word_addr source al j) = false /\
     forall b, read_source (reg s) t (word_addr source al j) = Some b ->
               pm_read (pmem s1) (target + j * al) al = b) /\
  (forall x, x < target \/ target + k * al <= x -> pmem s1 x = pmem s x).

(** The state in which [tm_read] returns [false]. *)
Definition read_aborted (source size : Z) (s : State) (t : Transaction)
    (s1 : State) : Prop :=
  let al := align (reg s) in
  reg s1 = reg s /\ txn s1 = None /\
  exists k l, 0 <= k /\ k * al < size /\
    read_stops (reg s) t (word_addr source al k) = true /\
    log s1 = log s ++ l /\
    (forall a, In (EvSample a) l \/ In (EvLoad a) l -> served t a = false) /\
    In (EvSample (word_addr source al k)) l.

(** ** The rest of the interface and of the sibling variant *)

(** [tm_size]: [mem[0].size]. *)
Definition tm_size : M Z :=
  let* r := get_region in
  lift (option_map seg_size (mem r !! 0%nat)).

(** [tm_align]. *)
Definition tm_align : M Z :=
  let* r := get_region in
  ret (align r).

(** The two indices of [getWordLock] in [358707/tm.cpp]:
    [reg->mem[addr >> 32][((addr << 32) >> 32) / reg->align]], the left
    shift being taken in the 64 bits of [uintptr_t]; [None] when the
    division is by zero. *)
Definition getWordLock_path (al addr : Z) : option (Z * Z) :=
  if al =? 0 then None
  else Some (Z.shiftr addr 32, Z.shiftr (wrap64 (Z.shiftl addr 32)) 32 / al).

(** ** Changes of the region *)

(** One change of the region: a store to the word at an address where there
    is one, which keeps the number of bytes of the payload, or a change of
    the two counters alone. *)
Definition region_step (r r' : Region) : Prop :=
  (exists a w w0, word r a = Some w0 /\ length (data w) = length (data w0) /\
                  r' = set_word r a w) \/
  (align r' = align r /\ mem r' = mem r).

(** Every payload of the region has the 8 bytes of a [std::uint64_t]. *)
Definition payload_ok (r : Region) : Prop :=
  Forall (fun seg => Forall (fun w => length (data w) = 8%nat) (words seg)) (mem r).

(** Every segment records the size [size]. *)
Definition sizes_are (size : Z) (r : Region) : Prop :=
  Forall (fun seg => seg_size seg = size) (mem r).

(** No two entries of the write set name the same word. *)
Definition distinct_words (r : Region) (ws : WriteSet) : Prop :=
  ForallOrdPairs (fun e e' => ~ same_word r (fst e) (fst e')) ws.

(** The write set of the live transaction is sorted by address. *)
Definition sorted_inv (s : State) : Prop :=
  forall t, txn s = Some t -> StronglySorted Z.lt (map fst (write_set t)).


(** Every address of the read set of the live transaction is inside the
    region. *)
Definition read_set_inv (s : State) : Prop :=
  forall t a, txn s = Some t -> a ∈ read_set t -> is_Some (word (reg s) a).

(** * Properties *)

(** ** The state monad *)

Lemma bind_Ok {A B : Type} (m : M A) (f : A -> M B) (s : State) (b : B) (s' : State) :
  bind m f s = Ok b s' <-> exists a s1, m s = Ok a s1 /\ f a s1 = Ok b s'.
Proof.
  unfold bind. split.
  - destruct (m s) as [a s1| |] eqn:E; try discriminate. eauto.
  - intros (a & s1 & -> & H). exact H.
Qed.

Lemma bind_eq {A B : Type} (m : M A) (f : A -> M B) (s : State) (a : A) (s1 : State) :
  m s = Ok a s1 -> bind m f s = f a s1.
Proof. unfold bind. now intros ->. Qed.

Lemma Ok_final_state {A : Type} (o : Outcome A) (s : State) (a : A) :
  value_of o = Some a -> o = Ok a (final_state o s).
Proof. destruct o; cbn; congruence. Qed.

Lemma is_Some_check {A : Type} (o : option A) :
  match o with Some _ => True | None => False end -> is_Some o.
Proof. destruct o; [eauto|intros []]. Qed.

Lemma lift_Ok {A : Type} (o : option A) (s : State) (a : A) (s' : State) :
  lift o s = Ok a s' <-> o = Some a /\ s' = s.
Proof.
  destruct o; unfold lift, ret, fault; split.
  - intros [= -> ->]. auto.
  - intros [[= ->] ->]. reflexivity.
  - discriminate.
  - intros [[=] _].
Qed.

(** ** Address decomposition *)

Lemma land_mask_small (x : Z) :
  0 <= x -> Z.land x 0xFFFFFFFF < 65536 -> Z.land x kADDR_MASK = Z.land x 0xFFFFFFFF.
Proof.
  intros Hx. unfold kADDR_MASK.
  change 0xFFFF with (Z.ones 16). change 0xFFFFFFFF with (Z.ones 32).
  rewrite (Z.land_ones x 16), (Z.land_ones x 32) by lia.
  intros Hlt.
  rewrite <- (Z.mod_mod_divide x (2 ^ 32) (2 ^ 16)) by (exists (2 ^ 16); reflexivity).
  apply Z.mod_small. split; [apply Z.mod_pos_bound|]; lia.
Qed.

(** Where the byte offset is below 65536 the lookup decomposes the address
    as the specification says. *)
Lemma word_path_below_mask (r : Region) (addr : Z) :
  0 <= addr -> Z.land addr 0xFFFFFFFF < 65536 ->
  word_path r addr = spec_word_path (align r) addr.
Proof.
  intros H0 Hlt. unfold word_path, spec_word_path.
  now rewrite land_mask_small.
Qed.

(** C1: at the address [kFIRST + 65536] of a region created with
    [tm_create(131072, 8)] the lookup yields word 0 of segment 1, where
    the decomposition [(addr >> 32, (addr & 0xFFFFFFFF) / align)] yields
    word 8192: the bits 16 to 31 of the byte offset are dropped. *)
Theorem word_path_drops_offset_bits :
  word_path (tm_create 131072 8) (kFIRST + 65536) = (1, 0) /\
  spec_word_path 8 (kFIRST + 65536) = (1, 8192) /\
  word (tm_create 131072 8) (kFIRST + 65536) = word (tm_create 131072 8) kFIRST.
Proof. repeat split; vm_compute; reflexivity. Qed.

(** ** Region lookup and update *)

Lemma new_Region_shape (size align : Z) : region_shape (new_Region size align).
Proof.
  split; unfold new_Region; cbn [mem].
  - apply length_replicate.
  - apply Forall_replicate. unfold new_Segment. cbn [words]. apply length_replicate.
Qed.

Lemma word_path_nonneg (r : Region) (addr : Z) :
  0 < align r -> 0 <= addr ->
  0 <= fst (word_path r addr) /\ 0 <= snd (word_path r addr).
Proof.
  intros Ha H0. unfold word_path. cbn. split.
  - apply Z.shiftr_nonneg. exact H0.
  - apply Z.div_pos; [|exact Ha]. apply Z.land_nonneg. now left.
Qed.

Lemma word_in_bounds (r : Region) (addr : Z) :
  region_shape r -> 0 < align r -> 0 <= addr ->
  is_Some (word r addr) <->
  Z.shiftr addr 32 < 512 /\ Z.land addr kADDR_MASK / align r < 1024.
Proof.
  intros [Hlen Hall] Ha H0.
  destruct (word_path_nonneg r addr Ha H0) as [Hi Hj].
  unfold word. destruct (Z.eqb_spec (align r) 0) as [E|_]; [lia|].
  unfold word_path in *. cbn [fst snd] in *.
  destruct (mem r !! Z.to_nat (Z.shiftr addr 32)) as [seg|] eqn:Eseg.
  - assert (Hlt := lookup_lt_Some _ _ _ Eseg).
    assert (Hw : length (words seg) = 1024%nat).
    { rewrite Forall_lookup in Hall. exact (Hall _ _ Eseg). }
    rewrite lookup_lt_is_Some, Hw. lia.
  - apply lookup_ge_None in Eseg. split.
    + intros [w Hw]. discriminate.
    + lia.
Qed.

Lemma set_word_shape (r : Region) (addr : Z) (w : Word) :
  region_shape r -> region_shape (set_word r addr w).
Proof.
  intros [Hlen Hall]. unfold set_word.
  destruct (mem r !! Z.to_nat (fst (word_path r addr))) as [seg|] eqn:Eseg;
    [|now split].
  split; cbn.
  - now rewrite length_insert.
  - apply Forall_insert; [exact Hall|]. cbn. rewrite length_insert.
    rewrite Forall_lookup in Hall. exact (Hall _ _ Eseg).
Qed.

Lemma set_word_align (r : Region) (addr : Z) (w : Word) :
  align (set_word r addr w) = align r.
Proof. unfold set_word. now destruct (mem r !! _). Qed.

Lemma set_word_gvc (r : Region) (addr : Z) (w : Word) :
  gvc (set_word r addr w) = gvc r.
Proof. unfold set_word. now destruct (mem r !! _). Qed.

Lemma word_path_set_word (r : Region) (a b : Z) (w : Word) :
  word_path (set_word r a w) b = word_path r b.
Proof. unfold word_path. now rewrite set_word_align. Qed.

Lemma word_set_word (r : Region) (a b : Z) (w w0 : Word) :
  word r a = Some w0 ->
  word (set_word r a w) b =
  if decide (same_word r a b) then Some w else word r b.
Proof.
  unfold word at 1. destruct (Z.eqb_spec (align r) 0) as [|Hal]; [discriminate|].
  destruct (mem r !! Z.to_nat (fst (word_path r a))) as [seg|] eqn:Eseg;
    [|discriminate].
  intros Hw. unfold word. rewrite set_word_align, word_path_set_word.
  destruct (Z.eqb_spec (align r) 0) as [|_]; [contradiction|].
  unfold set_word. rewrite Eseg. cbn [mem].
  assert (Hi := lookup_lt_Some _ _ _ Eseg).
  assert (Hj := lookup_lt_Some _ _ _ Hw).
  unfold same_word.
  destruct (decide (Z.to_nat (fst (word_path r a)) = Z.to_nat (fst (word_path r b))))
    as [Ei|Ni].
  - rewrite <- Ei. rewrite list_lookup_insert_eq by exact Hi. cbn [words].
    destruct (decide (Z.to_nat (snd (word_path r a)) = Z.to_nat (snd (word_path r b))))
      as [Ej|Nj].
    + rewrite <- Ej. rewrite list_lookup_insert_eq by exact Hj.
      destruct (decide _) as [_|N]; [reflexivity|]. exfalso. apply N. now split.
    + rewrite list_lookup_insert_ne by exact Nj. rewrite Eseg.
      destruct (decide _) as [[_ E]|_]; [contradiction|reflexivity].
  - rewrite list_lookup_insert_ne by exact Ni.
    destruct (decide _) as [[E _]|_]; [contradiction|reflexivity].
Qed.

Lemma word_set_word_is_Some (r : Region) (a b : Z) (w w0 : Word) :
  word r a = Some w0 ->
  is_Some (word (set_word r a w) b) <-> is_Some (word r b).
Proof.
  intros Hw. rewrite (word_set_word r a b w w0 Hw).
  destruct (decide (same_word r a b)) as [[Ei Ej]|_]; [|reflexivity].
  split; intros _; [|eauto].
  unfold word in *. destruct (align r =? 0); [discriminate|].
  rewrite <- Ei, <- Ej. rewrite Hw. eauto.
Qed.

(** ** The write set *)

Lemma ws_find_assign_eq (k : Z) (b : list byte) (ws : WriteSet) :
  ws_find k (ws_assign k b ws) = Some b.
Proof.
  induction ws as [|[k' b'] rest IH]; cbn.
  - now rewrite Z.eqb_refl.
  - destruct (Z.ltb_spec k k'); cbn.
    + now rewrite Z.eqb_refl.
    + destruct (Z.eqb_spec k k') as [->|Hne]; cbn.
      * now rewrite Z.eqb_refl.
      * destruct (Z.eqb_spec k' k); [congruence|exact IH].
Qed.

Lemma ws_find_assign_ne (k k0 : Z) (b : list byte) (ws : WriteSet) :
  k <> k0 -> ws_find k0 (ws_assign k b ws) = ws_find k0 ws.
Proof.
  intros Hne. induction ws as [|[k' b'] rest IH]; cbn.
  - destruct (Z.eqb_spec k k0); [contradiction|reflexivity].
  - destruct (Z.ltb_spec k k'); cbn.
    + destruct (Z.eqb_spec k k0); [contradiction|reflexivity].
    + destruct (Z.eqb_spec k k') as [->|Hne']; cbn.
      * destruct (Z.eqb_spec k' k0); [contradiction|reflexivity].
      * now rewrite IH.
Qed.

Lemma ws_assign_assign (k : Z) (b b0 : list byte) (ws : WriteSet) :
  ws_assign k b (ws_assign k b0 ws) = ws_assign k b ws.
Proof.
  induction ws as [|[k' b'] rest IH]; cbn.
  - rewrite Z.ltb_irrefl, Z.eqb_refl. reflexivity.
  - destruct (Z.ltb_spec k k') as [Hlt|Hge]; cbn.
    + rewrite Z.ltb_irrefl, Z.eqb_refl. reflexivity.
    + destruct (Z.eqb_spec k k') as [->|Hne]; cbn.
      * rewrite Z.ltb_irrefl, Z.eqb_refl. reflexivity.
      * destruct (Z.ltb_spec k k'); [lia|].
        destruct (Z.eqb_spec k k'); [contradiction|]. now rewrite IH.
Qed.

Lemma ws_assign_keys (k a : Z) (b : list byte) (ws : WriteSet) :
  In a (map fst (ws_assign k b ws)) <-> a = k \/ In a (map fst ws).
Proof.
  induction ws as [|[k' b'] rest IH]; cbn.
  - intuition.
  - destruct (Z.ltb_spec k k'); cbn; [intuition|].
    destruct (Z.eqb_spec k k') as [->|Hne]; cbn; [intuition|].
    rewrite IH. intuition.
Qed.

Lemma ws_assign_sorted (k : Z) (b : list byte) (ws : WriteSet) :
  StronglySorted Z.lt (map fst ws) ->
  StronglySorted Z.lt (map fst (ws_assign k b ws)).
Proof.
  induction ws as [|[k' b'] rest IH]; cbn; intros Hs.
  - constructor; constructor.
  - apply StronglySorted_inv in Hs. destruct Hs as [Hrest Hall].
    destruct (Z.ltb_spec k k') as [Hlt|Hge]; cbn.
    + constructor.
      * constructor; assumption.
      * constructor; [exact Hlt|].
        rewrite List.Forall_forall in *. intros x Hx. specialize (Hall x Hx). lia.
    + destruct (Z.eqb_spec k k') as [->|Hne]; cbn.
      * constructor; assumption.
      * constructor; [now apply IH|].
        rewrite List.Forall_forall in *. intros x Hx.
        apply ws_assign_keys in Hx. destruct Hx as [->|Hx]; [lia|now apply Hall].
Qed.

Lemma ws_of_snoc (ins : list (Z * list byte)) (e : Z * list byte) :
  ws_of (ins ++ [e]) = ws_assign (fst e) (snd e) (ws_of ins).
Proof. unfold ws_of. now rewrite fold_left_app. Qed.

Lemma ws_of_sorted (ins : list (Z * list byte)) :
  StronglySorted Z.lt (map fst (ws_of ins)).
Proof.
  induction ins as [|e ins IH] using rev_ind.
  - constructor.
  - rewrite ws_of_snoc. now apply ws_assign_sorted.
Qed.

Lemma ws_of_keys (ins : list (Z * list byte)) (a : Z) :
  In a (map fst (ws_of ins)) <-> In a (map fst ins).
Proof.
  induction ins as [|e ins IH] using rev_ind.
  - reflexivity.
  - rewrite ws_of_snoc, ws_assign_keys, map_app, in_app_iff, IH. cbn. intuition.
Qed.

(** ** Locking the write set *)

Lemma add_log_nil (s : State) : add_log s [] = s.
Proof. destruct s. unfold add_log. cbn. now rewrite app_nil_r. Qed.

Lemma add_log_app (s : State) (l1 l2 : list Event) :
  add_log (add_log s l1) l2 = add_log s (l1 ++ l2).
Proof. unfold add_log. cbn. now rewrite app_assoc. Qed.

Lemma emit_add_log (e : Event) (s : State) : emit e s = Ok tt (add_log s [e]).
Proof. reflexivity. Qed.

Lemma LockWriteSet_loop_spec (rv : Z) (entries : WriteSet) :
  forall (locked : list (Z * Word)) (s : State),
    Forall (fun e => is_Some (word (reg s) (fst e))) entries ->
    exists (acquired rest : list Z),
      map fst entries = acquired ++ rest /\
      Forall (fun a => word_free (reg s) a = true) acquired /\
      match rest with
      | [] =>
          LockWriteSet_loop rv entries locked s =
          Ok true (add_log s (map (fun a => EvTryLock a true) acquired))
      | a :: _ =>
          word_free (reg s) a = false /\
          LockWriteSet_loop rv entries locked s =
          match locked, acquired with
          | [], [] => Ok false (add_log s [EvTryLock a false])
          | _, _ => Fault
          end
      end.
Proof.
  induction entries as [|e es IH]; intros locked s Hin.
  - exists [], []. cbn. rewrite add_log_nil. repeat split; constructor.
  - apply Forall_cons in Hin. destruct Hin as [[w Hw] Hin].
    assert (Hstep : LockWriteSet_loop rv (e :: es) locked s =
              if vl_locked (lock w) then
                (let* _ := unlock_locked locked in ret false)
                  (add_log s [EvTryLock (fst e) false])
              else
                LockWriteSet_loop rv es
                  (locked ++ [(fst e, {| lock := {| vl_locked := true;
                                                    vl_version := vl_version (lock w) |};
                                         data := data w |})])
                  (add_log s [EvTryLock (fst e) true])).
    { cbn [LockWriteSet_loop]. unfold bind at 1. unfold word_ref, bind at 1.
      cbn [get_region]. rewrite Hw. cbn [lift ret].
      unfold TryLock. destruct (vl_locked (lock w)); cbn [fst snd negb];
        unfold bind at 1; rewrite emit_add_log; reflexivity. }
    rewrite Hstep. clear Hstep. destruct (vl_locked (lock w)) eqn:El.
    + exists [], (map fst (e :: es)). cbn [app map].
      split; [reflexivity|]. split; [constructor|]. split.
      * unfold word_free. now rewrite Hw, El.
      * destruct locked; reflexivity.
    + destruct (IH (locked ++ [(fst e, {| lock := {| vl_locked := true; vl_version := vl_version (lock w) |}; data := data w |})])
                   (add_log s [EvTryLock (fst e) true]) Hin)
        as (acq & rest & Hkeys & Hfree & Hrun).
      exists (fst e :: acq), rest. cbn [map app].
      split; [now rewrite Hkeys|]. split.
      * constructor; [|exact Hfree]. unfold word_free. now rewrite Hw, El.
      * destruct rest as [|a rest'].
        -- rewrite Hrun, add_log_app. reflexivity.
        -- destruct Hrun as [Hheld Hrun]. split; [exact Hheld|].
           rewrite Hrun. destruct locked; reflexivity.
Qed.

(** C2 (as amended): [LockWriteSet] visits the write set in ascending order
    of address, whatever the order of insertion, calling [TryLock] for each
    entry in turn; when the lock of every entry's word is free it returns
    [true] after one [TryLock] per entry; when the [TryLock] of the first
    entry fails it returns [false] at once; and whenever it returns, it
    returns [true] exactly when the lock of every entry's word is free. *)
Theorem LockWriteSet_ascending
    (s : State) (t : Transaction) (ins : list (Z * list byte)) :
  txn s = Some t ->
  write_set t = ws_of ins ->
  Forall (fun e => is_Some (word (reg s) (fst e))) (write_set t) ->
  StronglySorted Z.lt (map fst (write_set t)) /\
  (forall a, In a (map fst (write_set t)) <-> In a (map fst ins)) /\
  (Forall (fun a => word_free (reg s) a = true) (map fst (write_set t)) ->
   LockWriteSet s =
   Ok true (add_log s (map (fun a => EvTryLock a true) (map fst (write_set t))))) /\
  (forall a rest,
     map fst (write_set t) = a :: rest -> word_free (reg s) a = false ->
     LockWriteSet s = Ok false (add_log s [EvTryLock a false])) /\
  (forall b s',
     LockWriteSet s = Ok b s' ->
     (b = true <-> Forall (fun a => word_free (reg s) a = true) (map fst (write_set t))) /\
     exists tried,
       log s' = log s ++ tried /\
       if b then tried = map (fun a => EvTryLock a true) (map fst (write_set t))
       else exists a rest, map fst (write_set t) = a :: rest /\
                           tried = [EvTryLock a false]).
Proof.
  intros Ht Hws Hin.
  assert (Hrun0 : LockWriteSet s = LockWriteSet_loop (rv t) (write_set t) [] s)
    by (unfold LockWriteSet, bind, get_txn; now rewrite Ht).
  destruct (LockWriteSet_loop_spec (rv t) (write_set t) [] s Hin)
    as (acq & rest & Hkeys & Hfree & Hrun).
  rewrite <- Hrun0 in Hrun. clear Hrun0.
  split; [rewrite Hws; apply ws_of_sorted|].
  split; [intros a; rewrite Hws; apply ws_of_keys|].
  destruct rest as [|a0 rest0].
  - rewrite app_nil_r in Hkeys. subst acq. split; [intros _; exact Hrun|].
    split.
    + intros a rest' Hk Hheld. exfalso. rewrite Hk in Hfree.
      apply List.Forall_inv in Hfree. congruence.
    + intros b s' Hb. rewrite Hrun in Hb. inversion Hb; subst; clear Hb.
      split; [split; [intros _; exact Hfree|reflexivity]|].
      eexists. split; reflexivity.
  - destruct Hrun as [Hheld Hrun].
    assert (Hnot : ~ Forall (fun a => word_free (reg s) a = true) (map fst (write_set t))).
    { rewrite Hkeys. intros Hall. apply List.Forall_app in Hall.
      destruct Hall as [_ Hall]. apply List.Forall_inv in Hall. congruence. }
    split; [intros Hall; contradiction|]. split.
    + intros a rest' Hk Hh. destruct acq as [|a1 acq'].
      * cbn [app] in Hkeys. rewrite Hk in Hkeys. injection Hkeys as -> _. exact Hrun.
      * exfalso. cbn [app] in Hkeys. rewrite Hk in Hkeys. injection Hkeys as -> _.
        apply List.Forall_inv in Hfree. congruence.
    + intros b s' Hb. rewrite Hrun in Hb. destruct acq as [|a1 acq']; [|discriminate].
      inversion Hb; subst; clear Hb.
      split; [split; [discriminate|intros Hall; contradiction]|].
      eexists. split; [reflexivity|]. exists a0, rest0. split; [exact Hkeys|reflexivity].
Qed.

Lemma LockWriteSet_ascending_witness :
  let s := state_after [CBegin false; CWrite 3 1000 8 (A 1); CWrite 3 1008 8 (A 0)] ex_init in
  LockWriteSet s = Ok true (add_log s [EvTryLock (A 0) true; EvTryLock (A 1) true]).
Proof.
  intros s.
  destruct (LockWriteSet_ascending s
              {| ro := false; rv := 0; wv := 0; read_set := ∅;
                 write_set := ws_of [(A 1, pm_read ex_pm 1000 8); (A 0, pm_read ex_pm 1008 8)] |}
              [(A 1, pm_read ex_pm 1000 8); (A 0, pm_read ex_pm 1008 8)])
    as (_ & _ & Htrue & _).
  - vm_compute. reflexivity.
  - reflexivity.
  - cbn [write_set].
    let ws := eval vm_compute in
      (ws_of [(A 1, pm_read ex_pm 1000 8); (A 0, pm_read ex_pm 1008 8)]) in
    change (ws_of [(A 1, pm_read ex_pm 1000 8); (A 0, pm_read ex_pm 1008 8)]) with ws.
    repeat (apply List.Forall_cons; [apply is_Some_check; vm_compute; exact I|]).
    apply List.Forall_nil.
  - cbn [write_set] in Htrue.
    change (map fst (ws_of [(A 1, pm_read ex_pm 1000 8); (A 0, pm_read ex_pm 1008 8)]))
      with [A 0; A 1] in Htrue.
    apply Htrue.
    repeat (apply List.Forall_cons; [vm_compute; reflexivity|]). apply List.Forall_nil.
Defined.

(** C2 (as stated) fails.  After writes to [A 1] and then [A 0] the locks are
    tried at [A 0] first, not in the order of insertion; and when
    [LockWriteSet] has returned [true] the words at [A 0] and [A 1] are not
    locked in the region. *)
Lemma LockWriteSet_not_insertion_order_nor_locked :
  let s := state_after [CBegin false; CWrite 3 1000 8 (A 1); CWrite 3 1008 8 (A 0)] ex_init in
  value_of (LockWriteSet s) = Some true /\
  log (final_state (LockWriteSet s) s) = [EvTryLock (A 0) true; EvTryLock (A 1) true] /\
  spec_lock_write_set (reg s) [A 1; A 0] [] =
    (true, [EvTryLock (A 1) true; EvTryLock (A 0) true]) /\
  word_free (reg (final_state (LockWriteSet s) s)) (A 0) = true /\
  word_free (reg (final_state (LockWriteSet s) s)) (A 1) = true.
Proof.
  intros s. repeat split; vm_compute; reflexivity.
Qed.

(** ** Inversion of the primitive steps *)

Lemma word_ref_Ok (a : Z) (s : State) (w : Word) (s' : State) :
  word_ref a s = Ok w s' <-> word (reg s) a = Some w /\ s' = s.
Proof.
  unfold word_ref, bind, get_region. apply lift_Ok.
Qed.

Lemma word_ref_eq (a : Z) (s : State) (w : Word) :
  word (reg s) a = Some w -> word_ref a s = Ok w s.
Proof. intros H. now apply word_ref_Ok. Qed.

Lemma word_ref_Fault (a : Z) (s : State) :
  word (reg s) a = None -> word_ref a s = Fault.
Proof. intros H. unfold word_ref, bind, get_region. now rewrite H. Qed.

Lemma store_word_eq (a : Z) (w : Word) (s : State) :
  store_word a w s = Ok tt (with_region s (set_word (reg s) a w)).
Proof. reflexivity. Qed.

Lemma get_txn_Ok (s : State) (t : Transaction) (s' : State) :
  get_txn s = Ok t s' <-> txn s = Some t /\ s' = s.
Proof.
  unfold get_txn. destruct (txn s); split.
  - intros [= -> ->]. auto.
  - intros [[= ->] ->]. reflexivity.
  - discriminate.
  - intros [[=] _].
Qed.

Ltac inv_bind H :=
  let a := fresh "x" in
  let s1 := fresh "s" in
  let H1 := fresh "Hstep" in
  apply bind_Ok in H; destruct H as (a & s1 & H1 & H).

Ltac split_all := repeat match goal with |- _ /\ _ => split end; try reflexivity.

Ltac inv_ok H := inversion H; subst; clear H.

Ltac inv_step H :=
  first
    [ apply word_ref_Ok in H; destruct H as [H ->]
    | apply get_txn_Ok in H; destruct H as [H ->]
    | apply lift_Ok in H; destruct H as [H ->]
    | rewrite emit_add_log in H; inv_ok H
    | rewrite store_word_eq in H; inv_ok H
    | unfold get_region in H; inv_ok H
    | unfold get_pmem in H; inv_ok H
    | unfold ret in H; inv_ok H ].

(** ** Frames of the region operations *)

Lemma LockWriteSet_loop_Ok (rv : Z) (entries : WriteSet) :
  forall (locked : list (Z * Word)) (s : State) (b : bool) (s' : State),
    LockWriteSet_loop rv entries locked s = Ok b s' ->
    exists l, s' = add_log s l /\
              (forall a, ~ In (EvSample a) l) /\
              (b = true -> Forall (fun e => word_free (reg s) (fst e) = true) entries).
Proof.
  induction entries as [|e es IH]; intros locked s b s' H.
  - cbn in H. inv_step H. exists []. rewrite add_log_nil.
    split; [reflexivity|]. split; [intros a []|]. constructor.
  - cbn [LockWriteSet_loop] in H. inv_bind H. inv_step Hstep.
    inv_bind H. inv_step Hstep0.
    unfold TryLock in H. unfold word_free at 1.
    destruct (vl_locked (lock x)) eqn:El; cbn [fst snd negb] in H.
    + inv_bind H. destruct locked; [|discriminate]. inv_step Hstep0.
      inv_step H. eexists. split; [reflexivity|].
      split.
      * intros a Hin. cbn in Hin. destruct Hin as [Hin|[]]. discriminate.
      * discriminate.
    + apply IH in H. destruct H as (l & -> & Hns & Hall).
      rewrite add_log_app. eexists. split; [reflexivity|]. split.
      * intros a [Hin|Hin]; [discriminate|]. exact (Hns a Hin).
      * intros Hb. constructor; [|exact (Hall Hb)].
        unfold word_free. now rewrite Hstep, El.
Qed.

Lemma ValidateReadSet_loop_Ok (rv : Z) (addrs : list Z) :
  forall (s : State) (v : bool) (s' : State),
    ValidateReadSet_loop rv addrs s = Ok v s' ->
    exists l, s' = add_log s l /\
              v = negb (existsb (word_stale (reg s) rv) addrs) /\
              (addrs <> [] -> exists a, In (EvSample a) l).
Proof.
  induction addrs as [|a rest IH]; intros s v s' H.
  - cbn in H. inv_step H. exists []. rewrite add_log_nil. split_all. congruence.
  - cbn [ValidateReadSet_loop] in H. inv_bind H. inv_step Hstep.
    inv_bind H. inv_step Hstep0. cbn [existsb]. unfold word_stale at 1.
    rewrite Hstep. unfold Sample in H. cbn [locked version] in H.
    rewrite (orb_comm (vl_locked (lock x))).
    destruct ((rv <? vl_version (lock x)) || vl_locked (lock x)).
    + inv_step H. eexists. split; [reflexivity|]. split; [reflexivity|].
      intros _. exists a. now left.
    + apply IH in H. destruct H as (l & -> & Hv & _).
      rewrite add_log_app. eexists. split; [reflexivity|]. split; [exact Hv|].
      intros _. exists a. now left.
Qed.

Lemma same_layout_refl (r : Region) : same_layout r r.
Proof. unfold same_layout. intuition. Qed.

Lemma same_layout_trans (r1 r2 r3 : Region) :
  same_layout r1 r2 -> same_layout r2 r3 -> same_layout r1 r3.
Proof.
  intros (Ha & Hg & Hs & Hsh & Hw) (Ha' & Hg' & Hs' & Hsh' & Hw').
  unfold same_layout.
  split; [congruence|]. split; [congruence|]. split; [congruence|].
  split; [auto|]. intros b. rewrite Hw', Hw. reflexivity.
Qed.

Lemma same_layout_set_word (r : Region) (a : Z) (w w0 : Word) :
  word r a = Some w0 -> same_layout r (set_word r a w).
Proof.
  intros Hw. unfold same_layout.
  split; [apply set_word_align|]. split; [apply set_word_gvc|].
  split; [unfold set_word; now destruct (mem r !! _)|].
  split; [apply set_word_shape|].
  intros b. now apply (word_set_word_is_Some r a b w w0).
Qed.

Lemma same_word_refl (r : Region) (a : Z) : same_word r a a.
Proof. now split. Qed.

Lemma word_set_word_same (r : Region) (a : Z) (w w0 : Word) :
  word r a = Some w0 -> word (set_word r a w) a = Some w.
Proof.
  intros Hw. rewrite (word_set_word r a a w w0 Hw).
  destruct (decide (same_word r a a)) as [_|N]; [reflexivity|].
  exfalso. apply N, same_word_refl.
Qed.

Lemma same_word_lookup (r : Region) (a b : Z) :
  same_word r a b -> word r a = word r b.
Proof.
  intros [Ei Ej]. unfold word. now rewrite Ei, Ej.
Qed.

Lemma only_unlocked_refl (r : Region) : only_unlocked r r.
Proof. intros b w' H. exists w'. auto. Qed.

Lemma only_unlocked_trans (r1 r2 r3 : Region) :
  only_unlocked r1 r2 -> only_unlocked r2 r3 -> only_unlocked r1 r3.
Proof.
  intros H12 H23 b w3 H3.
  destruct (H23 b w3 H3) as (w2 & H2 & Hd & Hv & Hl).
  destruct (H12 b w2 H2) as (w1 & H1 & Hd' & Hv' & Hl').
  exists w1. split_all; try congruence. auto.
Qed.

Lemma only_unlocked_set_word (r : Region) (a : Z) (w0 : Word) :
  word r a = Some w0 ->
  only_unlocked r (set_word r a {| lock := Unlock (lock w0); data := data w0 |}).
Proof.
  intros Hw b w' Hb. rewrite (word_set_word r a b _ w0 Hw) in Hb.
  destruct (decide (same_word r a b)) as [Hsame|_].
  - injection Hb as <-. exists w0. rewrite <- (same_word_lookup r a b Hsame).
    cbn. split_all; [exact Hw|discriminate].
  - exists w'. auto.
Qed.

Lemma released_at_refl (v : Z) (r : Region) : released_at v r r.
Proof. intros b w' H. now left. Qed.

Lemma released_at_trans (v : Z) (r1 r2 r3 : Region) :
  released_at v r1 r2 -> released_at v r2 r3 -> released_at v r1 r3.
Proof.
  intros H12 H23 b w3 H3.
  destruct (H23 b w3 H3) as [H2|Hl]; [|now right].
  exact (H12 b w3 H2).
Qed.

Lemma released_at_set_word (v : Z) (r : Region) (a : Z) (w0 : Word) (d : list byte) :
  word r a = Some w0 ->
  released_at v r (set_word r a {| lock := UnlockVersion (lock w0) v; data := d |}).
Proof.
  intros Hw b w' Hb. rewrite (word_set_word r a b _ w0 Hw) in Hb.
  destruct (decide (same_word r a b)) as [Hsame|_].
  - injection Hb as <-. now right.
  - now left.
Qed.

Lemma set_word_set_word (r : Region) (a : Z) (w1 w2 w0 : Word) :
  word r a = Some w0 ->
  set_word (set_word r a w1) a w2 = set_word r a w2.
Proof.
  unfold word. destruct (align r =? 0); [discriminate|].
  destruct (mem r !! Z.to_nat (fst (word_path r a))) as [seg|] eqn:Eseg;
    [|discriminate].
  intros Hw. assert (Hi := lookup_lt_Some _ _ _ Eseg).
  assert (E1 : set_word r a w1 =
               {| align := align r;
                  mem := <[Z.to_nat (fst (word_path r a)) :=
                             {| seg_size := seg_size seg;
                                words := <[Z.to_nat (snd (word_path r a)) := w1]> (words seg) |}]>
                         (mem r);
                  gvc := gvc r; segs := segs r |}).
  { unfold set_word. now rewrite Eseg. }
  unfold set_word at 1. rewrite word_path_set_word. rewrite E1. cbn [mem align gvc segs].
  rewrite list_lookup_insert_eq by exact Hi. cbn [seg_size words].
  unfold set_word. rewrite Eseg.
  rewrite !list_insert_insert_eq. reflexivity.
Qed.

Lemma UnlockWriteSet_loop_Ok (entries : WriteSet) :
  forall (s s' : State),
    UnlockWriteSet_loop entries s = Ok tt s' ->
    txn s' = txn s /\ pmem s' = pmem s /\
    log s' = log s ++ map EvUnlock (map fst entries) /\
    same_layout (reg s) (reg s') /\
    only_unlocked (reg s) (reg s') /\
    Forall (fun e => word_free (reg s') (fst e) = true) entries.
Proof.
  induction entries as [|e es IH]; intros s s' H.
  - cbn in H. inv_step H. cbn. rewrite app_nil_r.
    split_all; auto using same_layout_refl, only_unlocked_refl.
  - cbn [UnlockWriteSet_loop] in H. inv_bind H. inv_step Hstep.
    inv_bind H. inv_step Hstep0. inv_bind H. inv_step Hstep0.
    apply IH in H. cbn [with_region add_log reg txn pmem log] in H.
    destruct H as (Ht & Hp & Hl & Hlay & Hun & Hfree).
    match type of Hun with
    | only_unlocked (set_word ?r _ ?w) _ =>
        pose proof (same_layout_set_word r (fst e) w x Hstep) as Hlay0;
        pose proof (only_unlocked_set_word r (fst e) x Hstep) as Hun0;
        pose proof (word_set_word_same r (fst e) w x Hstep) as Hmid
    end.
    split_all.
    + exact Ht.
    + exact Hp.
    + rewrite Hl. cbn [map]. now rewrite <- app_assoc.
    + exact (same_layout_trans _ _ _ Hlay0 Hlay).
    + exact (only_unlocked_trans _ _ _ Hun0 Hun).
    + constructor; [|exact Hfree].
      destruct Hlay as (_ & _ & _ & _ & Hsome).
      destruct (proj2 (Hsome (fst e))) as [w' Hw']; [rewrite Hmid; eauto|].
      unfold word_free. rewrite Hw'.
      destruct (Hun (fst e) w' Hw') as (w & Hw & _ & _ & Hlk).
      rewrite Hmid in Hw. injection Hw as <-. cbn in Hlk.
      destruct (vl_locked (lock w')); [|reflexivity].
      discriminate (Hlk eq_refl).
Qed.

Lemma Commit_loop_Ok (wv : Z) (entries : WriteSet) :
  forall (s s' : State),
    Commit_loop wv entries s = Ok tt s' ->
    txn s' = txn s /\ pmem s' = pmem s /\
    log s' = log s ++
             flat_map (fun e => [EvStore (fst e); EvUnlockVersion (fst e) wv]) entries /\
    same_layout (reg s) (reg s') /\
    released_at wv (reg s) (reg s') /\
    Forall (fun e => exists w, word (reg s') (fst e) = Some w /\
                               lock w = {| vl_locked := false; vl_version := wv |})
           entries.
Proof.
  induction entries as [|e es IH]; intros s s' H.
  - cbn in H. inv_step H. cbn. rewrite app_nil_r.
    split_all; auto using same_layout_refl, released_at_refl.
  - cbn [Commit_loop] in H. inv_bind H. inv_step Hstep.
    inv_bind H. inv_step Hstep0. inv_bind H. inv_step Hstep0.
    inv_bind H. inv_step Hstep1. inv_bind H. inv_step Hstep1.
    inv_bind H. inv_step Hstep1. inv_bind H. inv_step Hstep1.
    apply IH in H. cbn [with_region add_log reg txn pmem log] in H.
    rewrite (set_word_set_word _ _ _ _ x Hstep) in H.
    destruct H as (Ht & Hp & Hl & Hlay & Hrel & Hdone).
    match type of Hrel with
    | released_at _ (set_word ?r _ ?w) _ =>
        pose proof (same_layout_set_word r (fst e) w x Hstep) as Hlay0;
        pose proof (released_at_set_word wv r (fst e) x (data w) Hstep) as Hrel0;
        pose proof (word_set_word_same r (fst e) w x Hstep) as Hmid
    end.
    cbn [data] in Hrel0.
    split_all.
    + exact Ht.
    + exact Hp.
    + rewrite Hl. cbn [flat_map]. rewrite <- !app_assoc. reflexivity.
    + exact (same_layout_trans _ _ _ Hlay0 Hlay).
    + exact (released_at_trans _ _ _ _ Hrel0 Hrel).
    + constructor; [|exact Hdone].
      destruct Hlay as (_ & _ & _ & _ & Hsome).
      destruct (proj2 (Hsome (fst e))) as [w' Hw']; [rewrite Hmid; eauto|].
      exists w'. split; [exact Hw'|].
      destruct (Hrel (fst e) w' Hw') as [Hsame|Hlock]; [|exact Hlock].
      rewrite Hmid in Hsame. injection Hsame as <-. reflexivity.
Qed.

(** ** The commit protocol *)


Lemma ValidateReadSet_loop_total (rv : Z) (addrs : list Z) :
  forall s : State,
    Forall (fun a => is_Some (word (reg s) a)) addrs ->
    exists l, ValidateReadSet_loop rv addrs s =
              Ok (negb (existsb (word_stale (reg s) rv) addrs)) (add_log s l).
Proof.
  induction addrs as [|a rest IH]; intros s Hin.
  - exists []. cbn. now rewrite add_log_nil.
  - apply Forall_cons in Hin. destruct Hin as [[w Hw] Hin].
    cbn [ValidateReadSet_loop existsb]. unfold bind at 1.
    rewrite (word_ref_eq a s w Hw). unfold bind at 1. rewrite emit_add_log.
    unfold word_stale at 1. rewrite Hw. unfold Sample. cbn [locked version].
    rewrite (orb_comm (vl_locked (lock w))).
    destruct ((rv <? vl_version (lock w)) || vl_locked (lock w)).
    + eexists. reflexivity.
    + destruct (IH (add_log s [EvSample a]) Hin) as [l Hl].
      rewrite Hl, add_log_app. eexists. reflexivity.
Qed.

Lemma UnlockWriteSet_loop_total (entries : WriteSet) :
  forall s : State,
    Forall (fun e => is_Some (word (reg s) (fst e))) entries ->
    exists s', UnlockWriteSet_loop entries s = Ok tt s'.
Proof.
  induction entries as [|e es IH]; intros s Hin.
  - eexists. reflexivity.
  - apply Forall_cons in Hin. destruct Hin as [[w Hw] Hin].
    cbn [UnlockWriteSet_loop]. unfold bind at 1.
    rewrite (word_ref_eq _ s w Hw). unfold bind at 1. rewrite emit_add_log.
    unfold bind at 1. rewrite store_word_eq.
    apply IH. cbn [with_region add_log reg].
    eapply Forall_impl; [exact Hin|]. intros e' He'. cbn beta in *.
    now apply (word_set_word_is_Some (reg s) (fst e) (fst e') _ w Hw).
Qed.

(** [tm_end] from the point where the write set was locked. *)
Lemma tm_end_locked (s s1 : State) (t : Transaction) :
  txn s = Some t -> ro t = false -> LockWriteSet s = Ok true s1 ->
  tm_end s =
  (if wrap32 (rv t + 1) =? wrap32 (gvc (reg s) + 1) then
     let* _ := Commit in
     let* _ := delete_txn in
     ret true
   else
     let* valid := ValidateReadSet in
     if negb valid then
       let* _ := UnlockWriteSet in
       let* _ := delete_txn in
       ret false
     else
       let* _ := Commit in
       let* _ := delete_txn in
       ret true) (after_fetch_add s1 t).
Proof.
  intros Ht Hro Hlock.
  assert (Hs1 : exists l, s1 = add_log s l).
  { unfold LockWriteSet in Hlock. inv_bind Hlock. inv_step Hstep.
    apply LockWriteSet_loop_Ok in Hlock. destruct Hlock as (l & -> & _). eauto. }
  destruct Hs1 as [l ->].
  unfold tm_end. unfold bind at 1. unfold get_txn at 1. rewrite Ht, Hro.
  unfold bind at 1. rewrite Hlock. cbn [negb].
  unfold bind at 1. cbn [get_region]. unfold bind at 1. rewrite emit_add_log.
  unfold bind at 1. cbn [put_region]. unfold bind at 1.
  unfold put_txn at 1. cbn [txn add_log reg pmem log]. rewrite Ht.
  reflexivity.
Qed.

Lemma delete_txn_Ok (s : State) (u : unit) (s' : State) :
  delete_txn s = Ok u s' ->
  reg s' = reg s /\ txn s' = None /\ pmem s' = pmem s /\ log s' = log s.
Proof.
  unfold delete_txn. destruct (txn s); [|discriminate].
  intros H. inv_ok H. repeat split.
Qed.

Lemma commit_path_Ok (s : State) (t : Transaction) (b : bool) (s' : State) :
  txn s = Some t ->
  (let* _ := Commit in let* _ := delete_txn in ret true) s = Ok b s' ->
  b = true /\ txn s' = None /\ pmem s' = pmem s /\
  log s' = log s ++
           flat_map (fun e => [EvStore (fst e); EvUnlockVersion (fst e) (wv t)])
                    (write_set t) /\
  same_layout (reg s) (reg s') /\
  released_at (wv t) (reg s) (reg s') /\
  Forall (fun e => exists w, word (reg s') (fst e) = Some w /\
                             lock w = {| vl_locked := false; vl_version := wv t |})
         (write_set t).
Proof.
  intros Ht H. inv_bind H. unfold Commit in Hstep. inv_bind Hstep.
  inv_step Hstep0. rewrite Ht in Hstep0. injection Hstep0 as <-.
  destruct x. apply Commit_loop_Ok in Hstep.
  destruct Hstep as (Ht1 & Hp1 & Hl1 & Hlay & Hrel & Hdone).
  inv_bind H. destruct x. apply delete_txn_Ok in Hstep.
  destruct Hstep as (Hr2 & Ht2 & Hp2 & Hl2). inv_step H.
  rewrite Hr2. split_all; congruence || assumption.
Qed.

Lemma abort_path_Ok (s : State) (t : Transaction) (b : bool) (s' : State) :
  txn s = Some t ->
  (let* _ := UnlockWriteSet in let* _ := delete_txn in ret false) s = Ok b s' ->
  b = false /\ txn s' = None /\ pmem s' = pmem s /\
  log s' = log s ++ map EvUnlock (map fst (write_set t)) /\
  same_layout (reg s) (reg s') /\
  only_unlocked (reg s) (reg s') /\
  Forall (fun e => word_free (reg s') (fst e) = true) (write_set t).
Proof.
  intros Ht H. inv_bind H. unfold UnlockWriteSet in Hstep. inv_bind Hstep.
  inv_step Hstep0. rewrite Ht in Hstep0. injection Hstep0 as <-.
  destruct x. apply UnlockWriteSet_loop_Ok in Hstep.
  destruct Hstep as (Ht1 & Hp1 & Hl1 & Hlay & Hun & Hfree).
  inv_bind H. destruct x. apply delete_txn_Ok in Hstep.
  destruct Hstep as (Hr2 & Ht2 & Hp2 & Hl2). inv_step H.
  rewrite Hr2. split_all; congruence || assumption.
Qed.

Lemma ValidateReadSet_Ok (s : State) (t : Transaction) (v : bool) (s' : State) :
  txn s = Some t ->
  ValidateReadSet s = Ok v s' ->
  exists l, s' = add_log s l /\
            (v = true <-> forall a, a ∈ read_set t -> word_stale (reg s) (rv t) a = false) /\
            (read_set t <> ∅ -> exists a, In (EvSample a) l).
Proof.
  intros Ht H. unfold ValidateReadSet in H. inv_bind H. inv_step Hstep.
  rewrite Ht in Hstep. injection Hstep as <-.
  apply ValidateReadSet_loop_Ok in H. destruct H as (l & -> & Hv & Hs).
  exists l. split; [reflexivity|]. split.
  - rewrite Hv, negb_true_iff. rewrite <- not_true_iff_false, existsb_exists.
    split.
    + intros Hno a Ha. apply not_true_iff_false. intros Hst. apply Hno.
      exists a. split; [|exact Hst]. apply list_elem_of_In, elem_of_elements, Ha.
    + intros Hall (a & Ha & Hst). apply list_elem_of_In, elem_of_elements in Ha.
      rewrite (Hall a Ha) in Hst. discriminate.
  - intros Hne. apply Hs. intros Hnil. apply Hne.
    apply elements_empty_inv in Hnil. now apply leibniz_equiv.
Qed.

(** C3: once the locks of the write set are acquired, [tm_end] takes
    [wv = gvc.fetch_add(1) + 1] (modulo 2^32, as [gvc], [rv] and [wv] are
    32-bit unsigned): the clock is left at [wv] and every committed word is
    released at [wv].  When [wv = rv + 1] the read set is not validated:
    no lock is sampled and the transaction commits.  Otherwise the read
    set is validated: the transaction commits exactly when no address of the
    read set is locked or newer than [rv], and a lock is sampled whenever
    the read set is not empty. *)
Theorem tm_end_write_version
    (s s1 s' : State) (t : Transaction) (b : bool) :
  txn s = Some t -> ro t = false ->
  LockWriteSet s = Ok true s1 ->
  tm_end s = Ok b s' ->
  let wv' := wrap32 (gvc (reg s) + 1) in
  txn (after_fetch_add s1 t) = Some (with_wv t wv') /\
  gvc (reg s') = wv' /\
  (b = true ->
   Forall (fun e => exists w, word (reg s') (fst e) = Some w /\
                              lock w = {| vl_locked := false; vl_version := wv' |})
          (write_set t)) /\
  (wv' = wrap32 (rv t + 1) ->
   b = true /\
   exists l, log s' = log s1 ++ l /\ forall a, ~ In (EvSample a) l) /\
  (wv' <> wrap32 (rv t + 1) ->
   (b = true <-> forall a, a ∈ read_set t -> word_stale (reg s) (rv t) a = false) /\
   (read_set t <> ∅ -> exists l a, log s' = log s1 ++ l /\ In (EvSample a) l)).
Proof.
  intros Ht Hro Hlock Hend wv'.
  rewrite (tm_end_locked s s1 t Ht Hro Hlock) in Hend.
  assert (Hs1 : exists l, s1 = add_log s l).
  { unfold LockWriteSet in Hlock. inv_bind Hlock. inv_step Hstep.
    apply LockWriteSet_loop_Ok in Hlock. destruct Hlock as (l & -> & _). eauto. }
  destruct Hs1 as [l0 ->].
  assert (Hafa : txn (after_fetch_add (add_log s l0) t) = Some (with_wv t wv'))
    by reflexivity.
  split; [exact Hafa|].
  destruct (Z.eqb_spec (wrap32 (rv t + 1)) (wrap32 (gvc (reg s) + 1))) as [Heq|Hne].
  - apply (commit_path_Ok _ _ _ _ Hafa) in Hend.
    destruct Hend as (-> & _ & _ & Hlog & (_ & Hgvc & _) & _ & Hdone).
    split; [exact Hgvc|]. split; [intros _; exact Hdone|]. split.
    + intros _. split; [reflexivity|].
      exists (EvFetchAdd ::
              flat_map (fun e => [EvStore (fst e); EvUnlockVersion (fst e) wv'])
                       (write_set t)).
      split.
      * rewrite Hlog. cbn [after_fetch_add log with_wv write_set wv].
        rewrite <- app_assoc. reflexivity.
      * intros a [Hin|Hin]; [discriminate|]. apply in_flat_map in Hin.
        destruct Hin as (e & _ & [He|[He|[]]]); discriminate.
    + intros Hw. exfalso. apply Hw. symmetry. exact Heq.
  - inv_bind Hend. destruct (ValidateReadSet_Ok _ _ _ _ Hafa Hstep) as (l & -> & Hv & Hs).
    cbn [with_wv rv read_set after_fetch_add reg] in Hv, Hs.
    assert (Hafa' : txn (add_log (after_fetch_add (add_log s l0) t) l) = Some (with_wv t wv'))
      by reflexivity.
    destruct x; cbn [negb] in Hend.
    + apply (commit_path_Ok _ _ _ _ Hafa') in Hend.
      destruct Hend as (-> & _ & _ & Hlog & (_ & Hgvc & _) & _ & Hdone).
      split; [exact Hgvc|]. split; [intros _; exact Hdone|]. split.
      * intros Hw. exfalso. apply Hne. symmetry. exact Hw.
      * intros _. split; [exact Hv|]. intros Hrs.
        destruct (Hs Hrs) as [a Ha].
        exists (EvFetchAdd :: l ++
                flat_map (fun e => [EvStore (fst e); EvUnlockVersion (fst e) wv'])
                         (write_set t)), a.
        split.
        -- rewrite Hlog. cbn [add_log after_fetch_add log with_wv write_set wv].
           rewrite <- !app_assoc. reflexivity.
        -- right. apply in_or_app. left. exact Ha.
    + apply (abort_path_Ok _ _ _ _ Hafa') in Hend.
      destruct Hend as (-> & _ & _ & Hlog & (_ & Hgvc & _) & _ & _).
      split; [exact Hgvc|]. split; [discriminate|]. split.
      * intros Hw. exfalso. apply Hne. symmetry. exact Hw.
      * intros _. split; [exact Hv|]. intros Hrs.
        destruct (Hs Hrs) as [a Ha].
        exists (EvFetchAdd :: l ++ map EvUnlock (map fst (write_set t))), a.
        split.
        -- rewrite Hlog. cbn [add_log after_fetch_add log with_wv write_set wv].
           rewrite <- !app_assoc. reflexivity.
        -- right. apply in_or_app. left. exact Ha.
Qed.

Lemma tm_end_write_version_witness :
  let s := ex_state_3 in
  let s' := final_state (tm_end s) s in
  tm_end s = Ok false s' /\
  gvc (reg s') = wrap32 (5 + 1) /\
  (wrap32 (gvc (reg s) + 1) <> wrap32 (rv ex_txn_3 + 1) ->
   (false = true <-> forall a, a ∈ read_set ex_txn_3 -> word_stale (reg s) (rv ex_txn_3) a = false)).
Proof.
  intros s s'.
  assert (Hend : tm_end s = Ok false s')
    by (apply Ok_final_state; vm_compute; reflexivity).
  split; [exact Hend|].
  destruct (tm_end_write_version s (final_state (LockWriteSet s) s) s' ex_txn_3 false)
    as (_ & Hgvc & _ & _ & Hval).
  - reflexivity.
  - reflexivity.
  - apply Ok_final_state. vm_compute. reflexivity.
  - exact Hend.
  - split; [exact Hgvc|]. intros Hne. exact (proj1 (Hval Hne)).
Defined.

Lemma abort_path_total (s : State) (t : Transaction) :
  txn s = Some t ->
  Forall (fun e => is_Some (word (reg s) (fst e))) (write_set t) ->
  exists s', (let* _ := UnlockWriteSet in let* _ := delete_txn in ret false) s
             = Ok false s'.
Proof.
  intros Ht Hin.
  destruct (UnlockWriteSet_loop_total (write_set t) s Hin) as [s2 H2].
  assert (Ht2 : txn s2 = Some t).
  { apply UnlockWriteSet_loop_Ok in H2. destruct H2 as (-> & _). exact Ht. }
  unfold bind at 1. unfold UnlockWriteSet, bind at 1. unfold get_txn at 1.
  rewrite Ht, H2. unfold bind, delete_txn. rewrite Ht2. eexists. reflexivity.
Qed.

Lemma word_free_is_Some (r : Region) (a : Z) :
  word_free r a = true -> is_Some (word r a).
Proof. unfold word_free. destruct (word r a); [eauto|discriminate]. Qed.

(** ** Private memory and offsets *)

Lemma pm_read_length (pm : PrivMem) (a n : Z) :
  length (pm_read pm a n) = Z.to_nat n.
Proof. unfold pm_read. now rewrite length_map, length_seq. Qed.

Lemma pm_read_nth (pm : PrivMem) (a n : Z) (i : nat) :
  (i < Z.to_nat n)%nat -> nth i (pm_read pm a n) Byte.x00 = pm (a + Z.of_nat i).
Proof.
  intros Hi. unfold pm_read.
  rewrite (nth_indep _ Byte.x00 ((fun i => pm (a + Z.of_nat i)) O))
    by now rewrite length_map, length_seq.
  rewrite (map_nth (fun i => pm (a + Z.of_nat i))), seq_nth by exact Hi.
  reflexivity.
Qed.

Lemma pm_read_ext (pm pm' : PrivMem) (a a' n : Z) :
  (forall i, 0 <= i < n -> pm (a + i) = pm' (a' + i)) ->
  pm_read pm a n = pm_read pm' a' n.
Proof.
  intros H. apply (nth_ext _ _ Byte.x00 Byte.x00).
  - now rewrite !pm_read_length.
  - intros i Hi. rewrite pm_read_length in Hi.
    rewrite !pm_read_nth by exact Hi. apply H. lia.
Qed.

Lemma pm_write_inside (pm : PrivMem) (a : Z) (bs : list byte) (x : Z) :
  a <= x < a + Z.of_nat (length bs) ->
  pm_write pm a bs x = nth (Z.to_nat (x - a)) bs Byte.x00.
Proof.
  intros H. unfold pm_write.
  destruct (Z.leb_spec a x); [|lia].
  destruct (Z.ltb_spec x (a + Z.of_nat (length bs))); [reflexivity|lia].
Qed.

Lemma pm_write_outside (pm : PrivMem) (a : Z) (bs : list byte) (x : Z) :
  x < a \/ a + Z.of_nat (length bs) <= x ->
  pm_write pm a bs x = pm x.
Proof.
  intros H. unfold pm_write.
  destruct (Z.leb_spec a x); [|reflexivity].
  destruct (Z.ltb_spec x (a + Z.of_nat (length bs))); [lia|reflexivity].
Qed.

Lemma pm_read_pm_write_same (pm : PrivMem) (a : Z) (bs : list byte) :
  pm_read (pm_write pm a bs) a (Z.of_nat (length bs)) = bs.
Proof.
  apply (nth_ext _ _ Byte.x00 Byte.x00).
  - rewrite pm_read_length. lia.
  - intros i Hi. rewrite pm_read_length in Hi.
    rewrite pm_read_nth by exact Hi.
    rewrite pm_write_inside by lia. f_equal. lia.
Qed.

Lemma load_Some (src : list byte) (n : Z) (b : list byte) :
  load src n = Some b ->
  0 <= n <= Z.of_nat (length src) /\ b = take (Z.to_nat n) src /\
  Z.of_nat (length b) = n.
Proof.
  unfold load. destruct (Z.leb_spec 0 n); [|discriminate].
  destruct (Z.leb_spec n (Z.of_nat (length src))); [|discriminate].
  cbn. intros [= <-]. rewrite length_take. split_all; lia.
Qed.

Lemma load_is_Some (src : list byte) (n : Z) :
  0 <= n <= Z.of_nat (length src) -> load src n = Some (take (Z.to_nat n) src).
Proof.
  intros H. unfold load.
  destruct (Z.leb_spec 0 n); [|lia].
  destruct (Z.leb_spec n (Z.of_nat (length src))); [reflexivity|lia].
Qed.

Lemma wrap64_small (x : Z) : 0 <= x < 2 ^ 64 -> wrap64 x = x.
Proof. intros H. unfold wrap64. now apply Z.mod_small. Qed.

Lemma wrap64_add_inj (d x y : Z) :
  0 <= x < 2 ^ 64 -> 0 <= y < 2 ^ 64 ->
  wrap64 (d + x) = wrap64 (d + y) -> x = y.
Proof.
  unfold wrap64. intros Hx Hy H.
  pose proof (Z.div_mod (d + x) (2 ^ 64) ltac:(lia)) as E1.
  pose proof (Z.div_mod (d + y) (2 ^ 64) ltac:(lia)) as E2.
  rewrite H in E1.
  assert (x - y = 2 ^ 64 * ((d + x) / 2 ^ 64 - (d + y) / 2 ^ 64)) by lia.
  nia.
Qed.

(** ** The loop over the offsets *)

Lemma for_offsets_inv (I : State -> Prop) (Q : bool -> State -> Prop)
    (size : Z) (body : Z -> M (option bool)) :
  (forall offset s x s', I s -> body offset s = Ok x s' ->
     match x with None => I s' | Some v => Q v s' end) ->
  forall fuel offset s x s',
    I s -> for_offsets fuel size body offset s = Ok x s' ->
    match x with None => I s' | Some v => Q v s' end.
Proof.
  intros Hbody. induction fuel as [|fuel IH]; intros offset s x s' HI H.
  - discriminate.
  - cbn [for_offsets] in H. destruct (offset <? size).
    + inv_bind H. specialize (Hbody _ _ _ _ HI Hstep).
      destruct x0 as [v|].
      * inv_step H. exact Hbody.
      * inv_bind H. inv_step Hstep0. exact (IH _ _ _ _ Hbody H).
    + inv_step H. exact HI.
Qed.

Lemma for_offsets_total (a size : Z) (body : Z -> M (option bool))
    (I : Z -> State -> Prop) (Q : option bool -> State -> Prop) :
  0 < a -> 0 <= size -> size + a <= 2 ^ 64 ->
  (forall k s, I k s -> align (reg s) = a) ->
  (forall k s, 0 <= k -> k * a < size -> I k s ->
     exists x s', body (k * a) s = Ok x s' /\
       match x with None => I (k + 1) s' | Some v => Q (Some v) s' end) ->
  (forall k s, 0 <= k -> size <= k * a -> (k - 1) * a < size \/ k = 0 ->
               I k s -> Q None s) ->
  forall (fuel : nat) (k : Z) (s : State),
    0 <= k -> I k s -> (k - 1) * a < size \/ k = 0 ->
    size + a <= (k + Z.of_nat fuel) * a ->
    exists x s', for_offsets fuel size body (k * a) s = Ok x s' /\ Q x s'.
Proof.
  intros Ha Hsz Hsize Halign Hbody Hexit.
  induction fuel as [|fuel IH]; intros k s Hk HI Hprev Hfuel.
  - exfalso. nia.
  - cbn [for_offsets]. destruct (Z.ltb_spec (k * a) size) as [Hlt|Hge].
    + destruct (Hbody k s Hk Hlt HI) as (x & s' & Hrun & Hpost).
      unfold bind at 1. rewrite Hrun. destruct x as [v|].
      * eexists _, _. split; [reflexivity|exact Hpost].
      * unfold bind at 1. cbn [get_region]. rewrite (Halign _ _ Hpost).
        replace (wrap64 (k * a + a)) with ((k + 1) * a)
          by (rewrite wrap64_small; nia).
        apply IH; [lia|exact Hpost|left; nia|nia].
    + eexists _, _. split; [reflexivity|]. exact (Hexit k s Hk Hge Hprev HI).
Qed.

(** ** One iteration of [tm_write] and of [tm_read] *)

Lemma memcpy_full (dst src : list byte) (n : Z) :
  0 <= n -> length src = Z.to_nat n -> length dst = Z.to_nat n ->
  memcpy dst src n = Some src.
Proof.
  intros Hn Hs Hd. unfold memcpy. rewrite load_is_Some by lia.
  destruct (Z.leb_spec n (Z.of_nat (length dst))); [|lia].
  rewrite take_ge, drop_ge by lia. now rewrite app_nil_r.
Qed.

Lemma set_txn_same (s : State) (o : option Transaction) :
  txn s = o -> set_txn s o = s.
Proof. destruct s. cbn. now intros ->. Qed.

Lemma tm_write_body_eq (source target offset : Z) (s : State) (t : Transaction) :
  txn s = Some t -> 0 <= align (reg s) ->
  tm_write_body source target offset s =
  Ok None
     (set_txn s
        (Some (with_write_set t
                 (ws_assign (wrap64 (target + offset))
                            (pm_read (pmem s) (wrap64 (source + offset)) (align (reg s)))
                            (write_set t))))).
Proof.
  intros Ht Hal. unfold tm_write_body.
  unfold bind at 1. cbn [get_region]. unfold bind at 1. unfold get_txn. rewrite Ht.
  unfold bind at 1. unfold put_txn at 1. rewrite Ht.
  unfold bind at 1. rewrite ws_find_assign_eq. cbn [lift ret].
  unfold bind at 1. cbn [get_pmem pmem].
  rewrite memcpy_full; [|exact Hal|apply pm_read_length|apply length_replicate].
  unfold bind at 1. cbn [lift ret]. unfold bind, put_txn. cbn [txn reg pmem log].
  rewrite ws_assign_assign. reflexivity.
Qed.

Lemma tm_write_body_Ok (source target offset : Z) (s : State) (x : option bool) (s' : State) :
  tm_write_body source target offset s = Ok x s' ->
  x = None /\ exists t ws, txn s = Some t /\ s' = set_txn s (Some (with_write_set t ws)).
Proof.
  intros H. unfold tm_write_body in H.
  inv_bind H. inv_step Hstep. inv_bind H. inv_step Hstep.
  inv_bind H. unfold put_txn in Hstep0. rewrite Hstep in Hstep0. inv_ok Hstep0.
  inv_bind H. inv_step Hstep0. inv_bind H. inv_step Hstep1.
  inv_bind H. inv_step Hstep1. inv_bind H.
  unfold put_txn in Hstep2. cbn [txn] in Hstep2. inv_ok Hstep2. inv_step H.
  split; [reflexivity|]. eexists _, _. split; [exact Hstep|reflexivity].
Qed.

Lemma read_shared_eq (addr target_addr : Z) (w : Word) (s : State)
    (t : Transaction) (b : list byte) :
  txn s = Some t ->
  load (data w) (align (reg s)) = Some b ->
  read_shared addr target_addr w s =
  if vl_locked (lock w) || (rv t <? vl_version (lock w))
  then Ok (Some false) (set_txn (add_log s [EvSample addr]) None)
  else Ok None
          {| reg := reg s; txn := Some t; pmem := pm_write (pmem s) target_addr b;
             log := log s ++ [EvSample addr; EvLoad addr] |}.
Proof.
  intros Ht Hload. unfold read_shared.
  unfold bind at 1. cbn [get_region]. unfold bind at 1. unfold get_txn. rewrite Ht.
  unfold bind at 1. rewrite emit_add_log. unfold Sample. cbn [locked version].
  destruct (vl_locked (lock w) || (rv t <? vl_version (lock w))).
  - unfold bind, delete_txn. cbn [add_log txn]. rewrite Ht. reflexivity.
  - unfold bind at 1. rewrite emit_add_log. unfold bind at 1. rewrite Hload.
    cbn [lift ret]. unfold bind. cbn [get_pmem put_pmem add_log reg txn pmem log].
    rewrite Ht, <- app_assoc. reflexivity.
Qed.

Lemma read_shared_Ok (addr target_addr : Z) (w : Word) (s : State)
    (x : option bool) (s' : State) :
  read_shared addr target_addr w s = Ok x s' ->
  reg s' = reg s /\
  ((x = Some false /\ txn s' = None) \/ (x = None /\ txn s' = txn s)).
Proof.
  intros H. unfold read_shared in H.
  inv_bind H. inv_step Hstep. inv_bind H. inv_step Hstep.
  inv_bind H. inv_step Hstep0.
  match type of H with context [if ?c then _ else _] => destruct c end.
  - inv_bind H. apply delete_txn_Ok in Hstep0. destruct Hstep0 as (Hr & Ht & _).
    inv_step H. split; [exact Hr|]. left. split; [reflexivity|exact Ht].
  - inv_bind H. inv_step Hstep0. inv_bind H. inv_step Hstep0.
    inv_bind H. inv_step Hstep1. inv_bind H. unfold put_pmem in Hstep1.
    inv_ok Hstep1. inv_step H. split; [reflexivity|]. right. split; reflexivity.
Qed.

Lemma tm_read_ro_body_Ok (source target offset : Z) (s : State)
    (x : option bool) (s' : State) :
  tm_read_ro_body source target offset s = Ok x s' ->
  reg s' = reg s /\
  ((x = Some false /\ txn s' = None) \/ (x = None /\ txn s' = txn s)).
Proof.
  intros H. unfold tm_read_ro_body in H. inv_bind H. inv_step Hstep.
  exact (read_shared_Ok _ _ _ _ _ _ H).
Qed.

Lemma tm_read_rw_body_Ok (source target offset : Z) (s : State)
    (x : option bool) (s' : State) :
  tm_read_rw_body source target offset s = Ok x s' ->
  reg s' = reg s /\
  ((x = Some false /\ txn s' = None) \/
   (x = None /\ exists t rs, txn s = Some t /\ txn s' = Some (with_read_set t rs))).
Proof.
  intros H. unfold tm_read_rw_body in H.
  inv_bind H. inv_step Hstep. inv_bind H. inv_step Hstep.
  inv_bind H. unfold put_txn in Hstep0. rewrite Hstep in Hstep0. inv_ok Hstep0.
  inv_bind H. inv_step Hstep0.
  match type of H with
  | context [match ?c with Some _ => _ | None => _ end] => destruct c as [buf|]
  end.
  - inv_bind H. inv_step Hstep1. inv_bind H. inv_step Hstep2.
    inv_bind H. unfold put_pmem in Hstep2. inv_ok Hstep2. inv_step H.
    split; [reflexivity|]. right. split; [reflexivity|]. eauto.
  - apply read_shared_Ok in H. cbn [reg txn] in H. destruct H as (Hr & [H|[Hx Ht]]).
    + split; [exact Hr|]. left. exact H.
    + split; [exact Hr|]. right. split; [exact Hx|]. eauto.
Qed.

(** ** Frames of [tm_write] and [tm_read] *)

Lemma tm_write_Ok (fuel : nat) (source size target : Z) (s : State) (b : bool) (s' : State) :
  tm_write fuel source size target s = Ok b s' ->
  b = true /\ reg s' = reg s /\ pmem s' = pmem s /\ log s' = log s /\
  (forall t', txn s' = Some t' ->
     exists t, txn s = Some t /\ ro t' = ro t /\ rv t' = rv t /\ wv t' = wv t /\
               read_set t' = read_set t) /\
  (txn s' = None -> txn s = None).
Proof.
  intros H. unfold tm_write in H. inv_bind H. inv_step H.
  split; [reflexivity|].
  pose (I := fun s1 : State =>
    reg s1 = reg s /\ pmem s1 = pmem s /\ log s1 = log s /\
    (forall t', txn s1 = Some t' ->
       exists t, txn s = Some t /\ ro t' = ro t /\ rv t' = rv t /\ wv t' = wv t /\
                 read_set t' = read_set t) /\
    (txn s1 = None -> txn s = None)).
  assert (HI : I s) by (unfold I; split_all; eauto 10).
  pose proof (for_offsets_inv I (fun _ _ => False) size
                (tm_write_body source target)) as Hloop.
  specialize (Hloop ltac:(
    intros offset s1 y s2 (Hr & Hp & Hl & Ht & Hn) Hb;
    apply tm_write_body_Ok in Hb; destruct Hb as (-> & t1 & ws & Ht1 & ->);
    unfold I; cbn [set_txn reg pmem log txn]; split_all;
    [exact Hr|exact Hp|exact Hl| |discriminate];
    intros t' [= <-]; destruct (Ht t1 Ht1) as (t0 & ? & ? & ? & ? & ?);
    exists t0; cbn; auto) fuel 0 s x s' HI Hstep).
  destruct x as [v|]; [contradiction|exact Hloop].
Qed.

Lemma tm_read_Ok (fuel : nat) (source size target : Z) (s : State) (b : bool) (s' : State) :
  tm_read fuel source size target s = Ok b s' ->
  reg s' = reg s /\
  exists t, txn s = Some t /\
    (txn s' = None \/
     exists t', txn s' = Some t' /\ ro t' = ro t /\ rv t' = rv t /\ wv t' = wv t /\
                write_set t' = write_set t /\
                (ro t = true -> read_set t' = read_set t)).
Proof.
  intros H. unfold tm_read in H. inv_bind H. inv_step Hstep. inv_bind H.
  rename x into t.
  pose (I := fun s1 : State =>
    reg s1 = reg s /\
    exists t', txn s1 = Some t' /\ ro t' = ro t /\ rv t' = rv t /\ wv t' = wv t /\
               write_set t' = write_set t /\
               (ro t = true -> read_set t' = read_set t)).
  pose (Q := fun (_ : bool) (s1 : State) => reg s1 = reg s /\ txn s1 = None).
  assert (HI : I s) by (unfold I; split; [reflexivity|]; exists t; auto 10).
  assert (Hbody : forall offset s1 y s2, I s1 ->
            (if ro t then tm_read_ro_body source target
             else tm_read_rw_body source target) offset s1 = Ok y s2 ->
            match y with None => I s2 | Some v => Q v s2 end).
  { intros offset s1 y s2 (Hr & t1 & Ht1 & Hro & Hrv & Hwv & Hws & Hrs) Hb.
    destruct (ro t) eqn:Erot.
    - apply tm_read_ro_body_Ok in Hb. destruct Hb as (Hr2 & [[-> Hn]|[-> Hk]]).
      + split; congruence.
      + split; [congruence|]. exists t1. rewrite Hk. auto 10.
    - apply tm_read_rw_body_Ok in Hb.
      destruct Hb as (Hr2 & [[-> Hn]|(-> & t2 & rs & Ht2 & Hk)]).
      + split; congruence.
      + split; [congruence|]. rewrite Ht1 in Ht2. injection Ht2 as <-.
        eexists. split; [exact Hk|]. cbn. split_all; auto. discriminate. }
  pose proof (for_offsets_inv I Q size _ Hbody fuel 0 s x0 s0 HI Hstep0) as Hloop.
  split.
  - destruct x0 as [v|]; inv_step H; [exact (proj1 Hloop)|exact (proj1 Hloop)].
  - exists t. split; [exact Hstep|].
    destruct x0 as [v|]; inv_step H.
    + left. exact (proj2 Hloop).
    + right. exact (proj2 Hloop).
Qed.

(** ** Read-only transactions *)

Lemma exec_read_write_ro_inv (c : Call) (s s' : State) (u : unit) :
  is_read_or_write c = true -> exec c s = Ok u s' -> ro_inv s -> ro_inv s'.
Proof.
  intros Hc Hrun Hinv t' Ht'. destruct c; try discriminate; cbn [exec] in Hrun.
  - inv_bind Hrun. inv_step Hrun. apply tm_read_Ok in Hstep.
    destruct Hstep as (_ & t & Ht & [Hn|(t1 & Ht1 & Hro & _ & _ & _ & Hrs)]);
      [congruence|].
    rewrite Ht1 in Ht'. injection Ht' as <-.
    destruct (Hinv t Ht) as [Hrot Hempty]. split; [congruence|].
    rewrite (Hrs Hrot). exact Hempty.
  - inv_bind Hrun. inv_step Hrun. apply tm_write_Ok in Hstep.
    destruct Hstep as (_ & _ & _ & _ & Hsome & _).
    destruct (Hsome t' Ht') as (t & Ht & Hro & _ & _ & Hrs).
    destruct (Hinv t Ht) as [Hrot Hempty]. split; congruence.
Qed.

Lemma exec_all_read_write_ro_inv (calls : list Call) :
  forall (s s' : State) (u : unit),
    forallb is_read_or_write calls = true ->
    exec_all calls s = Ok u s' -> ro_inv s -> ro_inv s'.
Proof.
  induction calls as [|c cs IH]; intros s s' u Hall Hrun Hinv.
  - cbn in Hrun. inv_step Hrun. exact Hinv.
  - cbn [forallb] in Hall. apply andb_true_iff in Hall. destruct Hall as [Hc Hcs].
    cbn [exec_all] in Hrun. inv_bind Hrun.
    exact (IH _ _ _ Hcs Hrun (exec_read_write_ro_inv c s s0 x Hc Hstep Hinv)).
Qed.

(** C9: a transaction begun read-only has an empty read set after any
    sequence of reads (and writes), and [tm_end] then deletes it and returns
    [true], leaving the region as it was. *)
Theorem read_only_read_set_empty (s0 : State) (calls : list Call) (s : State) :
  forallb is_read_or_write calls = true ->
  exec_all (CBegin true :: calls) s0 = Ok tt s ->
  forall t, txn s = Some t ->
    ro t = true /\ read_set t = ∅ /\
    exists s', tm_end s = Ok true s' /\ txn s' = None /\ reg s' = reg s.
Proof.
  intros Hall Hrun t Ht. cbn [exec_all exec] in Hrun. inv_bind Hrun.
  unfold tm_begin in Hstep. inv_ok Hstep.
  assert (Hinv : ro_inv s).
  { eapply exec_all_read_write_ro_inv; [exact Hall|exact Hrun|].
    intros t0 [= <-]. split; reflexivity. }
  destruct (Hinv t Ht) as [Hro Hempty]. split; [exact Hro|]. split; [exact Hempty|].
  unfold tm_end, bind, get_txn, delete_txn. rewrite Ht, Hro, Ht.
  eexists. split; [reflexivity|]. split; reflexivity.
Qed.

Lemma read_only_read_set_empty_witness :
  let calls := [CRead 3 (A 0) 16 2000; CRead 3 (A 5) 8 2016] in
  let s := state_after (CBegin true :: calls) ex_init in
  ro {| ro := true; rv := 0; wv := 0; read_set := ∅; write_set := [] |} = true /\
  exists s', tm_end s = Ok true s' /\ txn s' = None /\ reg s' = reg s.
Proof.
  intros calls s.
  destruct (read_only_read_set_empty ex_init calls s eq_refl)
    with (t := {| ro := true; rv := 0; wv := 0; read_set := ∅; write_set := [] |})
    as (Hro & _ & Hend).
  - unfold s, state_after. apply Ok_final_state. vm_compute. reflexivity.
  - vm_compute. reflexivity.
  - split; [exact Hro|exact Hend].
Defined.

(** ** Writes *)

(** C8: [tm_write] returns [true]; it leaves the region (payloads, locks and
    clock), the private memory and the log of lock calls as they were, and
    the transaction differs only by its write set, which maps the address
    of each word written to the [align] bytes of the source at the same
    offset and is unchanged at every other address. *)
Theorem tm_write_stages
    (fuel : nat) (source size target : Z) (s : State) (t : Transaction) :
  txn s = Some t ->
  0 < align (reg s) -> 0 <= size -> size + align (reg s) <= 2 ^ 64 ->
  size + align (reg s) <= Z.of_nat fuel * align (reg s) ->
  exists t',
    tm_write fuel source size target s = Ok true (set_txn s (Some t')) /\
    ro t' = ro t /\ rv t' = rv t /\ wv t' = wv t /\ read_set t' = read_set t /\
    (forall k, 0 <= k -> k * align (reg s) < size ->
       ws_find (wrap64 (target + k * align (reg s))) (write_set t') =
       Some (pm_read (pmem s) (wrap64 (source + k * align (reg s))) (align (reg s)))) /\
    (forall a,
       (forall k, 0 <= k -> k * align (reg s) < size ->
                  a <> wrap64 (target + k * align (reg s))) ->
       ws_find a (write_set t') = ws_find a (write_set t)).
Proof.
  intros Ht Hal Hsz Hwrap Hfuel.
  set (al := align (reg s)) in *.
  pose (I := fun (k : Z) (s1 : State) =>
    exists t1, s1 = set_txn s (Some t1) /\
      ro t1 = ro t /\ rv t1 = rv t /\ wv t1 = wv t /\ read_set t1 = read_set t /\
      (forall j, 0 <= j < k -> j * al < size ->
         ws_find (wrap64 (target + j * al)) (write_set t1) =
         Some (pm_read (pmem s) (wrap64 (source + j * al)) al)) /\
      (forall a, (forall j, 0 <= j < k -> j * al < size -> a <> wrap64 (target + j * al)) ->
         ws_find a (write_set t1) = ws_find a (write_set t))).
  pose (Q := fun (x : option bool) (s1 : State) => x = None /\ exists k, 0 <= k /\ size <= k * al /\ I k s1).
  destruct (for_offsets_total al size (tm_write_body source target) I Q Hal Hsz Hwrap)
    with (fuel := fuel) (k := 0) (s := s) as (x & s' & Hrun & Hx & k & Hk & Hexit & HI).
  - intros k s1 (t1 & -> & _). reflexivity.
  - intros k s1 Hk Hlt (t1 & -> & Hro & Hrv & Hwv & Hrs & Hdone & Hother).
    eexists None, _. split.
    + apply tm_write_body_eq; [reflexivity|]. cbn [set_txn reg]. fold al. lia.
    + cbn [set_txn reg pmem txn log]. fold al.
      eexists. split; [reflexivity|]. cbn [with_write_set ro rv wv read_set write_set].
      split_all; try assumption.
      * intros j Hj Hjlt. destruct (Z.eq_dec j k) as [->|Hne].
        -- apply ws_find_assign_eq.
        -- rewrite ws_find_assign_ne; [apply Hdone; lia|].
           intros E. apply wrap64_add_inj in E; nia.
      * intros a Ha. rewrite ws_find_assign_ne; [apply Hother|].
        -- intros j Hj Hjlt. apply Ha; lia.
        -- intros E. apply (Ha k); [lia|exact Hlt|]. symmetry. exact E.
  - intros k s1 Hk Hge _ HI. split; [reflexivity|]. exists k. auto.
  - lia.
  - exists t. split; [symmetry; apply set_txn_same; exact Ht|].
    split_all; auto; intros; lia.
  - right. reflexivity.
  - fold al. lia.
  - destruct HI as (t1 & -> & Hro & Hrv & Hwv & Hrs & Hdone & Hother).
    exists t1. split.
    + unfold tm_write, bind. change (0 * al) with 0 in Hrun. rewrite Hrun.
      subst x. reflexivity.
    + split_all; try assumption.
      * intros j Hj Hjlt. apply Hdone; [|exact Hjlt]. nia.
      * intros a Ha. apply Hother. intros j Hj Hjlt. apply Ha; [lia|exact Hjlt].
Qed.

Lemma tm_write_stages_witness :
  let s := state_after [CBegin false] ex_init in
  exists t',
    tm_write 3 1000 16 (A 2) s = Ok true (set_txn s (Some t')) /\
    ws_find (A 3) (write_set t') = Some (pm_read ex_pm 1008 8).
Proof.
  intros s.
  destruct (tm_write_stages 3 1000 16 (A 2) s
              {| ro := false; rv := 0; wv := 0; read_set := ∅; write_set := [] |})
    as (t' & Hrun & _ & _ & _ & _ & Hfind & _).
  - reflexivity.
  - vm_compute. reflexivity.
  - lia.
  - vm_compute. discriminate.
  - vm_compute. discriminate.
  - exists t'. split; [exact Hrun|].
    exact (Hfind 1 ltac:(lia) ltac:(vm_compute; reflexivity)).
Defined.

(** ** Reads *)

Lemma served_true (t : Transaction) (addr : Z) :
  served t addr = true <->
  ro t = false /\ exists buf, ws_find addr (write_set t) = Some buf.
Proof.
  unfold served. rewrite andb_true_iff, negb_true_iff, bool_decide_eq_true.
  reflexivity.
Qed.

Lemma served_false (t : Transaction) (addr : Z) :
  served t addr = false <-> ro t = true \/ ws_find addr (write_set t) = None.
Proof.
  unfold served. rewrite andb_false_iff, negb_false_iff, bool_decide_eq_false.
  split; (intros [H|H]; [now left|right]).
  - destruct (ws_find addr (write_set t)); [|reflexivity]. exfalso. apply H. eauto.
  - rewrite H. intros [x Hx]. discriminate.
Qed.

(** One iteration of either loop of [tm_read], [t0] being the transaction
    when [tm_read] was called and [t] the transaction now. *)
Lemma tm_read_body_eq (source target offset : Z) (s : State) (t0 t : Transaction)
    (w : Word) (b : list byte) :
  txn s = Some t -> ro t = ro t0 -> rv t = rv t0 -> write_set t = write_set t0 ->
  word (reg s) (wrap64 (source + offset)) = Some w ->
  read_source (reg s) t0 (wrap64 (source + offset)) = Some b ->
  (if ro t0 then tm_read_ro_body source target
   else tm_read_rw_body source target) offset s =
  let addr := wrap64 (source + offset) in
  let t' := if ro t0 then t else with_read_set t ({[ addr ]} ∪ read_set t) in
  if served t0 addr then
    Ok None {| reg := reg s; txn := Some t';
               pmem := pm_write (pmem s) (wrap64 (target + offset)) b; log := log s |}
  else if word_stale (reg s) (rv t0) addr then
    Ok (Some false) (set_txn (add_log s [EvSample addr]) None)
  else
    Ok None {| reg := reg s; txn := Some t';
               pmem := pm_write (pmem s) (wrap64 (target + offset)) b;
               log := log s ++ [EvSample addr; EvLoad addr] |}.
Proof.
  intros Ht Hro Hrv Hws Hw Hsrc. cbv zeta.
  unfold read_source in Hsrc. unfold word_stale. rewrite Hw in *.
  destruct (ro t0) eqn:Erot.
  - assert (Hs : served t0 (wrap64 (source + offset)) = false)
      by (apply served_false; now left).
    rewrite Hs in *. unfold tm_read_ro_body. unfold bind at 1.
    rewrite (word_ref_eq _ s w Hw).
    rewrite (read_shared_eq _ _ w s t b Ht Hsrc), Hrv. reflexivity.
  - unfold tm_read_rw_body.
    unfold bind at 1. cbn [get_region]. unfold bind at 1. unfold get_txn. rewrite Ht.
    unfold bind at 1. unfold put_txn at 1. rewrite Ht.
    unfold bind at 1.
    match goal with |- context [word_ref ?a ?st] =>
      rewrite (word_ref_eq a st w Hw) end.
    rewrite Hws.
    destruct (served t0 (wrap64 (source + offset))) eqn:Es.
    + apply served_true in Es. destruct Es as [_ [buf Hbuf]]. rewrite Hbuf in *.
      unfold bind at 1. rewrite Hsrc. cbn [lift ret]. reflexivity.
    + apply served_false in Es. destruct Es as [Es|Es]; [congruence|]. rewrite Es.
      match goal with |- read_shared ?a ?ta w ?st = _ =>
        rewrite (read_shared_eq a ta w st
                   (with_read_set t ({[a]} ∪ read_set t)) b eq_refl Hsrc) end.
      cbn [with_read_set rv]. rewrite Hrv. reflexivity.
Qed.

Lemma read_source_length (r : Region) (t : Transaction) (addr : Z) (b : list byte) :
  read_source r t addr = Some b -> Z.of_nat (length b) = align r.
Proof.
  unfold read_source. destruct (served t addr).
  - destruct (ws_find addr (write_set t)); [|discriminate].
    intros H. now apply load_Some in H.
  - destruct (word r addr); [|discriminate].
    intros H. now apply load_Some in H.
Qed.

Lemma read_step (source size target : Z) (s : State) (t : Transaction) (k : Z) (s1 : State) :
  0 < align (reg s) ->
  0 <= target -> target + size <= 2 ^ 64 ->
  0 <= k -> k * align (reg s) < size ->
  is_Some (word (reg s) (word_addr source (align (reg s)) k)) ->
  is_Some (read_source (reg s) t (word_addr source (align (reg s)) k)) ->
  read_inv source target s t k s1 ->
  exists x s2,
    (if ro t then tm_read_ro_body source target
     else tm_read_rw_body source target) (k * align (reg s)) s1 = Ok x s2 /\
    match x with
    | None => read_inv source target s t (k + 1) s2
    | Some v => v = false /\ read_aborted source size s t s2
    end.
Proof.
  intros Hal Ht0 Htw Hk Hlt [w Hw] [b Hb]
         (Hreg & (t1 & Ht1 & Hro & Hrv & Hwv & Hws & Hrs) & (l & Hl & Hev & Hsam) & Hdone & Hout).
  set (al := align (reg s)) in *.
  assert (Hlen : Z.of_nat (length b) = al) by exact (read_source_length _ _ _ _ Hb).
  unfold word_addr in Hw, Hb. rewrite <- Hreg in Hw, Hb.
  pose proof (tm_read_body_eq source target (k * al) s1 t t1 w b
                Ht1 Hro Hrv Hws Hw Hb) as Hrun.
  cbv zeta in Hrun. rewrite Hreg in Hrun, Hb.
  fold (word_addr source al k) in Hrun, Hb.
  rewrite (wrap64_small (target + k * al)) in Hrun by nia.
  assert (Hpm : forall pm j, 0 <= j < k ->
            pm_read (pm_write pm (target + k * al) b) (target + j * al) al =
            pm_read pm (target + j * al) al).
  { intros pm j Hj. apply pm_read_ext. intros i Hi.
    apply pm_write_outside. left. nia. }
  assert (Hrs' : forall x,
            x ∈ (if ro t then read_set t1
                 else {[ word_addr source al k ]} ∪ read_set t1) <->
            x ∈ read_set t \/
            (ro t = false /\ exists j, 0 <= j < k + 1 /\ x = word_addr source al j)).
  { intros x. destruct (ro t) eqn:Erot.
    - rewrite Hrs. split; (intros [H|[H _]]; [now left|discriminate]).
    - rewrite elem_of_union, elem_of_singleton, Hrs. split.
      + intros [->|[H|(_ & j & Hj & ->)]].
        * right. split; [reflexivity|]. exists k. split; [lia|reflexivity].
        * now left.
        * right. split; [reflexivity|]. exists j. split; [lia|reflexivity].
      + intros [H|(_ & j & Hj & ->)].
        * right. now left.
        * destruct (Z.eq_dec j k) as [->|Hne]; [now left|].
          right. right. split; [reflexivity|]. exists j. split; [lia|reflexivity]. }
  destruct (served t (word_addr source al k)) eqn:Es.
  - eexists None, _. split; [exact Hrun|].
    unfold read_inv. fold al. cbn [reg txn pmem log].
    split; [reflexivity|]. split; [|split; [|split]].
    + eexists. split; [reflexivity|].
      destruct (ro t) eqn:Erot; cbn [with_read_set ro rv wv write_set read_set];
        split_all; try assumption; exact Hrs'.
    + exists l. split; [exact Hl|]. split; [exact Hev|].
      intros j Hj Hsj. destruct (Z.eq_dec j k) as [->|Hne]; [congruence|].
      apply Hsam; [lia|exact Hsj].
    + intros j Hj. destruct (Z.eq_dec j k) as [->|Hne].
      * split; [unfold read_stops; now rewrite Es|].
        intros b' Hb'. rewrite Hb in Hb'. injection Hb' as <-.
        rewrite <- Hlen. apply pm_read_pm_write_same.
      * destruct (Hdone j ltac:(lia)) as [Hgood Hbytes]. split; [exact Hgood|].
        intros b' Hb'. rewrite Hpm by lia. exact (Hbytes b' Hb').
    + intros x Hx. rewrite pm_write_outside by nia. apply Hout. nia.
  - destruct (word_stale (reg s) (rv t) (word_addr source al k)) eqn:Est.
    + eexists (Some false), _. split; [exact Hrun|]. split; [reflexivity|].
      unfold read_aborted. fold al. cbn [set_txn add_log reg txn pmem log].
      split; [exact Hreg|]. split; [reflexivity|].
      exists k, (l ++ [EvSample (word_addr source al k)]).
      split; [exact Hk|]. split; [exact Hlt|].
      split; [unfold read_stops; now rewrite Es, Est|].
      split; [rewrite Hl; now rewrite <- app_assoc|]. split.
      * intros a [Ha|Ha]; apply in_app_or in Ha; destruct Ha as [Ha|[Ha|[]]];
          try discriminate; [apply Hev; now left| |apply Hev; now right].
        injection Ha as <-. exact Es.
      * apply in_or_app. right. now left.
    + eexists None, _. split; [exact Hrun|].
      unfold read_inv. fold al. cbn [reg txn pmem log].
      split; [reflexivity|]. split; [|split; [|split]].
      * eexists. split; [reflexivity|].
        destruct (ro t) eqn:Erot; cbn [with_read_set ro rv wv write_set read_set];
          split_all; try assumption; exact Hrs'.
      * exists (l ++ [EvSample (word_addr source al k); EvLoad (word_addr source al k)]).
        split; [rewrite Hl; now rewrite <- app_assoc|]. split.
        -- intros a [Ha|Ha]; apply in_app_or in Ha;
             destruct Ha as [Ha|[Ha|[Ha|[]]]]; try discriminate;
             [apply Hev; now left| |apply Hev; now right| ];
             injection Ha as <-; exact Es.
        -- intros j Hj Hsj. apply in_or_app.
           destruct (Z.eq_dec j k) as [->|Hne]; [right; now left|].
           left. apply Hsam; [lia|exact Hsj].
      * intros j Hj. destruct (Z.eq_dec j k) as [->|Hne].
        -- split; [unfold read_stops; now rewrite Es, Est|].
           intros b' Hb'. rewrite Hb in Hb'. injection Hb' as <-.
           rewrite <- Hlen. apply pm_read_pm_write_same.
        -- destruct (Hdone j ltac:(lia)) as [Hgood Hbytes]. split; [exact Hgood|].
           intros b' Hb'. rewrite Hpm by lia. exact (Hbytes b' Hb').
      * intros x Hx. rewrite pm_write_outside by nia. apply Hout. nia.
Qed.

(** [tm_read] returns: [true] after the iteration on every word, [false]
    from the iteration on the first word at which it stops. *)
Lemma tm_read_run (fuel : nat) (source size target : Z) (s : State) (t : Transaction) :
  txn s = Some t ->
  0 < align (reg s) -> 0 <= size -> size + align (reg s) <= 2 ^ 64 ->
  size + align (reg s) <= Z.of_nat fuel * align (reg s) ->
  0 <= target -> target + size <= 2 ^ 64 ->
  (forall k, 0 <= k -> k * align (reg s) < size ->
     is_Some (word (reg s) (word_addr source (align (reg s)) k)) /\
     is_Some (read_source (reg s) t (word_addr source (align (reg s)) k))) ->
  exists b s',
    tm_read fuel source size target s = Ok b s' /\
    if b then
      exists k, 0 <= k /\ (forall j, 0 <= j -> j * align (reg s) < size -> j < k) /\
                (forall j, 0 <= j < k -> j * align (reg s) < size) /\
                read_inv source target s t k s'
    else read_aborted source size s t s'.
Proof.
  intros Ht Hal Hsz Hwrap Hfuel Ht0 Htw Hwords.
  set (al := align (reg s)) in *.
  pose (Q := fun (x : option bool) (s1 : State) =>
    match x with
    | Some v => v = false /\ read_aborted source size s t s1
    | None => exists k, 0 <= k /\ (forall j, 0 <= j -> j * al < size -> j < k) /\
                        (forall j, 0 <= j < k -> j * al < size) /\
                        read_inv source target s t k s1
    end).
  destruct (for_offsets_total al size
              (if ro t then tm_read_ro_body source target
               else tm_read_rw_body source target)
              (read_inv source target s t) Q Hal Hsz Hwrap)
    with (fuel := fuel) (k := 0) (s := s) as (x & s' & Hrun & HQ).
  - intros k s1 (Hreg & _). now rewrite Hreg.
  - intros k s1 Hk Hlt HI. destruct (Hwords k Hk Hlt) as [Hw Hsrc].
    destruct (read_step source size target s t k s1 Hal Ht0 Htw Hk Hlt Hw Hsrc HI)
      as (x & s2 & Hrun & Hpost).
    exists x, s2. split; [exact Hrun|]. destruct x; exact Hpost.
  - intros k s1 Hk Hge Hprev HI. exists k. split; [exact Hk|].
    split; [intros j Hj Hjlt; nia|]. split; [intros j Hj; nia|exact HI].
  - lia.
  - unfold read_inv. fold al. split; [reflexivity|]. split; [|split; [|split]].
    + exists t. split_all; auto. intros x. split; [now left|].
      intros [H|(_ & j & Hj & _)]; [exact H|lia].
    + exists []. rewrite app_nil_r. split; [reflexivity|].
      split; [intros a [[]|[]]|intros j Hj; lia].
    + intros j Hj. lia.
    + reflexivity.
  - right. reflexivity.
  - lia.
  - change (0 * al) with 0 in Hrun.
    unfold tm_read, bind, get_txn. rewrite Ht, Hrun.
    destruct x as [v|]; cbn [Q] in HQ.
    + destruct HQ as [-> Hab]. exists false, s'. split; [reflexivity|exact Hab].
    + exists true, s'. split; [reflexivity|exact HQ].
Qed.

Lemma read_stops_true (r : Region) (t : Transaction) (a : Z) :
  read_stops r t a = true <->
  served t a = false /\
  exists w, word r a = Some w /\
            (vl_locked (lock w) = true \/ rv t < vl_version (lock w)).
Proof.
  unfold read_stops, word_stale.
  rewrite andb_true_iff, negb_true_iff. split.
  - intros [Hs Hw]. split; [exact Hs|].
    destruct (word r a) as [w|]; [|discriminate]. exists w. split; [reflexivity|].
    apply orb_true_iff in Hw. destruct Hw as [Hw|Hw]; [now left|right].
    now apply Z.ltb_lt.
  - intros [Hs (w & -> & Hw)]. split; [exact Hs|].
    apply orb_true_iff. destruct Hw as [Hw|Hw]; [now left|right].
    now apply Z.ltb_lt.
Qed.

(** C5: [tm_read] returns [false] exactly when some word of the range is
    not served from the write set and has its lock held or a version above
    [rv]; the lock of that word was sampled and the transaction is deleted.
    Otherwise [tm_read] returns [true], and for every word not served from
    the write set the lock was sampled and the target holds the first
    [align] bytes of the payload. *)
Theorem tm_read_samples
    (fuel : nat) (source size target : Z) (s : State) (t : Transaction) :
  txn s = Some t ->
  0 < align (reg s) -> 0 <= size -> size + align (reg s) <= 2 ^ 64 ->
  size + align (reg s) <= Z.of_nat fuel * align (reg s) ->
  0 <= target -> target + size <= 2 ^ 64 ->
  (forall k, 0 <= k -> k * align (reg s) < size ->
     is_Some (word (reg s) (word_addr source (align (reg s)) k)) /\
     is_Some (read_source (reg s) t (word_addr source (align (reg s)) k))) ->
  exists b s',
    tm_read fuel source size target s = Ok b s' /\
    reg s' = reg s /\
    (b = false <->
     exists k w, 0 <= k /\ k * align (reg s) < size /\
       served t (word_addr source (align (reg s)) k) = false /\
       word (reg s) (word_addr source (align (reg s)) k) = Some w /\
       (vl_locked (lock w) = true \/ rv t < vl_version (lock w))) /\
    if b then
      forall k, 0 <= k -> k * align (reg s) < size ->
        served t (word_addr source (align (reg s)) k) = false ->
        exists w l,
          word (reg s) (word_addr source (align (reg s)) k) = Some w /\
          log s' = log s ++ l /\
          In (EvSample (word_addr source (align (reg s)) k)) l /\
          pm_read (pmem s') (target + k * align (reg s)) (align (reg s)) =
          take (Z.to_nat (align (reg s))) (data w)
    else
      txn s' = None /\
      exists k l, 0 <= k /\ k * align (reg s) < size /\
        served t (word_addr source (align (reg s)) k) = false /\
        log s' = log s ++ l /\
        In (EvSample (word_addr source (align (reg s)) k)) l.
Proof.
  intros Ht Hal Hsz Hwrap Hfuel Ht0 Htw Hwords.
  destruct (tm_read_run fuel source size target s t
              Ht Hal Hsz Hwrap Hfuel Ht0 Htw Hwords) as (b & s' & Hrun & Hpost).
  exists b, s'. split; [exact Hrun|]. destruct b.
  - destruct Hpost as (K & HK & Hall & _ & Hreg & _ & (l & Hl & _ & Hsam) & Hdone & _).
    split; [exact Hreg|]. split.
    + split; [discriminate|]. intros (k & w & Hk & Hlt & Hs & Hw & Hbad).
      destruct (Hdone k (conj Hk (Hall k Hk Hlt))) as [Hgood _].
      assert (Hstop : read_stops (reg s) t (word_addr source (align (reg s)) k) = true)
        by (apply read_stops_true; eauto).
      congruence.
    + intros k Hk Hlt Hs.
      destruct (Hwords k Hk Hlt) as [[w Hw] [b Hb]].
      exists w, l. split; [exact Hw|]. split; [exact Hl|].
      split; [apply Hsam; [split; [exact Hk|exact (Hall k Hk Hlt)]|exact Hs]|].
      destruct (Hdone k (conj Hk (Hall k Hk Hlt))) as [_ Hbytes].
      rewrite (Hbytes b Hb). unfold read_source in Hb. rewrite Hs, Hw in Hb.
      apply load_Some in Hb. tauto.
  - destruct Hpost as (Hreg & Htx & k & l & Hk & Hlt & Hstop & Hl & _ & Hin).
    apply read_stops_true in Hstop. destruct Hstop as (Hs & w & Hw & Hbad).
    split; [exact Hreg|]. split.
    + split; [|reflexivity]. intros _. exists k, w. auto 10.
    + split; [exact Htx|]. exists k, l. auto 10.
Qed.

Lemma tm_read_samples_witness :
  exists s',
    tm_read 3 (A 0) 16 2000 ex_state_3 = Ok false s' /\ txn s' = None.
Proof.
  destruct (tm_read_samples 3 (A 0) 16 2000 ex_state_3 ex_txn_3)
    as (b & s' & Hrun & _ & Hiff & Hpost).
  - reflexivity.
  - vm_compute. reflexivity.
  - lia.
  - vm_compute. discriminate.
  - vm_compute. discriminate.
  - lia.
  - vm_compute. discriminate.
  - change (align (reg ex_state_3)) with 8. intros k Hk Hlt.
    assert (Hcases : k = 0 \/ k = 1) by lia.
    destruct Hcases as [-> | ->]; split; apply is_Some_check; vm_compute; exact I.
  - assert (Hb : b = false).
    { apply Hiff. exists 1, (committed_Word 4).
      change (align (reg ex_state_3)) with 8.
      split; [lia|]. split; [lia|]. split; [vm_compute; reflexivity|].
      split; [vm_compute; reflexivity|]. right. cbn. lia. }
    subst b. exists s'. split; [exact Hrun|]. exact (proj1 Hpost).
Defined.

(** C4 (as amended): in a read of a transaction that is not read-only, the
    words whose address is in the write set are copied from the staged
    buffer, and no lock is sampled nor payload loaded at such an address;
    when the read returns [true] the read set holds, besides what it held,
    the address of every word read, found in the write set or not. *)
Theorem tm_read_rw_serves_from_write_set
    (fuel : nat) (source size target : Z) (s : State) (t : Transaction) :
  txn s = Some t -> ro t = false ->
  0 < align (reg s) -> 0 <= size -> size + align (reg s) <= 2 ^ 64 ->
  size + align (reg s) <= Z.of_nat fuel * align (reg s) ->
  0 <= target -> target + size <= 2 ^ 64 ->
  (forall k, 0 <= k -> k * align (reg s) < size ->
     is_Some (word (reg s) (word_addr source (align (reg s)) k)) /\
     is_Some (read_source (reg s) t (word_addr source (align (reg s)) k))) ->
  exists b s' l,
    tm_read fuel source size target s = Ok b s' /\
    log s' = log s ++ l /\
    (forall a buf, ws_find a (write_set t) = Some buf ->
       ~ In (EvSample a) l /\ ~ In (EvLoad a) l) /\
    (b = true ->
     exists t',
       txn s' = Some t' /\ write_set t' = write_set t /\
       (forall x, x ∈ read_set t' <->
          x ∈ read_set t \/
          exists k, 0 <= k /\ k * align (reg s) < size /\
                    x = word_addr source (align (reg s)) k) /\
       (forall k buf, 0 <= k -> k * align (reg s) < size ->
          ws_find (word_addr source (align (reg s)) k) (write_set t) = Some buf ->
          pm_read (pmem s') (target + k * align (reg s)) (align (reg s)) =
          take (Z.to_nat (align (reg s))) buf)).
Proof.
  intros Ht Hro Hal Hsz Hwrap Hfuel Ht0 Htw Hwords.
  destruct (tm_read_run fuel source size target s t
              Ht Hal Hsz Hwrap Hfuel Ht0 Htw Hwords) as (b & s' & Hrun & Hpost).
  assert (Hserved : forall a buf, ws_find a (write_set t) = Some buf -> served t a = true)
    by (intros a buf Ha; apply served_true; eauto).
  destruct b.
  - destruct Hpost as (K & HK & Hall & Hrange & _ &
                       (t' & Ht' & _ & _ & _ & Hws & Hrs) & (l & Hl & Hev & _) & Hdone & _).
    exists true, s', l. split; [exact Hrun|]. split; [exact Hl|]. split.
    + intros a buf Ha. pose proof (Hserved a buf Ha) as Hs.
      split; intros Hin; [specialize (Hev a (or_introl Hin))
                         |specialize (Hev a (or_intror Hin))]; congruence.
    + intros _. exists t'. split; [exact Ht'|]. split; [exact Hws|]. split.
      * intros x. rewrite Hrs. split.
        -- intros [H|(_ & j & Hj & ->)]; [now left|right].
           exists j. split; [lia|]. split; [apply Hrange, Hj|reflexivity].
        -- intros [H|(k & Hk & Hlt & ->)]; [now left|right].
           split; [exact Hro|]. exists k. split; [|reflexivity].
           split; [exact Hk|exact (Hall k Hk Hlt)].
      * intros k buf Hk Hlt Hbuf.
        destruct (Hwords k Hk Hlt) as [_ [b Hb]].
        destruct (Hdone k (conj Hk (Hall k Hk Hlt))) as [_ Hbytes].
        rewrite (Hbytes b Hb). unfold read_source in Hb.
        rewrite (Hserved _ _ Hbuf), Hbuf in Hb. apply load_Some in Hb. tauto.
  - destruct Hpost as (_ & _ & k & l & _ & _ & _ & Hl & Hev & _).
    exists false, s', l. split; [exact Hrun|]. split; [exact Hl|]. split.
    + intros a buf Ha. pose proof (Hserved a buf Ha) as Hs.
      split; intros Hin; [specialize (Hev a (or_introl Hin))
                         |specialize (Hev a (or_intror Hin))]; congruence.
    + discriminate.
Qed.

Lemma tm_read_rw_serves_from_write_set_witness :
  let s := state_after [CBegin false; CWrite 3 1000 8 (A 0)] ex_init in
  exists b s' l, tm_read 3 (A 0) 16 2000 s = Ok b s' /\ log s' = log s ++ l.
Proof.
  intros s.
  destruct (tm_read_rw_serves_from_write_set 3 (A 0) 16 2000 s
              {| ro := false; rv := 0; wv := 0; read_set := ∅;
                 write_set := [(A 0, pm_read ex_pm 1000 8)] |})
    as (b & s' & l & Hrun & Hl & _).
  - vm_compute. reflexivity.
  - reflexivity.
  - vm_compute. reflexivity.
  - lia.
  - vm_compute. discriminate.
  - vm_compute. discriminate.
  - lia.
  - vm_compute. discriminate.
  - change (align (reg s)) with 8. intros k Hk Hlt.
    assert (Hcases : k = 0 \/ k = 1) by lia.
    destruct Hcases as [-> | ->]; split; apply is_Some_check; vm_compute; exact I.
  - exists b, s', l. split; [exact Hrun|exact Hl].
Defined.

(** C4 (as stated) fails: the read of an address that the transaction wrote
    before puts that address into the read set, which was empty. *)
Lemma read_of_written_address_enters_read_set :
  let s := state_after [CBegin false; CWrite 3 1000 8 (A 0)] ex_init in
  let s' := final_state (tm_read 3 (A 0) 8 2000 s) s in
  value_of (tm_read 3 (A 0) 8 2000 s) = Some true /\
  (exists t, txn s = Some t /\ read_set t = ∅ /\
             ws_find (A 0) (write_set t) = Some (pm_read ex_pm 1000 8)) /\
  (exists t', txn s' = Some t' /\ A 0 ∈ read_set t' /\
              ws_find (A 0) (write_set t') = Some (pm_read ex_pm 1000 8)).
Proof.
  intros s s'. split; [vm_compute; reflexivity|]. split.
  - exists {| ro := false; rv := 0; wv := 0; read_set := ∅;
              write_set := [(A 0, pm_read ex_pm 1000 8)] |}.
    split; [vm_compute; reflexivity|]. split; vm_compute; reflexivity.
  - assert (H : match txn s' with
                | Some t' => bool_decide (A 0 ∈ read_set t')
                | None => false
                end = true) by (vm_compute; reflexivity).
    assert (Hw : (write_set <$> txn s') = Some [(A 0, pm_read ex_pm 1000 8)])
      by (vm_compute; reflexivity).
    destruct (txn s') as [t'|]; [|discriminate].
    exists t'. split; [reflexivity|]. split.
    + now apply bool_decide_eq_true in H.
    + injection Hw as ->. vm_compute. reflexivity.
Qed.

(** ** Read-your-writes *)

(** C7: in a transaction that is not read-only, [tm_write] of [n] bytes from
    [src] to the shared address [a] followed by [tm_read] of [n] bytes from
    [a] into [dst] returns [true] twice and leaves in [dst] the [n] bytes
    that [src] held when they were written ([n] need not be a multiple of
    the alignment for this to hold). *)
Theorem read_your_writes
    (fuel1 fuel2 : nat) (src n a dst : Z) (s : State) (t : Transaction) :
  txn s = Some t -> ro t = false ->
  0 < align (reg s) -> 0 <= n -> n + align (reg s) <= 2 ^ 64 ->
  n + align (reg s) <= Z.of_nat fuel1 * align (reg s) ->
  n + align (reg s) <= Z.of_nat fuel2 * align (reg s) ->
  0 <= src -> src + n <= 2 ^ 64 ->
  0 <= dst -> dst + n <= 2 ^ 64 ->
  (forall k, 0 <= k -> k * align (reg s) < n ->
     is_Some (word (reg s) (word_addr a (align (reg s)) k))) ->
  exists s1 s2,
    tm_write fuel1 src n a s = Ok true s1 /\
    tm_read fuel2 a n dst s1 = Ok true s2 /\
    pm_read (pmem s2) dst n = pm_read (pmem s) src n.
Proof.
  intros Ht Hro Hal Hn Hwrap Hf1 Hf2 Hs0 Hsw Hd0 Hdw Hin.
  destruct (tm_write_stages fuel1 src n a s t Ht Hal Hn Hwrap Hf1)
    as (t' & Hrun1 & Hro' & _ & _ & _ & Hfind & _).
  set (al := align (reg s)) in *.
  set (s1 := set_txn s (Some t')) in *.
  assert (Hsrc : forall k, 0 <= k -> k * al < n ->
            served t' (word_addr a al k) = true /\
            read_source (reg s1) t' (word_addr a al k) =
            Some (pm_read (pmem s) (src + k * al) al)).
  { intros k Hk Hlt. pose proof (Hfind k Hk Hlt) as Hf.
    rewrite (wrap64_small (src + k * al)) in Hf by nia.
    assert (Hsv : served t' (word_addr a al k) = true).
    { apply served_true. split; [congruence|]. eexists. exact Hf. }
    split; [exact Hsv|]. unfold read_source. rewrite Hsv.
    unfold word_addr. rewrite Hf. change (align (reg s1)) with al.
    rewrite load_is_Some by (rewrite pm_read_length; lia).
    rewrite take_ge by (rewrite pm_read_length; lia). reflexivity. }
  destruct (tm_read_run fuel2 a n dst s1 t' eq_refl Hal Hn Hwrap Hf2 Hd0 Hdw)
    as (b & s2 & Hrun2 & Hpost).
  { intros k Hk Hlt. split; [exact (Hin k Hk Hlt)|].
    change (align (reg s1)) with al. change (reg s1) with (reg s).
    pose proof (proj2 (Hsrc k Hk Hlt)) as E. change (reg s1) with (reg s) in E.
    rewrite E. eauto. }
  exists s1, s2. split; [exact Hrun1|]. destruct b.
  - split; [exact Hrun2|].
    destruct Hpost as (K & HK & Hall & _ & _ & _ & _ & Hdone & _).
    apply pm_read_ext. intros i Hi.
    pose proof (Z.div_mod i al ltac:(lia)) as Hdm.
    pose proof (Z.mod_pos_bound i al Hal) as Hr.
    assert (Hj0 : 0 <= i / al) by (apply Z.div_pos; lia).
    assert (Hjlt : i / al * al < n) by nia.
    destruct (Hdone (i / al) (conj Hj0 (Hall _ Hj0 Hjlt))) as [_ Hbytes].
    change (align (reg s1)) with al in Hbytes.
    specialize (Hbytes _ (proj2 (Hsrc _ Hj0 Hjlt))).
    assert (Hnth : nth (Z.to_nat (i mod al)) (pm_read (pmem s2) (dst + i / al * al) al) Byte.x00 =
                   nth (Z.to_nat (i mod al)) (pm_read (pmem s) (src + i / al * al) al) Byte.x00)
      by now rewrite Hbytes.
    rewrite !pm_read_nth in Hnth by lia.
    replace (dst + i) with (dst + i / al * al + Z.of_nat (Z.to_nat (i mod al))) by lia.
    replace (src + i) with (src + i / al * al + Z.of_nat (Z.to_nat (i mod al))) by lia.
    exact Hnth.
  - exfalso. destruct Hpost as (_ & _ & k & l & Hk & Hlt & Hstop & _).
    apply read_stops_true in Hstop. destruct Hstop as [Hsv _].
    change (align (reg s1)) with al in Hsv.
    rewrite (proj1 (Hsrc k Hk Hlt)) in Hsv. discriminate.
Qed.

Lemma read_your_writes_witness :
  let s := state_after [CBegin false] ex_init in
  exists s1 s2,
    tm_write 3 1000 16 (A 3) s = Ok true s1 /\
    tm_read 3 (A 3) 16 2000 s1 = Ok true s2 /\
    pm_read (pmem s2) 2000 16 = pm_read (pmem s) 1000 16.
Proof.
  intros s.
  apply (read_your_writes 3 3 1000 16 (A 3) 2000 s
           {| ro := false; rv := 0; wv := 0; read_set := ∅; write_set := [] |}).
  - reflexivity.
  - reflexivity.
  - vm_compute. reflexivity.
  - lia.
  - vm_compute. discriminate.
  - vm_compute. discriminate.
  - vm_compute. discriminate.
  - lia.
  - vm_compute. discriminate.
  - lia.
  - vm_compute. discriminate.
  - change (align (reg s)) with 8. intros k Hk Hlt.
    assert (Hcases : k = 0 \/ k = 1) by lia.
    destruct Hcases as [-> | ->]; apply is_Some_check; vm_compute; exact I.
Defined.

(** ** The shape of the region *)

Lemma tm_end_Ok (s : State) (b : bool) (s' : State) :
  tm_end s = Ok b s' ->
  align (reg s') = align (reg s) /\
  (region_shape (reg s) -> region_shape (reg s')) /\
  txn s' = None.
Proof.
  intros H. destruct (txn s) as [t|] eqn:Ht;
    [|unfold tm_end, bind, get_txn in H; rewrite Ht in H; discriminate].
  destruct (ro t) eqn:Hro.
  - unfold tm_end, bind, get_txn in H. rewrite Ht, Hro in H.
    destruct (delete_txn s) as [u s1| |] eqn:Hd; try discriminate.
    apply delete_txn_Ok in Hd. destruct Hd as (Hr & Hn & _).
    inv_ok H. rewrite Hr. auto.
  - destruct (LockWriteSet s) as [ok s1| |] eqn:Hlock;
      try (unfold tm_end, bind, get_txn in H; rewrite Ht, Hro, Hlock in H; discriminate).
    assert (Hs1 : exists l, s1 = add_log s l).
    { unfold LockWriteSet in Hlock. inv_bind Hlock. inv_step Hstep.
      apply LockWriteSet_loop_Ok in Hlock. destruct Hlock as (l & -> & _). eauto. }
    destruct Hs1 as [l0 ->]. destruct ok.
    + rewrite (tm_end_locked s _ t Ht Hro Hlock) in H.
      assert (Hafa : txn (after_fetch_add (add_log s l0) t)
                     = Some (with_wv t (wrap32 (gvc (reg s) + 1)))) by reflexivity.
      destruct (wrap32 (rv t + 1) =? wrap32 (gvc (reg s) + 1)).
      * apply (commit_path_Ok _ _ _ _ Hafa) in H.
        destruct H as (_ & Hn & _ & _ & (Hal & _ & _ & Hsh & _) & _).
        split; [exact Hal|]. split; [|exact Hn]. intros Hshape. apply Hsh. exact Hshape.
      * inv_bind H. destruct (ValidateReadSet_Ok _ _ _ _ Hafa Hstep) as (l & -> & _).
        assert (Hafa' : txn (add_log (after_fetch_add (add_log s l0) t) l)
                        = Some (with_wv t (wrap32 (gvc (reg s) + 1)))) by reflexivity.
        destruct x; cbn [negb] in H.
        -- apply (commit_path_Ok _ _ _ _ Hafa') in H.
           destruct H as (_ & Hn & _ & _ & (Hal & _ & _ & Hsh & _) & _).
           split; [exact Hal|]. split; [|exact Hn]. intros Hshape. apply Hsh. exact Hshape.
        -- apply (abort_path_Ok _ _ _ _ Hafa') in H.
           destruct H as (_ & Hn & _ & _ & (Hal & _ & _ & Hsh & _) & _).
           split; [exact Hal|]. split; [|exact Hn]. intros Hshape. apply Hsh. exact Hshape.
    + unfold tm_end, bind, get_txn in H. rewrite Ht, Hro, Hlock in H. cbn [negb] in H.
      unfold delete_txn in H. cbn [add_log txn] in H. rewrite Ht in H. inv_ok H.
      auto.
Qed.

Lemma exec_shape (c : Call) (s : State) (u : unit) (s' : State) :
  exec c s = Ok u s' ->
  align (reg s') = align (reg s) /\ (region_shape (reg s) -> region_shape (reg s')).
Proof.
  intros H. destruct c; cbn [exec] in H.
  - unfold tm_begin in H. inv_ok H. auto.
  - inv_bind H. inv_step H. apply tm_read_Ok in Hstep. destruct Hstep as [-> _]. auto.
  - inv_bind H. inv_step H. apply tm_write_Ok in Hstep.
    destruct Hstep as (_ & -> & _). auto.
  - inv_bind H. inv_step H. apply tm_end_Ok in Hstep. tauto.
  - inv_bind H. inv_step H. unfold tm_alloc, Alloc in Hstep.
    inv_bind Hstep. inv_step Hstep0. inv_bind Hstep. unfold put_region in Hstep0.
    inv_ok Hstep0. inv_step Hstep. auto.
  - inv_bind H. inv_step H. unfold tm_free in Hstep. inv_step Hstep. auto.
Qed.

Lemma exec_all_shape (calls : list Call) :
  forall (s : State) (u : unit) (s' : State),
    exec_all calls s = Ok u s' ->
    align (reg s') = align (reg s) /\ (region_shape (reg s) -> region_shape (reg s')).
Proof.
  induction calls as [|c cs IH]; intros s u s' H.
  - cbn in H. inv_step H. auto.
  - cbn [exec_all] in H. inv_bind H. apply exec_shape in Hstep. apply IH in H.
    destruct Hstep as [Ha Hs], H as [Ha' Hs']. split; [congruence|auto].
Qed.

Lemma tm_read_out_of_range (fuel : nat) (source size target : Z) (s : State) (t : Transaction) :
  txn s = Some t -> 0 < size -> word (reg s) (wrap64 source) = None ->
  tm_read (S fuel) source size target s = Fault.
Proof.
  intros Ht Hsz Hw. unfold tm_read. unfold bind at 1. unfold get_txn. rewrite Ht.
  unfold bind at 1. cbn [for_offsets].
  destruct (Z.ltb_spec 0 size); [|lia].
  assert (Hbody : (if ro t then tm_read_ro_body source target
                   else tm_read_rw_body source target) 0 s = Fault).
  { destruct (ro t).
    - unfold tm_read_ro_body, bind. rewrite Z.add_0_r.
      now rewrite (word_ref_Fault _ s Hw).
    - unfold tm_read_rw_body. unfold bind at 1. cbn [get_region].
      unfold bind at 1. unfold get_txn. rewrite Ht.
      unfold bind at 1. unfold put_txn. rewrite Ht.
      unfold bind at 1. rewrite Z.add_0_r.
      now rewrite word_ref_Fault by exact Hw. }
  unfold bind at 1. now rewrite Hbody.
Qed.

Lemma LockWriteSet_loop_out_of_range (rv : Z) (pre : WriteSet) :
  forall (locked : list (Z * Word)) (s : State) (a : Z) (b : list byte) (post : WriteSet),
    Forall (fun e => word_free (reg s) (fst e) = true) pre ->
    word (reg s) a = None ->
    LockWriteSet_loop rv (pre ++ (a, b) :: post) locked s = Fault.
Proof.
  induction pre as [|e es IH]; intros locked s a b post Hfree Hw.
  - cbn [app LockWriteSet_loop fst]. unfold bind.
    now rewrite (word_ref_Fault _ s Hw).
  - apply Forall_cons in Hfree. destruct Hfree as [He Hes].
    unfold word_free in He. destruct (word (reg s) (fst e)) as [w|] eqn:Ew;
      [|discriminate].
    apply negb_true_iff in He.
    cbn [app LockWriteSet_loop]. unfold bind at 1. rewrite (word_ref_eq _ s w Ew).
    unfold TryLock. rewrite He. cbn [fst snd negb].
    unfold bind at 1. rewrite emit_add_log. apply IH; assumption.
Qed.

(** C10: whatever size and alignment the region was created with and
    whatever calls were made since (allocations among them), the region
    holds 512 segments of 1024 words; the lookup of an address is within
    both vectors exactly when [addr >> 32 < 512] and
    [(addr & kADDR_MASK) / align < 1024]; a read whose first word is outside
    indexes out of range, and so does [tm_end] on reaching a written
    address that is outside. *)
Theorem region_is_512_by_1024
    (size al : Z) (calls : list Call) (s0 s : State) :
  reg s0 = tm_create size al ->
  exec_all calls s0 = Ok tt s ->
  0 < al ->
  region_shape (reg s) /\
  (forall addr, 0 <= addr ->
     is_Some (word (reg s) addr) <->
     Z.shiftr addr 32 < 512 /\ Z.land addr kADDR_MASK / al < 1024) /\
  (forall fuel source n target t,
     txn s = Some t -> 0 < n -> word (reg s) (wrap64 source) = None ->
     tm_read (S fuel) source n target s = Fault) /\
  (forall t pre a b post,
     txn s = Some t -> ro t = false ->
     write_set t = pre ++ (a, b) :: post ->
     Forall (fun e => word_free (reg s) (fst e) = true) pre ->
     word (reg s) a = None ->
     tm_end s = Fault).
Proof.
  intros Hreg Hrun Hal.
  destruct (exec_all_shape calls s0 tt s Hrun) as [Halign Hshape].
  assert (Hsh : region_shape (reg s)).
  { apply Hshape. rewrite Hreg. apply new_Region_shape. }
  assert (Ha : align (reg s) = al) by (rewrite Halign, Hreg; reflexivity).
  split; [exact Hsh|]. split; [|split].
  - intros addr Haddr. rewrite <- Ha. apply word_in_bounds; [exact Hsh|lia|exact Haddr].
  - intros fuel source n target t Ht Hn Hw. exact (tm_read_out_of_range _ _ _ _ _ _ Ht Hn Hw).
  - intros t pre a b post Ht Hro Hws Hfree Hw.
    unfold tm_end. unfold bind at 1. unfold get_txn. rewrite Ht, Hro.
    unfold bind at 1. unfold LockWriteSet. unfold bind at 1. unfold get_txn.
    rewrite Ht, Hws. now rewrite LockWriteSet_loop_out_of_range.
Qed.

Lemma region_is_512_by_1024_witness :
  let calls := [CBegin false; CAlloc 4096; CWrite 3 1000 8 (A 0); CEnd; CBegin true] in
  let s := state_after calls ex_init in
  region_shape (reg s) /\
  tm_read 1 (A 1024) 8 2000 s = Fault.
Proof.
  intros calls s.
  destruct (region_is_512_by_1024 64 8 calls ex_init s) as (Hsh & _ & Hread & _).
  - reflexivity.
  - unfold s, state_after. apply Ok_final_state. vm_compute. reflexivity.
  - lia.
  - split; [exact Hsh|].
    apply (Hread 0%nat (A 1024) 8 2000
             {| ro := true; rv := 1; wv := 0; read_set := ∅; write_set := [] |}).
    + vm_compute. reflexivity.
    + lia.
    + vm_compute. reflexivity.
Defined.

(** * Further properties *)

(** ** Every call changes the region by stores to existing words *)

Lemma region_step_set_word (r : Region) (a : Z) (w w0 : Word) :
  word r a = Some w0 -> length (data w) = length (data w0) ->
  region_step r (set_word r a w).
Proof. intros Hw Hl. left. exists a, w, w0. auto. Qed.

Lemma memcpy_length (dst src : list byte) (n : Z) (d : list byte) :
  memcpy dst src n = Some d -> length d = length dst.
Proof.
  unfold memcpy. destruct (load src n) as [b|] eqn:Hb; [|discriminate].
  apply load_Some in Hb. destruct Hb as (Hn & -> & Hlen).
  destruct (Z.leb_spec n (Z.of_nat (length dst))); [|discriminate].
  intros [= <-]. rewrite length_app, length_take, length_drop. lia.
Qed.

Lemma UnlockWriteSet_loop_steps (entries : WriteSet) :
  forall (s s' : State),
    UnlockWriteSet_loop entries s = Ok tt s' ->
    rtc region_step (reg s) (reg s').
Proof.
  induction entries as [|e es IH]; intros s s' H.
  - cbn in H. inv_step H. apply rtc_refl.
  - cbn [UnlockWriteSet_loop] in H. inv_bind H. inv_step Hstep.
    inv_bind H. inv_step Hstep0. inv_bind H. inv_step Hstep0.
    apply IH in H. cbn [with_region add_log reg] in H.
    eapply rtc_l; [|exact H]. now apply (region_step_set_word _ _ _ x).
Qed.

Lemma Commit_loop_steps (wv : Z) (entries : WriteSet) :
  forall (s s' : State),
    Commit_loop wv entries s = Ok tt s' ->
    rtc region_step (reg s) (reg s').
Proof.
  induction entries as [|e es IH]; intros s s' H.
  - cbn in H. inv_step H. apply rtc_refl.
  - cbn [Commit_loop] in H. inv_bind H. inv_step Hstep.
    inv_bind H. inv_step Hstep0. inv_bind H. inv_step Hstep0.
    inv_bind H. inv_step Hstep1. inv_bind H. inv_step Hstep1.
    inv_bind H. inv_step Hstep1. inv_bind H. inv_step Hstep1.
    apply IH in H. cbn [with_region add_log reg] in H.
    rewrite (set_word_set_word _ _ _ _ x Hstep) in H.
    eapply rtc_l; [|exact H].
    apply (region_step_set_word _ _ _ x Hstep). cbn [data].
    exact (memcpy_length _ _ _ _ Hstep0).
Qed.

Lemma delete_txn_eq (s : State) (t : Transaction) :
  txn s = Some t -> delete_txn s = Ok tt (set_txn s None).
Proof. intros Ht. unfold delete_txn. now rewrite Ht. Qed.

Lemma commit_path_inv (s : State) (t : Transaction) (b : bool) (s' : State) :
  txn s = Some t ->
  (let* _ := Commit in let* _ := delete_txn in ret true) s = Ok b s' ->
  b = true /\ exists sc, Commit_loop (wv t) (write_set t) s = Ok tt sc /\
                         s' = set_txn sc None.
Proof.
  intros Ht H. inv_bind H. unfold Commit in Hstep. inv_bind Hstep.
  inv_step Hstep0. rewrite Ht in Hstep0. injection Hstep0 as <-.
  destruct x. pose proof (Commit_loop_Ok _ _ _ _ Hstep) as (Ht1 & _).
  inv_bind H. rewrite (delete_txn_eq s0 t) in Hstep0 by congruence.
  inv_ok Hstep0. inv_step H. split; [reflexivity|]. eauto.
Qed.

Lemma abort_path_inv (s : State) (t : Transaction) (b : bool) (s' : State) :
  txn s = Some t ->
  (let* _ := UnlockWriteSet in let* _ := delete_txn in ret false) s = Ok b s' ->
  b = false /\ exists su, UnlockWriteSet_loop (write_set t) s = Ok tt su /\
                          s' = set_txn su None.
Proof.
  intros Ht H. inv_bind H. unfold UnlockWriteSet in Hstep. inv_bind Hstep.
  inv_step Hstep0. rewrite Ht in Hstep0. injection Hstep0 as <-.
  destruct x. pose proof (UnlockWriteSet_loop_Ok _ _ _ Hstep) as (Ht1 & _).
  inv_bind H. rewrite (delete_txn_eq s0 t) in Hstep0 by congruence.
  inv_ok Hstep0. inv_step H. split; [reflexivity|]. eauto.
Qed.

(** The paths of [tm_end]. *)
Lemma tm_end_cases (s : State) (t : Transaction) (b : bool) (s' : State) :
  txn s = Some t -> tm_end s = Ok b s' ->
  (ro t = true /\ b = true /\ s' = set_txn s None) \/
  (ro t = false /\ exists l0,
     LockWriteSet s = Ok false (add_log s l0) /\ b = false /\
     s' = set_txn (add_log s l0) None) \/
  (ro t = false /\ exists l0 l,
     LockWriteSet s = Ok true (add_log s l0) /\
     let sv := add_log (after_fetch_add (add_log s l0) t) l in
     (b = true /\
      ((l = [] /\ wrap32 (rv t + 1) = wrap32 (gvc (reg s) + 1)) \/
       (wrap32 (rv t + 1) <> wrap32 (gvc (reg s) + 1) /\
        ValidateReadSet (after_fetch_add (add_log s l0) t) = Ok true sv)) /\
      exists sc, Commit_loop (wrap32 (gvc (reg s) + 1)) (write_set t) sv = Ok tt sc /\
                 s' = set_txn sc None) \/
     (b = false /\
      wrap32 (rv t + 1) <> wrap32 (gvc (reg s) + 1) /\
      ValidateReadSet (after_fetch_add (add_log s l0) t) = Ok false sv /\
      exists su, UnlockWriteSet_loop (write_set t) sv = Ok tt su /\
                 s' = set_txn su None)).
Proof.
  intros Ht H. destruct (ro t) eqn:Hro.
  - left. unfold tm_end, bind, get_txn in H. rewrite Ht, Hro in H.
    rewrite (delete_txn_eq s t Ht) in H. inv_ok H. auto.
  - right.
    destruct (LockWriteSet s) as [ok s1| |] eqn:Hlock;
      try (unfold tm_end, bind, get_txn in H; rewrite Ht, Hro, Hlock in H; discriminate).
    assert (Hs1 : exists l, s1 = add_log s l).
    { unfold LockWriteSet in Hlock. inv_bind Hlock. inv_step Hstep.
      apply LockWriteSet_loop_Ok in Hlock. destruct Hlock as (l & -> & _). eauto. }
    destruct Hs1 as [l0 ->]. destruct ok.
    + right. split; [reflexivity|].
      rewrite (tm_end_locked s _ t Ht Hro Hlock) in H.
      assert (Hafa : txn (after_fetch_add (add_log s l0) t)
                     = Some (with_wv t (wrap32 (gvc (reg s) + 1)))) by reflexivity.
      destruct (Z.eqb_spec (wrap32 (rv t + 1)) (wrap32 (gvc (reg s) + 1))) as [Heq|Hne].
      * exists l0, []. split; [reflexivity|]. cbv zeta. rewrite add_log_nil. left.
        apply (commit_path_inv _ _ _ _ Hafa) in H. destruct H as [-> Hc].
        split; [reflexivity|]. split; [left; auto|exact Hc].
      * inv_bind H. destruct (ValidateReadSet_Ok _ _ _ _ Hafa Hstep) as (l & -> & _).
        exists l0, l. split; [reflexivity|]. cbv zeta.
        assert (Hafa' : txn (add_log (after_fetch_add (add_log s l0) t) l)
                        = Some (with_wv t (wrap32 (gvc (reg s) + 1)))) by reflexivity.
        destruct x; cbn [negb] in H.
        -- left. apply (commit_path_inv _ _ _ _ Hafa') in H. destruct H as [-> Hc].
           split; [reflexivity|]. split; [right; auto|exact Hc].
        -- right. apply (abort_path_inv _ _ _ _ Hafa') in H. destruct H as [-> Hu].
           split; [reflexivity|]. split; [exact Hne|]. split; [exact Hstep|exact Hu].
    + left. split; [reflexivity|]. exists l0. split; [reflexivity|].
      unfold tm_end, bind, get_txn in H. rewrite Ht, Hro, Hlock in H. cbn [negb] in H.
      rewrite (delete_txn_eq (add_log s l0) t Ht) in H. inv_ok H. auto.
Qed.

Lemma tm_end_steps (s : State) (b : bool) (s' : State) :
  tm_end s = Ok b s' -> rtc region_step (reg s) (reg s').
Proof.
  intros H. destruct (txn s) as [t|] eqn:Ht;
    [|unfold tm_end, bind, get_txn in H; rewrite Ht in H; discriminate].
  destruct (tm_end_cases s t b s' Ht H)
    as [(_ & _ & ->)|[(_ & l0 & _ & _ & ->)|(_ & l0 & l & _ & Hcase)]].
  - apply rtc_refl.
  - apply rtc_refl.
  - cbv zeta in Hcase.
    destruct Hcase as [(_ & _ & sc & Hc & ->)|(_ & _ & _ & su & Hu & ->)].
    + apply Commit_loop_steps in Hc. cbn [add_log after_fetch_add reg set_txn] in *.
      eapply rtc_l; [|exact Hc]. right. split; reflexivity.
    + apply UnlockWriteSet_loop_steps in Hu.
      cbn [add_log after_fetch_add reg set_txn] in *.
      eapply rtc_l; [|exact Hu]. right. split; reflexivity.
Qed.

Lemma exec_steps (c : Call) (s : State) (u : unit) (s' : State) :
  exec c s = Ok u s' -> rtc region_step (reg s) (reg s').
Proof.
  intros H. destruct c; cbn [exec] in H.
  - unfold tm_begin in H. inv_ok H. apply rtc_refl.
  - inv_bind H. inv_step H. apply tm_read_Ok in Hstep. destruct Hstep as [-> _].
    apply rtc_refl.
  - inv_bind H. inv_step H. apply tm_write_Ok in Hstep.
    destruct Hstep as (_ & -> & _). apply rtc_refl.
  - inv_bind H. inv_step H. exact (tm_end_steps _ _ _ Hstep).
  - inv_bind H. inv_step H. unfold tm_alloc, Alloc in Hstep.
    inv_bind Hstep. inv_step Hstep0. inv_bind Hstep. unfold put_region in Hstep0.
    inv_ok Hstep0. inv_step Hstep. apply rtc_once. right. split; reflexivity.
  - inv_bind H. inv_step H. unfold tm_free in Hstep. inv_step Hstep. apply rtc_refl.
Qed.

Lemma exec_all_steps (calls : list Call) :
  forall (s : State) (u : unit) (s' : State),
    exec_all calls s = Ok u s' -> rtc region_step (reg s) (reg s').
Proof.
  induction calls as [|c cs IH]; intros s u s' H.
  - cbn in H. inv_step H. apply rtc_refl.
  - cbn [exec_all] in H. inv_bind H.
    eapply rtc_trans; [exact (exec_steps _ _ _ _ Hstep)|exact (IH _ _ _ H)].
Qed.

Lemma region_steps_invariant (P : Region -> Prop) (r r' : Region) :
  (forall r1 r2, region_step r1 r2 -> P r1 -> P r2) ->
  rtc region_step r r' -> P r -> P r'.
Proof.
  intros Hstep Hrtc. induction Hrtc as [|r1 r2 r3 H12 _ IH]; [auto|].
  intros HP. apply IH. exact (Hstep _ _ H12 HP).
Qed.

(** ** Size, alignment and payload width are fixed at creation *)

Lemma payload_ok_word (r : Region) (a : Z) (w : Word) :
  payload_ok r -> word r a = Some w -> length (data w) = 8%nat.
Proof.
  unfold payload_ok, word. intros Hok.
  destruct (align r =? 0); [discriminate|].
  destruct (mem r !! Z.to_nat (fst (word_path r a))) as [seg|] eqn:Eseg; [|discriminate].
  intros Hw. rewrite Forall_lookup in Hok. specialize (Hok _ _ Eseg).
  rewrite Forall_lookup in Hok. exact (Hok _ _ Hw).
Qed.

Lemma payload_ok_step (r r' : Region) :
  region_step r r' -> payload_ok r -> payload_ok r'.
Proof.
  intros [(a & w & w0 & Hw & Hlen & ->)|[_ Hmem]] Hok.
  - pose proof (payload_ok_word r a w0 Hok Hw) as H8.
    unfold payload_ok, set_word in *.
    destruct (mem r !! Z.to_nat (fst (word_path r a))) as [seg|] eqn:Eseg; [|exact Hok].
    cbn [mem]. apply Forall_insert; [exact Hok|]. cbn [words].
    apply Forall_insert; [|congruence].
    rewrite Forall_lookup in Hok. exact (Hok _ _ Eseg).
  - unfold payload_ok. now rewrite Hmem.
Qed.

Lemma sizes_are_step (size : Z) (r r' : Region) :
  region_step r r' -> sizes_are size r -> sizes_are size r'.
Proof.
  intros [(a & w & w0 & Hw & Hlen & ->)|[_ Hmem]] Hok.
  - unfold sizes_are, set_word in *.
    destruct (mem r !! Z.to_nat (fst (word_path r a))) as [seg|] eqn:Eseg; [|exact Hok].
    cbn [mem]. apply Forall_insert; [exact Hok|]. cbn [seg_size].
    rewrite Forall_lookup in Hok. exact (Hok _ _ Eseg).
  - unfold sizes_are. now rewrite Hmem.
Qed.

Lemma new_Region_payload_ok (size al : Z) : payload_ok (new_Region size al).
Proof.
  unfold payload_ok, new_Region. cbn [mem]. apply Forall_replicate.
  unfold new_Segment. cbn [words]. apply Forall_replicate.
  unfold new_Word. cbn [data]. apply length_replicate.
Qed.

Lemma new_Region_sizes (size al : Z) : sizes_are size (new_Region size al).
Proof.
  unfold sizes_are, new_Region. cbn [mem]. apply Forall_replicate. reflexivity.
Qed.

(** X1: [tm_size] and [tm_align] return the size and the alignment given
    to [tm_create], whatever calls were made on the region since. *)
Theorem tm_size_align_constant
    (size al : Z) (calls : list Call) (s0 s : State) :
  reg s0 = tm_create size al ->
  exec_all calls s0 = Ok tt s ->
  tm_size s = Ok size s /\ tm_align s = Ok al s.
Proof.
  intros Hreg Hrun.
  destruct (exec_all_shape calls s0 tt s Hrun) as [Halign Hshape].
  assert (Hsh : region_shape (reg s)) by (apply Hshape; rewrite Hreg; apply new_Region_shape).
  assert (Hsz : sizes_are size (reg s)).
  { apply (region_steps_invariant (sizes_are size) (reg s0));
      [apply sizes_are_step|exact (exec_all_steps _ _ _ _ Hrun)|].
    rewrite Hreg. apply new_Region_sizes. }
  split.
  - unfold tm_size, bind, get_region.
    destruct (mem (reg s) !! 0%nat) as [seg|] eqn:Eseg.
    + unfold sizes_are in Hsz. rewrite Forall_lookup in Hsz.
      cbn. now rewrite (Hsz _ _ Eseg).
    + apply lookup_ge_None in Eseg. destruct Hsh as [Hlen _]. lia.
  - unfold tm_align, bind, get_region, ret. rewrite Halign, Hreg. reflexivity.
Qed.

Lemma tm_size_align_constant_witness :
  let calls := [CBegin false; CWrite 3 1000 8 (A 0); CEnd; CAlloc 128] in
  let s := state_after calls ex_init in
  tm_size s = Ok 64 s /\ tm_align s = Ok 8 s.
Proof.
  intros calls s. apply (tm_size_align_constant 64 8 calls ex_init s).
  - reflexivity.
  - unfold s, state_after. apply Ok_final_state. vm_compute. reflexivity.
Defined.

Lemma read_shared_overrun (addr target_addr : Z) (w : Word) (s : State) (t : Transaction) :
  txn s = Some t ->
  vl_locked (lock w) || (rv t <? vl_version (lock w)) = false ->
  load (data w) (align (reg s)) = None ->
  read_shared addr target_addr w s = Fault.
Proof.
  intros Ht Hst Hload. unfold read_shared.
  unfold bind at 1. cbn [get_region]. unfold bind at 1. unfold get_txn. rewrite Ht.
  unfold bind at 1. rewrite emit_add_log. unfold Sample. cbn [locked version].
  rewrite Hst. unfold bind at 1. rewrite emit_add_log.
  unfold bind at 1. cbn [add_log reg]. now rewrite Hload.
Qed.

(** X2: every payload of the region keeps the 8 bytes of its
    [std::uint64_t], whatever calls are made; so with an alignment above 8 a
    read that reaches the payload of a word (not served from the write set,
    lock free, version not above [rv]) copies past the end of the word. *)
Theorem payload_is_8_bytes
    (size al : Z) (calls : list Call) (s0 s : State) :
  reg s0 = tm_create size al ->
  exec_all calls s0 = Ok tt s ->
  (forall a w, word (reg s) a = Some w -> length (data w) = 8%nat) /\
  (forall fuel source n target t w,
     8 < al -> txn s = Some t -> 0 < n ->
     word (reg s) (wrap64 source) = Some w ->
     served t (wrap64 source) = false ->
     word_stale (reg s) (rv t) (wrap64 source) = false ->
     tm_read (S fuel) source n target s = Fault).
Proof.
  intros Hreg Hrun.
  destruct (exec_all_shape calls s0 tt s Hrun) as [Halign _].
  assert (Hok : payload_ok (reg s)).
  { apply (region_steps_invariant payload_ok (reg s0));
      [apply payload_ok_step|exact (exec_all_steps _ _ _ _ Hrun)|].
    rewrite Hreg. apply new_Region_payload_ok. }
  split; [intros a w Hw; exact (payload_ok_word _ _ _ Hok Hw)|].
  intros fuel source n target t w Hal Ht Hn Hw Hsv Hst.
  assert (Ha : align (reg s) = al) by (rewrite Halign, Hreg; reflexivity).
  assert (Hload : load (data w) (align (reg s)) = None).
  { unfold load. rewrite (payload_ok_word _ _ _ Hok Hw), Ha.
    destruct (Z.leb_spec 0 al); [|lia].
    destruct (Z.leb_spec al (Z.of_nat 8)); [lia|reflexivity]. }
  unfold word_stale in Hst. rewrite Hw in Hst.
  unfold tm_read. unfold bind at 1. unfold get_txn. rewrite Ht.
  unfold bind at 1. cbn [for_offsets]. destruct (Z.ltb_spec 0 n); [|lia].
  assert (Hbody : (if ro t then tm_read_ro_body source target
                   else tm_read_rw_body source target) 0 s = Fault).
  { destruct (ro t) eqn:Hro.
    - unfold tm_read_ro_body, bind. rewrite Z.add_0_r.
      rewrite (word_ref_eq _ s w Hw).
      exact (read_shared_overrun _ _ w s t Ht Hst Hload).
    - apply served_false in Hsv. destruct Hsv as [Hsv|Hsv]; [congruence|].
      unfold tm_read_rw_body. unfold bind at 1. cbn [get_region].
      unfold bind at 1. unfold get_txn. rewrite Ht.
      unfold bind at 1. unfold put_txn. rewrite Ht.
      unfold bind at 1. rewrite Z.add_0_r.
      match goal with |- context [word_ref ?a ?st] =>
        rewrite (word_ref_eq a st w Hw) end.
      rewrite Hsv.
      apply (read_shared_overrun _ _ w _ (with_read_set t ({[wrap64 source]} ∪ read_set t)));
        [reflexivity|exact Hst|exact Hload]. }
  unfold bind at 1. now rewrite Hbody.
Qed.

Lemma payload_is_8_bytes_witness :
  let s0 := {| reg := tm_create 1024 16; txn := None; pmem := ex_pm; log := [] |} in
  let s := state_after [CBegin true] s0 in
  tm_read 2 (A 0) 16 2000 s = Fault.
Proof.
  intros s0 s.
  destruct (payload_is_8_bytes 1024 16 [CBegin true] s0 s) as [_ Hfault].
  - reflexivity.
  - unfold s, state_after. apply Ok_final_state. vm_compute. reflexivity.
  - apply (Hfault 1%nat (A 0) 16 2000
             {| ro := true; rv := 0; wv := 0; read_set := ∅; write_set := [] |} new_Word).
    + lia.
    + vm_compute. reflexivity.
    + lia.
    + vm_compute. reflexivity.
    + reflexivity.
    + vm_compute. reflexivity.
Defined.

(** ** What [Commit] publishes *)

Lemma same_word_sym (r : Region) (a b : Z) : same_word r a b -> same_word r b a.
Proof. intros [H1 H2]. split; congruence. Qed.

Lemma same_word_set_word (r : Region) (a : Z) (w : Word) (x y : Z) :
  same_word (set_word r a w) x y <-> same_word r x y.
Proof. unfold same_word. now rewrite !word_path_set_word. Qed.

Lemma word_set_word_other (r : Region) (a b : Z) (w w0 : Word) :
  word r a = Some w0 -> ~ same_word r a b -> word (set_word r a w) b = word r b.
Proof.
  intros Hw Hne. rewrite (word_set_word r a b w w0 Hw).
  destruct (decide (same_word r a b)); [contradiction|reflexivity].
Qed.

Lemma memcpy_Some (dst src : list byte) (n : Z) (d : list byte) :
  memcpy dst src n = Some d ->
  d = take (Z.to_nat n) src ++ drop (Z.to_nat n) dst.
Proof.
  unfold memcpy. destruct (load src n) as [b|] eqn:Hb; [|discriminate].
  apply load_Some in Hb. destruct Hb as (_ & -> & _).
  destruct (n <=? Z.of_nat (length dst)); [|discriminate]. now intros [= <-].
Qed.

Lemma distinct_words_set_word (r : Region) (a : Z) (w : Word) (ws : WriteSet) :
  distinct_words r ws -> distinct_words (set_word r a w) ws.
Proof.
  unfold distinct_words. induction 1 as [|e es Hall _ IH]; constructor.
  - eapply Forall_impl; [exact Hall|]. cbn beta. intros e' H.
    now rewrite same_word_set_word.
  - exact IH.
Qed.

Lemma Commit_loop_frame (wv : Z) (entries : WriteSet) :
  forall (s s' : State),
    Commit_loop wv entries s = Ok tt s' ->
    forall b, (forall e, In e entries -> ~ same_word (reg s) (fst e) b) ->
              word (reg s') b = word (reg s) b.
Proof.
  induction entries as [|e es IH]; intros s s' H b Hb.
  - cbn in H. inv_step H. reflexivity.
  - cbn [Commit_loop] in H. inv_bind H. inv_step Hstep.
    inv_bind H. inv_step Hstep0. inv_bind H. inv_step Hstep0.
    inv_bind H. inv_step Hstep1. inv_bind H. inv_step Hstep1.
    inv_bind H. inv_step Hstep1. inv_bind H. inv_step Hstep1.
    cbn [with_region add_log reg] in H.
    rewrite (set_word_set_word _ _ _ _ x Hstep) in H.
    rewrite (IH _ _ H b).
    + cbn [with_region reg]. apply (word_set_word_other _ _ _ _ x Hstep).
      apply Hb. now left.
    + intros e' He'. cbn [with_region reg]. rewrite same_word_set_word.
      apply Hb. now right.
Qed.

Lemma Commit_loop_publish (wv : Z) (entries : WriteSet) :
  forall (s s' : State),
    Commit_loop wv entries s = Ok tt s' ->
    distinct_words (reg s) entries ->
    forall e w0, In e entries -> word (reg s) (fst e) = Some w0 ->
      word (reg s') (fst e) =
      Some {| lock := {| vl_locked := false; vl_version := wv |};
              data := take (Z.to_nat (align (reg s))) (snd e) ++
                      drop (Z.to_nat (align (reg s))) (data w0) |}.
Proof.
  induction entries as [|e0 es IH]; intros s s' H Hd e w0 He Hw0; [destruct He|].
  inversion Hd as [|? ? Hd0 Hd']; subst. clear Hd. rename Hd' into Hd.
  cbn [Commit_loop] in H. inv_bind H. inv_step Hstep.
  inv_bind H. inv_step Hstep0. inv_bind H. inv_step Hstep0.
  inv_bind H. inv_step Hstep1. inv_bind H. inv_step Hstep1.
  inv_bind H. inv_step Hstep1. inv_bind H. inv_step Hstep1.
  cbn [with_region add_log reg] in H.
  rewrite (set_word_set_word _ _ _ _ x Hstep) in H.
  apply memcpy_Some in Hstep0. subst x0.
  destruct He as [<-|He].
  - rewrite Hstep in Hw0. injection Hw0 as <-.
    rewrite (Commit_loop_frame _ _ _ _ H (fst e0)).
    + cbn [with_region reg]. rewrite (word_set_word_same _ _ _ x Hstep). reflexivity.
    + intros e' He'. cbn [with_region reg]. rewrite same_word_set_word.
      intros Hs. rewrite List.Forall_forall in Hd0.
      exact (Hd0 e' He' (same_word_sym _ _ _ Hs)).
  - rewrite List.Forall_forall in Hd0. pose proof (Hd0 e He) as Hne.
    rewrite (IH _ _ H) with (w0 := w0).
    + cbn [with_region reg]. now rewrite set_word_align.
    + cbn [with_region reg]. now apply distinct_words_set_word.
    + exact He.
    + cbn [with_region reg]. rewrite (word_set_word_other _ _ _ _ x Hstep Hne).
      exact Hw0.
Qed.

(** X3: [Commit] changes nothing but the words named by the write set.  When
    the entries name different words, the word of each entry ends with its
    first [align] bytes taken from the staged buffer and the others kept,
    and with its lock released at the version [wv]. *)
Theorem Commit_publishes (s s' : State) (t : Transaction) :
  txn s = Some t ->
  Commit s = Ok tt s' ->
  txn s' = Some t /\ pmem s' = pmem s /\ gvc (reg s') = gvc (reg s) /\
  (forall b, (forall e, In e (write_set t) -> ~ same_word (reg s) (fst e) b) ->
             word (reg s') b = word (reg s) b) /\
  (distinct_words (reg s) (write_set t) ->
   forall e w0, In e (write_set t) -> word (reg s) (fst e) = Some w0 ->
     word (reg s') (fst e) =
     Some {| lock := {| vl_locked := false; vl_version := wv t |};
             data := take (Z.to_nat (align (reg s))) (snd e) ++
                     drop (Z.to_nat (align (reg s))) (data w0) |}).
Proof.
  intros Ht H. unfold Commit in H. inv_bind H. inv_step Hstep.
  rewrite Ht in Hstep. injection Hstep as <-.
  pose proof (Commit_loop_Ok _ _ _ _ H) as (Ht' & Hp & _ & (_ & Hg & _) & _).
  split; [congruence|]. split; [exact Hp|]. split; [exact Hg|]. split.
  - exact (Commit_loop_frame _ _ _ _ H).
  - intros Hd. exact (Commit_loop_publish _ _ _ _ H Hd).
Qed.

Lemma Commit_publishes_witness :
  let s := state_after [CBegin false; CWrite 3 1000 16 (A 2)] ex_init in
  let s' := final_state (Commit s) s in
  word (reg s') (A 5) = word (reg s) (A 5).
Proof.
  intros s s'.
  destruct (Commit_publishes s s'
              {| ro := false; rv := 0; wv := 0; read_set := ∅;
                 write_set := [(A 2, pm_read ex_pm 1000 8); (A 3, pm_read ex_pm 1008 8)] |})
    as (_ & _ & _ & Hframe & _).
  - vm_compute. reflexivity.
  - apply Ok_final_state. vm_compute. reflexivity.
  - apply Hframe. cbn [write_set]. intros e [<-|[<-|[]]] [_ H]; vm_compute in H; discriminate.
Defined.

(** ** A commit that meets no other transaction, and a lock conflict *)

Lemma memcpy_is_Some (dst src : list byte) (n : Z) :
  0 <= n -> n <= Z.of_nat (length src) -> n <= Z.of_nat (length dst) ->
  memcpy dst src n = Some (take (Z.to_nat n) src ++ drop (Z.to_nat n) dst).
Proof.
  intros H0 Hs Hd. unfold memcpy. rewrite load_is_Some by lia.
  destruct (Z.leb_spec n (Z.of_nat (length dst))); [reflexivity|lia].
Qed.

Lemma Commit_loop_total (wv : Z) (entries : WriteSet) :
  forall s : State,
    payload_ok (reg s) -> 0 <= align (reg s) <= 8 ->
    Forall (fun e => is_Some (word (reg s) (fst e)) /\
                     align (reg s) <= Z.of_nat (length (snd e))) entries ->
    exists s', Commit_loop wv entries s = Ok tt s'.
Proof.
  induction entries as [|e es IH]; intros s Hok Hal Hin.
  - eexists. reflexivity.
  - apply Forall_cons in Hin. destruct Hin as [[[w Hw] Hbuf] Hin].
    pose proof (payload_ok_word _ _ _ Hok Hw) as H8.
    cbn [Commit_loop]. unfold bind at 1. rewrite (word_ref_eq _ s w Hw).
    unfold bind at 1. cbn [get_region]. unfold bind at 1.
    rewrite memcpy_is_Some by lia. cbn [lift ret].
    unfold bind at 1. rewrite emit_add_log. unfold bind at 1. rewrite store_word_eq.
    unfold bind at 1. rewrite emit_add_log. unfold bind at 1. rewrite store_word_eq.
    cbn [with_region add_log reg].
    rewrite (set_word_set_word _ _ _ _ w Hw).
    apply IH; cbn [with_region reg].
    + apply (payload_ok_step (reg s)); [|exact Hok].
      apply (region_step_set_word _ _ _ w Hw). cbn [data].
      rewrite length_app, length_take, length_drop. lia.
    + now rewrite set_word_align.
    + eapply Forall_impl; [exact Hin|]. cbn beta. intros e' [He' Hb'].
      rewrite set_word_align. split; [|exact Hb'].
      now apply (word_set_word_is_Some (reg s) (fst e) (fst e') _ w Hw).
Qed.

Lemma Commit_eq (s : State) (t : Transaction) :
  txn s = Some t -> Commit s = Commit_loop (wv t) (write_set t) s.
Proof. intros Ht. unfold Commit, bind, get_txn. now rewrite Ht. Qed.

Lemma LockWriteSet_all_free (s : State) (t : Transaction) :
  txn s = Some t ->
  Forall (fun e => word_free (reg s) (fst e) = true) (write_set t) ->
  exists l, LockWriteSet s = Ok true (add_log s l).
Proof.
  intros Ht Hfree.
  destruct (LockWriteSet_loop_spec (rv t) (write_set t) [] s)
    as (acq & rest & Hkeys & _ & Hrun).
  { eapply Forall_impl; [exact Hfree|]. cbn beta. intros e He.
    exact (word_free_is_Some _ _ He). }
  unfold LockWriteSet, bind, get_txn. rewrite Ht.
  destruct rest as [|a rest']; [rewrite Hrun; eauto|].
  exfalso. destruct Hrun as [Hlocked _].
  assert (Ha : In a (map fst (write_set t))).
  { rewrite Hkeys. apply in_or_app. right. now left. }
  apply in_map_iff in Ha. destruct Ha as (e & <- & He).
  rewrite List.Forall_forall in Hfree. rewrite (Hfree e He) in Hlocked. discriminate.
Qed.

Lemma tm_end_alone_run (s : State) (t : Transaction) :
  txn s = Some t -> ro t = false ->
  rv t = gvc (reg s) ->
  payload_ok (reg s) -> 0 <= align (reg s) <= 8 ->
  Forall (fun e => word_free (reg s) (fst e) = true /\
                   align (reg s) <= Z.of_nat (length (snd e))) (write_set t) ->
  exists l0 sc,
    Commit_loop (wrap32 (gvc (reg s) + 1)) (write_set t)
                (after_fetch_add (add_log s l0) t) = Ok tt sc /\
    tm_end s = Ok true (set_txn sc None).
Proof.
  intros Ht Hro Hrv Hok Hal Hws.
  destruct (LockWriteSet_all_free s t Ht) as [l0 Hlock].
  { eapply Forall_impl; [exact Hws|]. intros e [H _]. exact H. }
  rewrite (tm_end_locked s _ t Ht Hro Hlock), Hrv, Z.eqb_refl.
  set (sa := after_fetch_add (add_log s l0) t).
  destruct (Commit_loop_total (wrap32 (gvc (reg s) + 1)) (write_set t) sa)
    as [sc Hc].
  { exact Hok. }
  { exact Hal. }
  { eapply Forall_impl; [exact Hws|]. cbn beta. intros e [Hf Hb].
    split; [exact (word_free_is_Some _ _ Hf)|exact Hb]. }
  pose proof (Commit_loop_Ok _ _ _ _ Hc) as (Htc & _).
  exists l0, sc. split; [exact Hc|].
  unfold bind at 1.
  rewrite (Commit_eq sa (with_wv t (wrap32 (gvc (reg s) + 1)))) by reflexivity.
  cbn [with_wv wv write_set]. rewrite Hc. unfold bind.
  rewrite (delete_txn_eq sc (with_wv t (wrap32 (gvc (reg s) + 1)))) by exact Htc.
  reflexivity.
Qed.

(** X4: a transaction that is not read-only, whose write-set words are
    inside the region and free, whose buffers hold [align] bytes
    ([align <= 8]), and which meets a clock that has not moved since it
    began, commits: [tm_end] returns [true], deletes the transaction,
    advances the clock by one and leaves the private memory alone; the
    words named by the write set are released at the new clock value (with
    the staged bytes when the entries name different words) and no other
    word changes. *)
Theorem tm_end_alone_commits (s : State) (t : Transaction) :
  txn s = Some t -> ro t = false ->
  rv t = gvc (reg s) ->
  payload_ok (reg s) -> 0 <= align (reg s) <= 8 ->
  Forall (fun e => word_free (reg s) (fst e) = true /\
                   align (reg s) <= Z.of_nat (length (snd e))) (write_set t) ->
  exists s',
    tm_end s = Ok true s' /\
    txn s' = None /\ pmem s' = pmem s /\
    gvc (reg s') = wrap32 (gvc (reg s) + 1) /\
    (forall b, (forall e, In e (write_set t) -> ~ same_word (reg s) (fst e) b) ->
               word (reg s') b = word (reg s) b) /\
    (forall e, In e (write_set t) ->
       exists w, word (reg s') (fst e) = Some w /\
                 lock w = {| vl_locked := false;
                             vl_version := wrap32 (gvc (reg s) + 1) |}) /\
    (distinct_words (reg s) (write_set t) ->
     forall e w0, In e (write_set t) -> word (reg s) (fst e) = Some w0 ->
       word (reg s') (fst e) =
       Some {| lock := {| vl_locked := false;
                          vl_version := wrap32 (gvc (reg s) + 1) |};
               data := take (Z.to_nat (align (reg s))) (snd e) ++
                       drop (Z.to_nat (align (reg s))) (data w0) |}).
Proof.
  intros Ht Hro Hrv Hok Hal Hws.
  destruct (tm_end_alone_run s t Ht Hro Hrv Hok Hal Hws) as (l0 & sc & Hc & Hend).
  pose proof (Commit_loop_Ok _ _ _ _ Hc) as (Htc & Hpc & _ & (_ & Hg & _) & _ & Hdone).
  exists (set_txn sc None). split.
  - exact Hend.
  - cbn [set_txn txn pmem reg]. split; [reflexivity|]. split; [exact Hpc|].
    split; [exact Hg|]. split; [|split].
    + exact (Commit_loop_frame _ _ _ _ Hc).
    + intros e He. rewrite List.Forall_forall in Hdone. exact (Hdone e He).
    + intros Hd. exact (Commit_loop_publish _ _ _ _ Hc Hd).
Qed.

Lemma tm_end_alone_commits_witness :
  let s := state_after [CBegin false; CWrite 3 1000 16 (A 2)] ex_init in
  exists s', tm_end s = Ok true s' /\ gvc (reg s') = wrap32 (0 + 1).
Proof.
  intros s.
  destruct (tm_end_alone_commits s
              {| ro := false; rv := 0; wv := 0; read_set := ∅;
                 write_set := [(A 2, pm_read ex_pm 1000 8); (A 3, pm_read ex_pm 1008 8)] |})
    as (s' & Hend & _ & _ & Hg & _).
  - vm_compute. reflexivity.
  - reflexivity.
  - reflexivity.
  - apply new_Region_payload_ok.
  - change (align (reg s)) with 8. lia.
  - cbn [write_set]. repeat (apply List.Forall_cons; [split; vm_compute; [reflexivity|discriminate]|]).
    apply List.Forall_nil.
  - exists s'. split; [exact Hend|exact Hg].
Defined.

(** ** The three passes over the sets, as functions of their own *)

Lemma LockWriteSet_loop_false (rv : Z) (entries : WriteSet) :
  forall (locked : list (Z * Word)) (s s' : State),
    LockWriteSet_loop rv entries locked s = Ok false s' ->
    exists e, In e entries /\ word_free (reg s) (fst e) = false.
Proof.
  induction entries as [|e es IH]; intros locked s s' H.
  - cbn in H. inv_step H.
  - cbn [LockWriteSet_loop] in H. inv_bind H. inv_step Hstep.
    inv_bind H. inv_step Hstep0. unfold TryLock in H.
    destruct (vl_locked (lock x)) eqn:El; cbn [fst snd negb] in H.
    + exists e. split; [now left|]. unfold word_free. now rewrite Hstep, El.
    + apply IH in H. destruct H as (e' & He' & Hf). exists e'. split; [now right|exact Hf].
Qed.

Lemma LockWriteSet_true_iff (s : State) (t : Transaction) (b : bool) (s' : State) :
  txn s = Some t ->
  LockWriteSet s = Ok b s' ->
  b = true <-> Forall (fun e => word_free (reg s) (fst e) = true) (write_set t).
Proof.
  intros Ht H. unfold LockWriteSet in H. inv_bind H. inv_step Hstep.
  rewrite Ht in Hstep. injection Hstep as <-.
  pose proof (LockWriteSet_loop_Ok _ _ _ _ _ _ H) as (l & -> & _ & Hall).
  split; [exact Hall|]. intros Hfree. destruct b; [reflexivity|].
  apply LockWriteSet_loop_false in H. destruct H as (e & He & Hf).
  rewrite List.Forall_forall in Hfree. rewrite (Hfree e He) in Hf. discriminate.
Qed.

(** X6: whenever it returns, [LockWriteSet] leaves the region, the
    transaction and the private memory as they were ([TryLock] is called on
    copies of the words), and returns [true] exactly when the lock of every
    word of the write set is free. *)
Theorem LockWriteSet_keeps_region (s : State) (t : Transaction) (b : bool) (s' : State) :
  txn s = Some t ->
  LockWriteSet s = Ok b s' ->
  reg s' = reg s /\ txn s' = Some t /\ pmem s' = pmem s /\
  (b = true <-> Forall (fun e => word_free (reg s) (fst e) = true) (write_set t)).
Proof.
  intros Ht H. pose proof (LockWriteSet_true_iff s t b s' Ht H) as Hiff.
  unfold LockWriteSet in H. inv_bind H. inv_step Hstep.
  rewrite Ht in Hstep. injection Hstep as <-.
  pose proof (LockWriteSet_loop_Ok _ _ _ _ _ _ H) as (l & -> & _).
  split; [reflexivity|]. split; [exact Ht|]. split; [reflexivity|exact Hiff].
Qed.

Lemma LockWriteSet_keeps_region_witness :
  let s := state_after [CBegin false; CWrite 3 1000 16 (A 2)] ex_init in
  reg (final_state (LockWriteSet s) s) = reg s.
Proof.
  intros s.
  destruct (LockWriteSet_keeps_region s
              {| ro := false; rv := 0; wv := 0; read_set := ∅;
                 write_set := [(A 2, pm_read ex_pm 1000 8); (A 3, pm_read ex_pm 1008 8)] |}
              true (final_state (LockWriteSet s) s)) as (Hreg & _).
  - vm_compute. reflexivity.
  - apply Ok_final_state. vm_compute. reflexivity.
  - exact Hreg.
Defined.

Lemma ValidateReadSet_loop_run (rv : Z) (addrs : list Z) :
  forall s : State,
    Forall (fun a => is_Some (word (reg s) a)) addrs ->
    exists l, ValidateReadSet_loop rv addrs s =
              Ok (negb (existsb (word_stale (reg s) rv) addrs)) (add_log s l) /\
              Forall (fun ev => exists a, ev = EvSample a /\ In a addrs) l.
Proof.
  induction addrs as [|a rest IH]; intros s Hin.
  - exists []. cbn. rewrite add_log_nil. split; [reflexivity|constructor].
  - apply Forall_cons in Hin. destruct Hin as [[w Hw] Hin].
    cbn [ValidateReadSet_loop existsb]. unfold bind at 1.
    rewrite (word_ref_eq a s w Hw). unfold bind at 1. rewrite emit_add_log.
    unfold word_stale at 1. rewrite Hw. unfold Sample. cbn [locked version].
    rewrite (orb_comm (vl_locked (lock w))).
    destruct ((rv <? vl_version (lock w)) || vl_locked (lock w)).
    + eexists. split; [reflexivity|]. constructor; [|constructor].
      exists a. split; [reflexivity|now left].
    + destruct (IH (add_log s [EvSample a]) Hin) as (l & Hl & Hev).
      rewrite Hl, add_log_app. eexists. split; [reflexivity|].
      constructor; [exists a; split; [reflexivity|now left]|].
      eapply Forall_impl; [exact Hev|]. cbn beta.
      intros ev (a' & -> & Ha'). exists a'. split; [reflexivity|now right].
Qed.

(** X7: when every address of the read set is inside the region,
    [ValidateReadSet] returns [true] exactly when no address of the read set
    is locked or has a version above [rv], whatever the order of iteration;
    it changes nothing, and the only calls it makes are samples of locks at
    addresses of the read set. *)
Theorem ValidateReadSet_spec (s : State) (t : Transaction) :
  txn s = Some t ->
  (forall a, a ∈ read_set t -> is_Some (word (reg s) a)) ->
  exists v l,
    ValidateReadSet s = Ok v (add_log s l) /\
    (v = true <-> forall a, a ∈ read_set t -> word_stale (reg s) (rv t) a = false) /\
    Forall (fun ev => exists a, ev = EvSample a /\ a ∈ read_set t) l.
Proof.
  intros Ht Hin.
  destruct (ValidateReadSet_loop_run (rv t) (elements (read_set t)) s)
    as (l & Hrun & Hev).
  { apply Forall_forall. intros a Ha. apply elem_of_elements in Ha. exact (Hin a Ha). }
  assert (Hrun' : ValidateReadSet s =
                  Ok (negb (existsb (word_stale (reg s) (rv t)) (elements (read_set t))))
                     (add_log s l)).
  { unfold ValidateReadSet, bind, get_txn. now rewrite Ht. }
  eexists _, l. split; [exact Hrun'|]. split.
  - destruct (ValidateReadSet_Ok _ _ _ _ Ht Hrun') as (l' & _ & Hv & _). exact Hv.
  - eapply Forall_impl; [exact Hev|]. cbn beta. intros ev (a & -> & Ha).
    exists a. split; [reflexivity|]. apply elem_of_elements, list_elem_of_In, Ha.
Qed.

Lemma ValidateReadSet_spec_witness :
  exists v l, ValidateReadSet ex_state_3 = Ok v (add_log ex_state_3 l) /\
              (v = true <->
               forall a, a ∈ read_set ex_txn_3 ->
                         word_stale (reg ex_state_3) (rv ex_txn_3) a = false).
Proof.
  destruct (ValidateReadSet_spec ex_state_3 ex_txn_3) as (v & l & Hrun & Hv & _).
  - reflexivity.
  - intros a Ha. apply elem_of_union in Ha.
    destruct Ha as [Ha|Ha]; apply elem_of_singleton in Ha; subst a;
      apply is_Some_check; vm_compute; exact I.
  - exists v, l. split; [exact Hrun|exact Hv].
Defined.

Lemma UnlockWriteSet_loop_frame (entries : WriteSet) :
  forall (s s' : State),
    UnlockWriteSet_loop entries s = Ok tt s' ->
    forall b, (forall e, In e entries -> ~ same_word (reg s) (fst e) b) ->
              word (reg s') b = word (reg s) b.
Proof.
  induction entries as [|e es IH]; intros s s' H b Hb.
  - cbn in H. inv_step H. reflexivity.
  - cbn [UnlockWriteSet_loop] in H. inv_bind H. inv_step Hstep.
    inv_bind H. inv_step Hstep0. inv_bind H. inv_step Hstep0.
    cbn [with_region add_log reg] in H.
    rewrite (IH _ _ H b).
    + cbn [with_region reg]. apply (word_set_word_other _ _ _ _ x Hstep).
      apply Hb. now left.
    + intros e' He'. cbn [with_region reg]. rewrite same_word_set_word.
      apply Hb. now right.
Qed.

(** X8: when every address of the write set is inside the region,
    [UnlockWriteSet] calls [Unlock] at each of them in the order of the set and
    leaves each of these words free, whoever held its lock; payloads,
    versions and the clock are unchanged, and so is every word that the
    write set does not name. *)
Theorem UnlockWriteSet_spec (s : State) (t : Transaction) :
  txn s = Some t ->
  Forall (fun e => is_Some (word (reg s) (fst e))) (write_set t) ->
  exists s',
    UnlockWriteSet s = Ok tt s' /\
    txn s' = Some t /\ pmem s' = pmem s /\ gvc (reg s') = gvc (reg s) /\
    log s' = log s ++ map EvUnlock (map fst (write_set t)) /\
    Forall (fun e => word_free (reg s') (fst e) = true) (write_set t) /\
    (forall b w', word (reg s') b = Some w' ->
       exists w, word (reg s) b = Some w /\ data w' = data w /\
                 vl_version (lock w') = vl_version (lock w)) /\
    (forall b, (forall e, In e (write_set t) -> ~ same_word (reg s) (fst e) b) ->
               word (reg s') b = word (reg s) b).
Proof.
  intros Ht Hin.
  destruct (UnlockWriteSet_loop_total (write_set t) s Hin) as [s' Hrun].
  exists s'. split; [unfold UnlockWriteSet, bind, get_txn; now rewrite Ht|].
  pose proof (UnlockWriteSet_loop_Ok _ _ _ Hrun)
    as (Ht' & Hp & Hl & (_ & Hg & _) & Hun & Hfree).
  split; [congruence|]. split; [exact Hp|]. split; [exact Hg|].
  split; [exact Hl|]. split; [exact Hfree|]. split.
  - intros b w' Hw'. destruct (Hun b w' Hw') as (w & Hw & Hd & Hv & _). eauto.
  - exact (UnlockWriteSet_loop_frame _ _ _ Hrun).
Qed.

Lemma UnlockWriteSet_spec_witness :
  let s := with_region
             (state_after [CBegin false; CWrite 3 1000 16 (A 2)] ex_init)
             (set_word (tm_create 64 8) (A 3) (held_Word 7)) in
  exists s', UnlockWriteSet s = Ok tt s' /\
             word_free (reg s) (A 3) = false /\
             Forall (fun e => word_free (reg s') (fst e) = true)
                    [(A 2, pm_read ex_pm 1000 8); (A 3, pm_read ex_pm 1008 8)].
Proof.
  intros s.
  destruct (UnlockWriteSet_spec s
              {| ro := false; rv := 0; wv := 0; read_set := ∅;
                 write_set := [(A 2, pm_read ex_pm 1000 8); (A 3, pm_read ex_pm 1008 8)] |})
    as (s' & Hrun & _ & _ & _ & _ & Hfree & _).
  - vm_compute. reflexivity.
  - cbn [write_set].
    repeat (apply List.Forall_cons; [apply is_Some_check; vm_compute; exact I|]).
    apply List.Forall_nil.
  - exists s'. split; [exact Hrun|]. split; [vm_compute; reflexivity|exact Hfree].
Defined.

(** ** The lifetime of a transaction and the clock *)

Lemma tm_read_false_deletes (fuel : nat) (source size target : Z) (s s' : State) :
  tm_read fuel source size target s = Ok false s' -> txn s' = None.
Proof.
  intros H. unfold tm_read in H. inv_bind H. inv_step Hstep. inv_bind H.
  assert (Hbody : forall offset s1 y s2, True ->
            (if ro x then tm_read_ro_body source target
             else tm_read_rw_body source target) offset s1 = Ok y s2 ->
            match y with None => True | Some v => txn s2 = None end).
  { intros offset s1 y s2 _ Hb. destruct (ro x).
    - apply tm_read_ro_body_Ok in Hb. destruct Hb as (_ & [[-> Hn]|[-> _]]); auto.
    - apply tm_read_rw_body_Ok in Hb. destruct Hb as (_ & [[-> Hn]|[-> _]]); auto. }
  pose proof (for_offsets_inv (fun _ => True) (fun _ s1 => txn s1 = None) size _
                Hbody fuel 0 s x0 s0 I Hstep0) as Hloop.
  destruct x0 as [v|]; inv_step H. exact Hloop.
Qed.

(** X9: once [tm_end] has returned, with either result, or [tm_read] has
    returned [false], the transaction is deleted: a further [tm_end] or
    [tm_read] on the handle, or a [tm_write] of at least one byte, uses the
    deleted object. *)
Theorem handle_dead_after_end_or_abort
    (s s' : State) (b : bool) (fuel0 : nat) (source0 size0 target0 : Z) :
  tm_end s = Ok b s' \/ tm_read fuel0 source0 size0 target0 s = Ok false s' ->
  txn s' = None /\
  tm_end s' = Fault /\
  (forall fuel source size target, tm_read fuel source size target s' = Fault) /\
  (forall fuel source size target,
     0 < size -> tm_write (S fuel) source size target s' = Fault).
Proof.
  intros H.
  assert (Hn : txn s' = None).
  { destruct H as [H|H]; [apply tm_end_Ok in H; tauto|exact (tm_read_false_deletes _ _ _ _ _ _ H)]. }
  split; [exact Hn|]. split; [|split].
  - unfold tm_end, bind, get_txn. now rewrite Hn.
  - intros fuel source size target. unfold tm_read, bind, get_txn. now rewrite Hn.
  - intros fuel source size target Hsz. unfold tm_write. unfold bind at 1.
    cbn [for_offsets]. destruct (Z.ltb_spec 0 size); [|lia].
    unfold bind at 1. unfold tm_write_body. unfold bind at 1. cbn [get_region].
    unfold bind at 1. unfold get_txn. now rewrite Hn.
Qed.

Lemma handle_dead_after_end_or_abort_witness :
  let s := state_after [CBegin true] ex_init in
  tm_end (final_state (tm_end s) s) = Fault.
Proof.
  intros s.
  destruct (handle_dead_after_end_or_abort s (final_state (tm_end s) s) true 0%nat 0 0 0)
    as (_ & Hend & _).
  - left. apply Ok_final_state. vm_compute. reflexivity.
  - exact Hend.
Defined.

(** X10: [tm_end] leaves the clock alone when the transaction is read-only
    or some word of its write set is held, and otherwise advances it by one
    (modulo 2^32), whether the commit then succeeds or the validation of the
    read set fails. *)
Theorem tm_end_clock (s : State) (t : Transaction) (b : bool) (s' : State) :
  txn s = Some t ->
  tm_end s = Ok b s' ->
  gvc (reg s') =
  if ro t then gvc (reg s)
  else if forallb (fun e => word_free (reg s) (fst e)) (write_set t)
       then wrap32 (gvc (reg s) + 1)
       else gvc (reg s).
Proof.
  intros Ht H.
  destruct (tm_end_cases s t b s' Ht H)
    as [(-> & _ & ->)|[(-> & l0 & Hlock & _ & ->)|(-> & l0 & l & Hlock & Hcase)]].
  - reflexivity.
  - pose proof (LockWriteSet_true_iff s t _ _ Ht Hlock) as Hiff.
    destruct (forallb _ _) eqn:Hall; [|reflexivity].
    exfalso. assert (Hf : false = true); [|discriminate].
    apply Hiff. apply Forall_forall. intros e He.
    rewrite forallb_forall in Hall. apply Hall. now apply list_elem_of_In.
  - pose proof (LockWriteSet_true_iff s t _ _ Ht Hlock) as Hiff.
    assert (Hall : forallb (fun e => word_free (reg s) (fst e)) (write_set t) = true).
    { apply forallb_forall. intros e He.
      pose proof (proj1 Hiff eq_refl) as Hfree.
      rewrite List.Forall_forall in Hfree. exact (Hfree e He). }
    rewrite Hall. cbv zeta in Hcase.
    destruct Hcase as [(_ & _ & sc & Hc & ->)|(_ & _ & _ & su & Hu & ->)].
    + apply Commit_loop_Ok in Hc. destruct Hc as (_ & _ & _ & (_ & Hg & _) & _).
      exact Hg.
    + apply UnlockWriteSet_loop_Ok in Hu. destruct Hu as (_ & _ & _ & (_ & Hg & _) & _).
      exact Hg.
Qed.

Lemma tm_end_clock_witness :
  gvc (reg (final_state (tm_end ex_state_3) ex_state_3)) = wrap32 (5 + 1) /\
  value_of (tm_end ex_state_3) = Some false.
Proof.
  split; [|vm_compute; reflexivity].
  rewrite (tm_end_clock ex_state_3 ex_txn_3 false (final_state (tm_end ex_state_3) ex_state_3)).
  - vm_compute. reflexivity.
  - reflexivity.
  - apply Ok_final_state. vm_compute. reflexivity.
Defined.

(** ** The write set stays sorted *)

Lemma tm_write_body_assigns (source target offset : Z) (s : State)
    (x : option bool) (s' : State) :
  tm_write_body source target offset s = Ok x s' ->
  exists t k b, txn s = Some t /\
    s' = set_txn s (Some (with_write_set t (ws_assign k b (write_set t)))).
Proof.
  intros H. unfold tm_write_body in H.
  inv_bind H. inv_step Hstep. inv_bind H. inv_step Hstep.
  inv_bind H. unfold put_txn in Hstep0. rewrite Hstep in Hstep0. inv_ok Hstep0.
  inv_bind H. inv_step Hstep0. inv_bind H. inv_step Hstep1.
  inv_bind H. inv_step Hstep1. inv_bind H.
  unfold put_txn in Hstep2. cbn [txn] in Hstep2. inv_ok Hstep2. inv_step H.
  rewrite ws_assign_assign. eexists _, _, _. split; [exact Hstep|reflexivity].
Qed.

Lemma tm_write_sorted (fuel : nat) (source size target : Z) (s : State) (b : bool) (s' : State) :
  tm_write fuel source size target s = Ok b s' -> sorted_inv s -> sorted_inv s'.
Proof.
  intros H Hinv. unfold tm_write in H. inv_bind H. inv_step H.
  pose proof (for_offsets_inv sorted_inv (fun _ _ => False) size
                (tm_write_body source target)) as Hloop.
  specialize (Hloop ltac:(
    intros offset s1 y s2 HI Hb; pose proof (tm_write_body_Ok _ _ _ _ _ _ Hb) as [-> _];
    apply tm_write_body_assigns in Hb; destruct Hb as (t1 & k & bs & Ht1 & ->);
    intros t' [= <-]; cbn [with_write_set write_set];
    apply ws_assign_sorted; exact (HI t1 Ht1)) fuel 0 s x s' Hinv Hstep).
  destruct x; [contradiction|exact Hloop].
Qed.

Lemma exec_sorted (c : Call) (s : State) (u : unit) (s' : State) :
  exec c s = Ok u s' -> sorted_inv s -> sorted_inv s'.
Proof.
  intros H Hinv. destruct c; cbn [exec] in H.
  - unfold tm_begin in H. inv_ok H. intros t [= <-]. constructor.
  - inv_bind H. inv_step H. apply tm_read_Ok in Hstep.
    destruct Hstep as (_ & t & Ht & [Hn|(t' & Ht' & _ & _ & _ & Hws & _)]).
    + intros t0 Ht0. congruence.
    + intros t0 Ht0. rewrite Ht' in Ht0. injection Ht0 as <-. rewrite Hws.
      exact (Hinv t Ht).
  - inv_bind H. inv_step H. exact (tm_write_sorted _ _ _ _ _ _ _ Hstep Hinv).
  - inv_bind H. inv_step H. apply tm_end_Ok in Hstep. destruct Hstep as (_ & _ & Hn).
    intros t0 Ht0. congruence.
  - inv_bind H. inv_step H. unfold tm_alloc, Alloc in Hstep.
    inv_bind Hstep. inv_step Hstep0. inv_bind Hstep. unfold put_region in Hstep0.
    inv_ok Hstep0. inv_step Hstep. exact Hinv.
  - inv_bind H. inv_step H. unfold tm_free in Hstep. inv_step Hstep. exact Hinv.
Qed.

Lemma exec_all_sorted (calls : list Call) :
  forall (s : State) (u : unit) (s' : State),
    exec_all calls s = Ok u s' -> sorted_inv s -> sorted_inv s'.
Proof.
  induction calls as [|c cs IH]; intros s u s' H Hinv.
  - cbn in H. inv_step H. exact Hinv.
  - cbn [exec_all] in H. inv_bind H.
    exact (IH _ _ _ H (exec_sorted _ _ _ _ Hstep Hinv)).
Qed.

(** X11: whatever calls are made from a state without a transaction, the
    write set of the live transaction holds its addresses in strictly
    ascending order, each once: a write to an address already staged
    replaces its buffer. *)
Theorem write_set_sorted (calls : list Call) (s0 s : State) (t : Transaction) :
  txn s0 = None ->
  exec_all calls s0 = Ok tt s ->
  txn s = Some t ->
  StronglySorted Z.lt (map fst (write_set t)).
Proof.
  intros H0 Hrun Ht.
  apply (exec_all_sorted calls s0 tt s Hrun); [|exact Ht].
  intros t0 Ht0. congruence.
Qed.

Lemma write_set_sorted_witness :
  let calls := [CBegin false; CWrite 3 1000 8 (A 4); CWrite 3 1000 16 (A 1);
                CWrite 3 1008 8 (A 4)] in
  let s := state_after calls ex_init in
  StronglySorted Z.lt
    (map fst [(A 1, pm_read ex_pm 1000 8); (A 2, pm_read ex_pm 1008 8);
              (A 4, pm_read ex_pm 1008 8)]).
Proof.
  intros calls s.
  apply (write_set_sorted calls ex_init s
           {| ro := false; rv := 0; wv := 0; read_set := ∅;
              write_set := [(A 1, pm_read ex_pm 1000 8); (A 2, pm_read ex_pm 1008 8);
                            (A 4, pm_read ex_pm 1008 8)] |}).
  - reflexivity.
  - unfold s, state_after. apply Ok_final_state. vm_compute. reflexivity.
  - vm_compute. reflexivity.
Defined.

(** ** The address scheme inside a segment *)

Lemma shiftr_segment (sg x : Z) :
  0 <= x < 2 ^ 32 -> Z.shiftr (Z.shiftl sg 32 + x) 32 = sg.
Proof.
  intros Hx. rewrite Z.shiftr_div_pow2, Z.shiftl_mul_pow2 by lia.
  rewrite Z.div_add_l by lia. rewrite (Z.div_small x) by lia. lia.
Qed.

Lemma land_mask_segment (sg x : Z) :
  0 <= x < 65536 -> Z.land (Z.shiftl sg 32 + x) kADDR_MASK = x.
Proof.
  intros Hx. unfold kADDR_MASK. change 0xFFFF with (Z.ones 16).
  rewrite Z.land_ones, Z.shiftl_mul_pow2 by lia.
  replace (sg * 2 ^ 32 + x) with (x + (sg * 2 ^ 16) * 2 ^ 16) by lia.
  rewrite Z.mod_add by lia. apply Z.mod_small. lia.
Qed.

(** X12: for a segment id [sg] and a word index [k] whose byte offset
    [k * align] is below 65536, the address [(sg << 32) + k * align] is
    looked up at word [k] of segment [sg]; so two such addresses name the
    same word only when they are equal, and with [sg < 512] and [k < 1024]
    the lookup is inside the region. *)
Theorem segment_address_round_trip (r : Region) (sg k : Z) :
  0 < align r -> 0 <= sg -> 0 <= k -> k * align r < 65536 ->
  word_path r (Z.shiftl sg 32 + k * align r) = (sg, k) /\
  (forall sg' k',
     0 <= sg' -> 0 <= k' -> k' * align r < 65536 ->
     same_word r (Z.shiftl sg 32 + k * align r) (Z.shiftl sg' 32 + k' * align r) ->
     sg' = sg /\ k' = k) /\
  (region_shape r -> sg < 512 -> k < 1024 ->
   is_Some (word r (Z.shiftl sg 32 + k * align r))).
Proof.
  intros Hal Hsg Hk Hoff.
  assert (Hpath : forall sg1 k1, 0 <= sg1 -> 0 <= k1 -> k1 * align r < 65536 ->
            word_path r (Z.shiftl sg1 32 + k1 * align r) = (sg1, k1)).
  { intros sg1 k1 H1 H2 H3. unfold word_path.
    rewrite shiftr_segment by (change (2 ^ 32) with 4294967296; nia).
    rewrite land_mask_segment by nia. rewrite Z.div_mul by lia. reflexivity. }
  split; [exact (Hpath sg k Hsg Hk Hoff)|]. split.
  - intros sg' k' Hsg' Hk' Hoff' [H1 H2].
    rewrite (Hpath sg k), (Hpath sg' k') in H1, H2 by assumption.
    cbn [fst snd] in H1, H2. lia.
  - intros Hsh Hs Hkk. apply word_in_bounds; [exact Hsh|exact Hal| |].
    + rewrite Z.shiftl_mul_pow2 by lia. nia.
    + pose proof (Hpath sg k Hsg Hk Hoff) as E. unfold word_path in E.
      injection E as E1 E2. rewrite E1, E2. lia.
Qed.

Lemma segment_address_round_trip_witness :
  word_path (tm_create 8192 8) (tm_start + 1023 * 8) = (1, 1023).
Proof.
  destruct (segment_address_round_trip (tm_create 8192 8) 1 1023) as [H _].
  - cbn. lia.
  - lia.
  - lia.
  - cbn. lia.
  - exact H.
Defined.

(** X13: the lookup [getWordLock] of the variant in [358707/tm.cpp] divides
    by zero when the alignment is zero; otherwise it takes the segment from
    the upper 32 bits of the address and the word index from all of its
    lower 32 bits, divided by the alignment. *)
Theorem getWordLock_path_low_32_bits (al addr : Z) :
  getWordLock_path al addr =
  if al =? 0 then None
  else Some (Z.shiftr addr 32, Z.land addr 0xFFFFFFFF / al).
Proof.
  unfold getWordLock_path, wrap64. destruct (al =? 0); [reflexivity|].
  f_equal. f_equal. f_equal.
  change 0xFFFFFFFF with (Z.ones 32).
  rewrite Z.land_ones, Z.shiftl_mul_pow2, Z.shiftr_div_pow2 by lia.
  change (2 ^ 64) with (2 ^ 32 * 2 ^ 32).
  rewrite Z.mul_mod_distr_r by lia. rewrite Z.div_mul by lia. reflexivity.
Qed.

(** ** An alignment of zero *)

Lemma tm_write_loop_align_zero (source size target : Z) (fuel : nat) :
  forall s t,
    align (reg s) = 0 -> txn s = Some t -> 0 < size ->
    for_offsets fuel size (tm_write_body source target) 0 s = Timeout.
Proof.
  induction fuel as [|fuel IH]; intros s t Hal Ht Hsz; [reflexivity|].
  cbn [for_offsets]. destruct (Z.ltb_spec 0 size); [|lia].
  unfold bind at 1. rewrite (tm_write_body_eq _ _ _ s t Ht) by lia.
  unfold bind at 1. cbn [get_region set_txn reg]. rewrite Hal.
  change (wrap64 (0 + 0)) with 0. eapply IH; [exact Hal|reflexivity|exact Hsz].
Qed.

(** X14: [tm_create] takes an alignment of zero as it is; on such a region a
    [tm_write] of at least one byte never leaves its loop, whatever the
    fuel, and a [tm_read] of at least one byte divides by zero in the
    lookup of its first word. *)
Theorem align_zero_never_completes
    (size : Z) (s : State) (t : Transaction) (source n target : Z) :
  reg s = tm_create size 0 -> txn s = Some t -> 0 < n ->
  (forall fuel, tm_write fuel source n target s = Timeout) /\
  (forall fuel, tm_read (S fuel) source n target s = Fault).
Proof.
  intros Hreg Ht Hn.
  assert (Hal : align (reg s) = 0) by now rewrite Hreg.
  split.
  - intros fuel. unfold tm_write, bind.
    now rewrite (tm_write_loop_align_zero _ _ _ fuel s t Hal Ht Hn).
  - intros fuel. apply (tm_read_out_of_range _ _ _ _ _ t Ht Hn).
    unfold word. now rewrite Hal.
Qed.

Lemma align_zero_never_completes_witness :
  let s := state_after [CBegin false]
             {| reg := tm_create 64 0; txn := None; pmem := ex_pm; log := [] |} in
  tm_write 1000 1000 8 (A 0) s = Timeout.
Proof.
  intros s.
  destruct (align_zero_never_completes 64 s
              {| ro := false; rv := 0; wv := 0; read_set := ∅; write_set := [] |}
              1000 8 (A 0)) as [Hw _].
  - reflexivity.
  - reflexivity.
  - lia.
  - apply Hw.
Defined.

(** ** A committed write is read by the next transaction *)

(** X15: when [tm_end] returns [true] for a transaction whose write-set
    entries name different words, a transaction begun afterwards, read-only
    or not, reads at each written address the bytes that were staged there:
    [tm_read] of one word returns [true] and the target holds the first
    [align] bytes of the buffer. *)
Theorem committed_write_is_visible
    (s s1 : State) (t : Transaction) (is_ro : bool) (fuel : nat)
    (a dst : Z) (buf : list byte) (w0 : Word) :
  txn s = Some t -> ro t = false ->
  tm_end s = Ok true s1 ->
  distinct_words (reg s) (write_set t) ->
  In (a, buf) (write_set t) ->
  word (reg s) a = Some w0 ->
  0 < align (reg s) <= 8 ->
  align (reg s) <= Z.of_nat (length buf) ->
  align (reg s) <= Z.of_nat (length (data w0)) ->
  0 <= a < 2 ^ 64 -> 0 <= dst -> dst + align (reg s) <= 2 ^ 64 ->
  (2 <= fuel)%nat ->
  exists s2 s3,
    tm_begin is_ro s1 = Ok tt s2 /\
    tm_read fuel a (align (reg s)) dst s2 = Ok true s3 /\
    pm_read (pmem s3) dst (align (reg s)) = take (Z.to_nat (align (reg s))) buf.
Proof.
  intros Ht Hro Hend Hd Hin Hw0 Hal Hbuf Hdat Ha Hd0 Hdw Hfuel.
  set (al := align (reg s)) in *.
  set (wv' := wrap32 (gvc (reg s) + 1)).
  destruct (tm_end_cases s t true s1 Ht Hend)
    as [(Hro' & _)|[(_ & l0 & _ & Hb & _)|(_ & l0 & l & _ & Hcase)]];
    [congruence|discriminate|].
  cbv zeta in Hcase.
  destruct Hcase as [(_ & _ & sc & Hc & ->)|(Hb & _)]; [|discriminate].
  pose proof (Commit_loop_Ok _ _ _ _ Hc) as (_ & _ & _ & (Halc & Hg & _) & _).
  pose proof (Commit_loop_publish _ _ _ _ Hc Hd (a, buf) w0 Hin Hw0) as Hpub.
  cbn [fst snd add_log after_fetch_add reg bump_gvc align gvc] in Hpub, Halc, Hg.
  fold al wv' in Hpub, Hg. fold al in Halc.
  set (w1 := {| lock := {| vl_locked := false; vl_version := wv' |};
                data := take (Z.to_nat al) buf ++ drop (Z.to_nat al) (data w0) |}) in *.
  set (t2 := {| ro := is_ro; rv := gvc (reg sc); wv := 0; read_set := ∅; write_set := [] |}).
  set (s2 := {| reg := reg sc; txn := Some t2; pmem := pmem sc; log := log sc |}).
  assert (Hlen1 : al <= Z.of_nat (length (data w1))).
  { cbn [w1 data]. rewrite length_app, length_take, length_drop. lia. }
  assert (Hnsv : forall x, served t2 x = false) by (intros x; apply served_false; now right).
  assert (Haddr : word_addr a al 0 = a).
  { unfold word_addr. now rewrite Z.mul_0_l, Z.add_0_r, wrap64_small by exact Ha. }
  assert (Hsrc : read_source (reg s2) t2 a = Some (take (Z.to_nat al) (data w1))).
  { unfold read_source. rewrite Hnsv. cbn [s2 reg]. rewrite Hpub, Halc.
    unfold load. destruct (Z.leb_spec al (Z.of_nat (length (data w1)))); [|lia].
    destruct (Z.leb_spec 0 al); [reflexivity|lia]. }
  destruct (tm_read_run fuel a al dst s2 t2) as (b & s3 & Hrun & Hpost).
  - reflexivity.
  - cbn [s2 reg]. lia.
  - lia.
  - cbn [s2 reg]. rewrite Halc. change (2 ^ 64) with 18446744073709551616 in *. lia.
  - cbn [s2 reg]. rewrite Halc. nia.
  - exact Hd0.
  - exact Hdw.
  - cbn [s2 reg]. rewrite Halc. intros k Hk Hlt.
    assert (k = 0) by nia. subst k.
    unfold word_addr. rewrite Z.mul_0_l, Z.add_0_r, wrap64_small by exact Ha.
    split; [rewrite Hpub; eauto|].
    unfold read_source. rewrite Hnsv, Hpub, Halc, load_is_Some by lia. eauto.
  - exists s2, s3. split; [reflexivity|]. destruct b.
    + split; [exact Hrun|].
      destruct Hpost as (K & HK & Hall & _ & _ & _ & _ & Hdone & _).
      cbn [s2 reg] in Hall, Hdone. rewrite Halc in Hall, Hdone.
      destruct (Hdone 0 (conj (Z.le_refl 0) (Hall 0 ltac:(lia) ltac:(lia)))) as [_ Hbytes].
      rewrite Haddr, Z.mul_0_l, Z.add_0_r in Hbytes.
      rewrite (Hbytes _ Hsrc). cbn [w1 data].
      rewrite take_app_le by (rewrite length_take; lia).
      rewrite take_take. f_equal. lia.
    + exfalso. destruct Hpost as (_ & _ & k & l' & Hk & Hlt & Hstop & _).
      cbn [s2 reg] in Hlt, Hstop. rewrite Halc in Hlt, Hstop.
      assert (k = 0) by nia. subst k. rewrite Haddr in Hstop.
      apply read_stops_true in Hstop. destruct Hstop as (_ & w & Hw & Hbad).
      cbn [s2 reg] in Hw. rewrite Hpub in Hw. injection Hw as <-.
      cbn [w1 lock vl_locked vl_version t2 rv] in Hbad. rewrite Hg in Hbad.
      destruct Hbad as [Hbad|Hbad]; [discriminate|lia].
Qed.

Lemma committed_write_is_visible_witness :
  let s := state_after [CBegin false; CWrite 3 1000 16 (A 2)] ex_init in
  let s1 := final_state (tm_end s) s in
  exists s2 s3,
    tm_begin true s1 = Ok tt s2 /\
    tm_read 2 (A 3) 8 2000 s2 = Ok true s3 /\
    pm_read (pmem s3) 2000 8 = take 8 (pm_read ex_pm 1008 8).
Proof.
  intros s s1.
  apply (committed_write_is_visible s s1
           {| ro := false; rv := 0; wv := 0; read_set := ∅;
              write_set := [(A 2, pm_read ex_pm 1000 8); (A 3, pm_read ex_pm 1008 8)] |}
           true 2 (A 3) 2000 (pm_read ex_pm 1008 8) new_Word).
  - vm_compute. reflexivity.
  - reflexivity.
  - apply Ok_final_state. vm_compute. reflexivity.
  - cbn [write_set]. constructor; [|constructor; constructor].
    constructor; [|constructor]. intros [_ H]. vm_compute in H. discriminate.
  - right. now left.
  - vm_compute. reflexivity.
  - change (align (reg s)) with 8. lia.
  - vm_compute. discriminate.
  - vm_compute. discriminate.
  - vm_compute. split; [discriminate|reflexivity].
  - lia.
  - vm_compute. discriminate.
  - lia.
Defined.

(** ** Writes of a read-only transaction *)

Lemma tm_write_returns
    (fuel : nat) (source size target : Z) (s : State) (t : Transaction) :
  txn s = Some t ->
  0 < align (reg s) -> 0 <= size -> size + align (reg s) <= 2 ^ 64 ->
  size + align (reg s) <= Z.of_nat fuel * align (reg s) ->
  exists t',
    tm_write fuel source size target s = Ok true (set_txn s (Some t')) /\
    ro t' = ro t /\ rv t' = rv t.
Proof.
  intros Ht Hal Hsz Hwrap Hfuel.
  set (al := align (reg s)) in *.
  pose (I := fun (_ : Z) (s1 : State) =>
    exists t1, s1 = set_txn s (Some t1) /\ ro t1 = ro t /\ rv t1 = rv t).
  pose (Q := fun (x : option bool) (s1 : State) => x = None /\ I 0 s1).
  destruct (for_offsets_total al size (tm_write_body source target) I Q Hal Hsz Hwrap)
    with (fuel := fuel) (k := 0) (s := s) as (x & s' & Hrun & -> & t1 & -> & Hro & Hrv).
  - intros k s1 (t1 & -> & _). reflexivity.
  - intros k s1 Hk Hlt (t1 & -> & Hro & Hrv).
    eexists None, _. split.
    + apply tm_write_body_eq; [reflexivity|]. cbn [set_txn reg]. fold al. lia.
    + cbn [set_txn reg pmem txn log]. eexists. split; [reflexivity|].
      cbn [with_write_set ro rv]. split; assumption.
  - intros k s1 Hk Hge _ HI. split; [reflexivity|exact HI].
  - lia.
  - exists t. split; [symmetry; apply set_txn_same; exact Ht|]. split; reflexivity.
  - right. reflexivity.
  - fold al. lia.
  - exists t1. split; [|split; assumption].
    unfold tm_write, bind. change (0 * al) with 0 in Hrun. rewrite Hrun. reflexivity.
Qed.

(** X16: [tm_write] does not look at the read-only flag.  In a read-only
    transaction the bytes it stages are never read back nor committed: a
    later [tm_read] of the same range returns the payload of the shared
    words (free and not newer than [rv]), and [tm_end] returns [true] with
    the region unchanged. *)
Theorem read_only_ignores_its_writes
    (fuel1 fuel2 : nat) (src n a dst : Z) (s : State) (t : Transaction) :
  txn s = Some t -> ro t = true ->
  0 < align (reg s) -> 0 <= n -> n + align (reg s) <= 2 ^ 64 ->
  n + align (reg s) <= Z.of_nat fuel1 * align (reg s) ->
  n + align (reg s) <= Z.of_nat fuel2 * align (reg s) ->
  0 <= dst -> dst + n <= 2 ^ 64 ->
  (forall k, 0 <= k -> k * align (reg s) < n ->
     exists w, word (reg s) (word_addr a (align (reg s)) k) = Some w /\
               vl_locked (lock w) = false /\ vl_version (lock w) <= rv t /\
               align (reg s) <= Z.of_nat (length (data w))) ->
  exists s1 s2 s3,
    tm_write fuel1 src n a s = Ok true s1 /\
    tm_read fuel2 a n dst s1 = Ok true s2 /\
    (forall k, 0 <= k -> k * align (reg s) < n ->
       exists w, word (reg s) (word_addr a (align (reg s)) k) = Some w /\
                 pm_read (pmem s2) (dst + k * align (reg s)) (align (reg s)) =
                 take (Z.to_nat (align (reg s))) (data w)) /\
    tm_end s2 = Ok true s3 /\ reg s3 = reg s.
Proof.
  intros Ht Hro Hal Hn Hwrap Hf1 Hf2 Hd0 Hdw Hwords.
  destruct (tm_write_returns fuel1 src n a s t Ht Hal Hn Hwrap Hf1)
    as (t' & Hrun1 & Hro' & Hrv').
  set (al := align (reg s)) in *.
  set (s1 := set_txn s (Some t')) in *.
  assert (Hnsv : forall x, served t' x = false)
    by (intros x; apply served_false; left; congruence).
  destruct (tm_read_run fuel2 a n dst s1 t' eq_refl Hal Hn Hwrap Hf2 Hd0 Hdw)
    as (b & s2 & Hrun2 & Hpost).
  { intros k Hk Hlt. destruct (Hwords k Hk Hlt) as (w & Hw & _ & _ & Hlen).
    change (reg s1) with (reg s). fold al.
    split; [rewrite Hw; eauto|].
    unfold read_source. rewrite Hnsv, Hw. fold al. rewrite load_is_Some by lia. eauto. }
  exists s1, s2. destruct b.
  - destruct Hpost as (K & HK & Hall & _ & Hreg & (t2 & Ht2 & Hro2 & _) & _ & Hdone & _).
    change (reg s1) with (reg s) in *. fold al in Hall, Hdone.
    exists (set_txn s2 None). split; [exact Hrun1|]. split; [exact Hrun2|]. split; [|split].
    + intros k Hk Hlt. destruct (Hwords k Hk Hlt) as (w & Hw & _ & _ & Hlen).
      exists w. split; [exact Hw|].
      destruct (Hdone k (conj Hk (Hall k Hk Hlt))) as [_ Hbytes].
      apply Hbytes. unfold read_source. rewrite Hnsv, Hw. fold al.
      now rewrite load_is_Some by lia.
    + unfold tm_end, bind, get_txn. rewrite Ht2.
      replace (ro t2) with true by congruence.
      now rewrite (delete_txn_eq s2 t2 Ht2).
    + exact Hreg.
  - exfalso. destruct Hpost as (_ & _ & k & l & Hk & Hlt & Hstop & _).
    change (reg s1) with (reg s) in *. fold al in Hlt, Hstop.
    apply read_stops_true in Hstop. destruct Hstop as (_ & w & Hw & Hbad).
    destruct (Hwords k Hk Hlt) as (w' & Hw' & Hfree & Hver & _).
    rewrite Hw in Hw'. injection Hw' as <-.
    destruct Hbad as [Hbad|Hbad]; [congruence|lia].
Qed.

Lemma read_only_ignores_its_writes_witness :
  let s := state_after [CBegin true] ex_init in
  exists s1 s2 s3,
    tm_write 3 1000 16 (A 3) s = Ok true s1 /\
    tm_read 3 (A 3) 16 2000 s1 = Ok true s2 /\
    tm_end s2 = Ok true s3 /\ reg s3 = reg s.
Proof.
  intros s.
  destruct (read_only_ignores_its_writes 3 3 1000 16 (A 3) 2000 s
              {| ro := true; rv := 0; wv := 0; read_set := ∅; write_set := [] |})
    as (s1 & s2 & s3 & H1 & H2 & _ & H3 & H4).
  - reflexivity.
  - reflexivity.
  - vm_compute. reflexivity.
  - lia.
  - vm_compute. discriminate.
  - vm_compute. discriminate.
  - vm_compute. discriminate.
  - lia.
  - vm_compute. discriminate.
  - change (align (reg s)) with 8. intros k Hk Hlt.
    assert (Hcases : k = 0 \/ k = 1) by lia.
    destruct Hcases as [-> | ->]; exists new_Word;
      (split; [vm_compute; reflexivity
              |split; [reflexivity|split; vm_compute; discriminate]]).
  - exists s1, s2, s3. auto.
Defined.

(** ** What a read writes *)

(** X17: a [tm_read] of a whole number of words that returns [true] leaves
    the region as it was and changes the private memory only inside
    [target, target + size). *)
Theorem tm_read_confined
    (fuel : nat) (source size target m : Z) (s : State) (t : Transaction)
    (s' : State) :
  txn s = Some t ->
  0 < align (reg s) -> 0 <= m -> size = m * align (reg s) ->
  size + align (reg s) <= 2 ^ 64 ->
  size + align (reg s) <= Z.of_nat fuel * align (reg s) ->
  0 <= target -> target + size <= 2 ^ 64 ->
  (forall k, 0 <= k -> k * align (reg s) < size ->
     is_Some (word (reg s) (word_addr source (align (reg s)) k)) /\
     is_Some (read_source (reg s) t (word_addr source (align (reg s)) k))) ->
  tm_read fuel source size target s = Ok true s' ->
  reg s' = reg s /\
  forall x, x < target \/ target + size <= x -> pmem s' x = pmem s x.
Proof.
  intros Ht Hal Hm Hsize Hwrap Hfuel Ht0 Htw Hwords Hrun.
  destruct (tm_read_run fuel source size target s t
              Ht Hal ltac:(nia) Hwrap Hfuel Ht0 Htw Hwords) as (b & s2 & Hrun2 & Hpost).
  rewrite Hrun in Hrun2. injection Hrun2 as <- <-.
  destruct Hpost as (K & HK & Hall & Hrange & Hreg & _ & _ & _ & Hout).
  split; [exact Hreg|]. intros x Hx. apply Hout.
  assert (HKm : K = m).
  { assert (K <= m).
    { destruct (Z.le_gt_cases K m) as [Hle|Hgt]; [exact Hle|].
      pose proof (Hrange m ltac:(lia)). nia. }
    assert (m <= K).
    { destruct (Z.eq_dec m 0) as [->|Hne]; [lia|].
      pose proof (Hall (m - 1) ltac:(lia) ltac:(nia)). lia. }
    lia. }
  subst K. lia.
Qed.

Lemma tm_read_confined_witness :
  let s := state_after [CBegin true] ex_init in
  let s' := final_state (tm_read 3 (A 0) 16 2000 s) s in
  pmem s' 2016 = pmem s 2016.
Proof.
  intros s s'.
  destruct (tm_read_confined 3 (A 0) 16 2000 2 s
              {| ro := true; rv := 0; wv := 0; read_set := ∅; write_set := [] |} s')
    as [_ Hout].
  - reflexivity.
  - vm_compute. reflexivity.
  - lia.
  - reflexivity.
  - vm_compute. discriminate.
  - vm_compute. discriminate.
  - lia.
  - vm_compute. discriminate.
  - change (align (reg s)) with 8. intros k Hk Hlt.
    assert (Hcases : k = 0 \/ k = 1) by lia.
    destruct Hcases as [-> | ->]; split; apply is_Some_check; vm_compute; exact I.
  - apply Ok_final_state. vm_compute. reflexivity.
  - apply Hout. right. lia.
Defined.

(** ** Addresses 65536 bytes apart *)

(** X18: two addresses of one segment that are 65536 bytes apart are looked
    up at the same word, whatever the alignment: the mask keeps 16 bits of
    the byte offset. *)
Theorem addresses_64k_apart_alias (r : Region) (addr : Z) :
  Z.land addr 0xFFFFFFFF + 65536 < 2 ^ 32 ->
  word_path r (addr + 65536) = word_path r addr /\
  word r (addr + 65536) = word r addr.
Proof.
  intros Hlo.
  assert (Hpath : word_path r (addr + 65536) = word_path r addr).
  { unfold word_path. f_equal.
    - change 0xFFFFFFFF with (Z.ones 32) in Hlo. rewrite Z.land_ones in Hlo by lia.
      rewrite !Z.shiftr_div_pow2 by lia.
      pose proof (Z.div_mod addr (2 ^ 32) ltac:(lia)) as E.
      pose proof (Z.mod_pos_bound addr (2 ^ 32) ltac:(lia)) as Hb.
      rewrite E at 1.
      replace (2 ^ 32 * (addr / 2 ^ 32) + addr mod 2 ^ 32 + 65536)
        with ((addr mod 2 ^ 32 + 65536) + (addr / 2 ^ 32) * 2 ^ 32) by lia.
      rewrite Z.div_add by lia. rewrite Z.div_small by lia. lia.
    - f_equal. unfold kADDR_MASK. change 0xFFFF with (Z.ones 16).
      rewrite !Z.land_ones by lia.
      replace (addr + 65536) with (addr + 1 * 2 ^ 16) by lia.
      apply Z.mod_add. lia. }
  split; [exact Hpath|]. unfold word. now rewrite Hpath.
Qed.

Lemma addresses_64k_apart_alias_witness :
  word (tm_create 131072 8) (A 0 + 65536) = word (tm_create 131072 8) (A 0).
Proof.
  apply (addresses_64k_apart_alias (tm_create 131072 8) (A 0)).
  vm_compute. reflexivity.
Defined.

(** ** The read set stays inside the region *)

Lemma tm_read_rw_body_reads (source target offset : Z) (s : State)
    (x : option bool) (s' : State) :
  tm_read_rw_body source target offset s = Ok x s' ->
  reg s' = reg s /\
  ((x = Some false /\ txn s' = None) \/
   (x = None /\ exists t, txn s = Some t /\
     txn s' = Some (with_read_set t ({[ wrap64 (source + offset) ]} ∪ read_set t)) /\
     is_Some (word (reg s) (wrap64 (source + offset))))).
Proof.
  intros H. unfold tm_read_rw_body in H.
  inv_bind H. inv_step Hstep. inv_bind H. inv_step Hstep.
  inv_bind H. unfold put_txn in Hstep0. rewrite Hstep in Hstep0. inv_ok Hstep0.
  inv_bind H. inv_step Hstep0. cbn [reg] in Hstep0.
  match type of H with
  | context [match ?c with Some _ => _ | None => _ end] => destruct c as [buf|]
  end.
  - inv_bind H. inv_step Hstep1. inv_bind H. inv_step Hstep2.
    inv_bind H. unfold put_pmem in Hstep2. inv_ok Hstep2. inv_step H.
    split; [reflexivity|]. right. split; [reflexivity|].
    eexists. split; [exact Hstep|]. split; [reflexivity|eauto].
  - apply read_shared_Ok in H. cbn [reg txn] in H. destruct H as (Hr & [H|[Hx Ht]]).
    + split; [exact Hr|]. left. exact H.
    + split; [exact Hr|]. right. split; [exact Hx|].
      eexists. split; [exact Hstep|]. split; [exact Ht|eauto].
Qed.

Lemma tm_read_read_set_inv (fuel : nat) (source size target : Z) (s : State)
    (b : bool) (s' : State) :
  tm_read fuel source size target s = Ok b s' -> read_set_inv s -> read_set_inv s'.
Proof.
  intros H Hinv. unfold tm_read in H. inv_bind H. inv_step Hstep. inv_bind H.
  rename x into t.
  pose (I := fun s1 : State => reg s1 = reg s /\ read_set_inv s1).
  pose (Q := fun (_ : bool) (s1 : State) => txn s1 = None).
  assert (Hbody : forall offset s1 y s2, I s1 ->
            (if ro t then tm_read_ro_body source target
             else tm_read_rw_body source target) offset s1 = Ok y s2 ->
            match y with None => I s2 | Some v => Q v s2 end).
  { intros offset s1 y s2 [Hr HI] Hb. destruct (ro t).
    - apply tm_read_ro_body_Ok in Hb. destruct Hb as (Hr2 & [[-> Hn]|[-> Hk]]).
      + exact Hn.
      + split; [congruence|]. intros t0 a Ht0 Ha. rewrite Hr2.
        rewrite Hk in Ht0. exact (HI t0 a Ht0 Ha).
    - apply tm_read_rw_body_reads in Hb.
      destruct Hb as (Hr2 & [[-> Hn]|(-> & t1 & Ht1 & Ht2 & Hin)]).
      + exact Hn.
      + split; [congruence|]. intros t0 a Ht0 Ha. rewrite Hr2.
        rewrite Ht2 in Ht0. injection Ht0 as <-. cbn [with_read_set read_set] in Ha.
        apply elem_of_union in Ha. destruct Ha as [Ha|Ha].
        * apply elem_of_singleton in Ha. subst a. exact Hin.
        * exact (HI t1 a Ht1 Ha). }
  assert (HI0 : I s) by (split; [reflexivity|exact Hinv]).
  pose proof (for_offsets_inv I Q size _ Hbody fuel 0 s x0 s0 HI0 Hstep0) as Hloop.
  destruct x0 as [v|]; inv_step H.
  - intros t0 a Ht0. unfold Q in Hloop. congruence.
  - exact (proj2 Hloop).
Qed.

Lemma exec_read_set_inv (c : Call) (s : State) (u : unit) (s' : State) :
  exec c s = Ok u s' -> read_set_inv s -> read_set_inv s'.
Proof.
  intros H Hinv. destruct c; cbn [exec] in H.
  - unfold tm_begin in H. inv_ok H. intros t a [= <-] Ha. cbn in Ha.
    apply not_elem_of_empty in Ha. destruct Ha.
  - inv_bind H. inv_step H. exact (tm_read_read_set_inv _ _ _ _ _ _ _ Hstep Hinv).
  - inv_bind H. inv_step H. apply tm_write_Ok in Hstep.
    destruct Hstep as (_ & Hr & _ & _ & Hsome & _).
    intros t' a Ht' Ha. rewrite Hr.
    destruct (Hsome t' Ht') as (t & Ht & _ & _ & _ & Hrs).
    apply (Hinv t a Ht). now rewrite <- Hrs.
  - inv_bind H. inv_step H. apply tm_end_Ok in Hstep. destruct Hstep as (_ & _ & Hn).
    intros t a Ht. congruence.
  - inv_bind H. inv_step H. unfold tm_alloc, Alloc in Hstep.
    inv_bind Hstep. inv_step Hstep0. inv_bind Hstep. unfold put_region in Hstep0.
    inv_ok Hstep0. inv_step Hstep. exact Hinv.
  - inv_bind H. inv_step H. unfold tm_free in Hstep. inv_step Hstep. exact Hinv.
Qed.

Lemma exec_all_read_set_inv (calls : list Call) :
  forall (s : State) (u : unit) (s' : State),
    exec_all calls s = Ok u s' -> read_set_inv s -> read_set_inv s'.
Proof.
  induction calls as [|c cs IH]; intros s u s' H Hinv.
  - cbn in H. inv_step H. exact Hinv.
  - cbn [exec_all] in H. inv_bind H.
    exact (IH _ _ _ H (exec_read_set_inv _ _ _ _ Hstep Hinv)).
Qed.

(** X19: whatever calls are made from a state without a transaction, every
    address of the read set of the live transaction is inside the region:
    [tm_read] looks the word up when it records the address, and a lookup
    out of range is a fault.  So [ValidateReadSet] never indexes out of
    range in [tm_end]. *)
Theorem read_set_in_region (calls : list Call) (s0 s : State) (t : Transaction) :
  txn s0 = None ->
  exec_all calls s0 = Ok tt s ->
  txn s = Some t ->
  forall a, a ∈ read_set t -> is_Some (word (reg s) a).
Proof.
  intros H0 Hrun Ht a Ha.
  assert (Hinv : read_set_inv s).
  { apply (exec_all_read_set_inv calls s0 tt s Hrun). intros t0 a0 Ht0. congruence. }
  exact (Hinv t a Ht Ha).
Qed.

Lemma read_set_in_region_witness :
  let calls := [CBegin false; CRead 3 (A 1) 16 2000] in
  let s := state_after calls ex_init in
  option_map read_set (txn s) = Some ({[ A 2 ]} ∪ ({[ A 1 ]} ∪ ∅)) /\
  is_Some (word (reg s) (A 2)).
Proof.
  intros calls s.
  assert (Hrs : option_map read_set (txn s) = Some ({[ A 2 ]} ∪ ({[ A 1 ]} ∪ ∅)))
    by (vm_compute; reflexivity).
  split; [exact Hrs|].
  destruct (txn s) as [t|] eqn:Ht; [|discriminate].
  apply (read_set_in_region calls ex_init s t).
  - reflexivity.
  - unfold s, state_after. apply Ok_final_state. vm_compute. reflexivity.
  - exact Ht.
  - cbn in Hrs. injection Hrs as ->. apply elem_of_union_l, elem_of_singleton. reflexivity.
Defined.

(** ** The clock wraps *)

Lemma read_shared_stale (addr target_addr : Z) (w : Word) (s : State) (t : Transaction) :
  txn s = Some t ->
  vl_locked (lock w) || (rv t <? vl_version (lock w)) = true ->
  read_shared addr target_addr w s =
  Ok (Some false) (set_txn (add_log s [EvSample addr]) None).
Proof.
  intros Ht Hst. unfold read_shared.
  unfold bind at 1. cbn [get_region]. unfold bind at 1. unfold get_txn. rewrite Ht.
  unfold bind at 1. rewrite emit_add_log. unfold Sample. cbn [locked version].
  rewrite Hst. unfold bind, delete_txn. cbn [add_log txn]. rewrite Ht. reflexivity.
Qed.

(** [tm_read] stops at its first word when that word is not served from the
    write set and is locked or newer than [rv]. *)
Lemma tm_read_first_stale (fuel : nat) (source size target : Z) (s : State)
    (t : Transaction) (w : Word) :
  txn s = Some t -> 0 < size ->
  word (reg s) (wrap64 source) = Some w ->
  ro t = true \/ ws_find (wrap64 source) (write_set t) = None ->
  vl_locked (lock w) || (rv t <? vl_version (lock w)) = true ->
  exists s', tm_read (S fuel) source size target s = Ok false s' /\
             txn s' = None /\ reg s' = reg s /\ pmem s' = pmem s.
Proof.
  intros Ht Hsz Hw Hns Hst.
  assert (Hbody : exists s',
            (if ro t then tm_read_ro_body source target
             else tm_read_rw_body source target) 0 s = Ok (Some false) s' /\
            txn s' = None /\ reg s' = reg s /\ pmem s' = pmem s).
  { destruct (ro t) eqn:Hro.
    - eexists. split.
      + unfold tm_read_ro_body. rewrite !Z.add_0_r. unfold bind at 1.
        rewrite (word_ref_eq _ s w Hw). exact (read_shared_stale _ _ w s t Ht Hst).
      + cbn [set_txn add_log txn reg pmem]. auto.
    - destruct Hns as [Hns|Hns]; [discriminate|].
      eexists. split.
      + unfold tm_read_rw_body. rewrite !Z.add_0_r.
        unfold bind at 1. cbn [get_region]. unfold bind at 1. unfold get_txn. rewrite Ht.
        unfold bind at 1. unfold put_txn at 1. rewrite Ht.
        unfold bind at 1. erewrite word_ref_eq by (cbn [reg]; exact Hw).
        rewrite Hns.
        apply (read_shared_stale _ _ w _ (with_read_set t ({[ wrap64 source ]} ∪ read_set t)));
          [reflexivity|exact Hst].
      + cbn [set_txn add_log txn reg pmem]. auto. }
  destruct Hbody as (s' & Hb & Hn & Hr & Hp). exists s'. split; [|auto].
  unfold tm_read. unfold bind at 1. unfold get_txn. rewrite Ht.
  cbn [for_offsets]. destruct (Z.ltb_spec 0 size) as [_|]; [|lia].
  unfold bind. rewrite Hb. reflexivity.
Qed.

Lemma payload_ok_check (r : Region) :
  forallb (fun seg => forallb (fun w => Nat.eqb (length (data w)) 8) (words seg))
          (mem r) = true ->
  payload_ok r.
Proof.
  intros H. rewrite List.forallb_forall in H.
  apply List.Forall_forall. intros seg Hseg. apply List.Forall_forall. intros w Hw.
  pose proof (H seg Hseg) as H1. rewrite List.forallb_forall in H1.
  apply Nat.eqb_eq. exact (H1 w Hw).
Qed.

(** X20: the clock and the versions are 32-bit.  When the clock is at
    [2^32 - 1], the commit of a transaction that runs alone takes it to 0;
    a transaction begun afterwards, read-only or not, has [rv = 0], and its
    read of any word that was released earlier at a version above 0 returns
    [false] and deletes it. *)
Theorem clock_wraps_to_zero
    (s : State) (t : Transaction) (is_ro : bool) (fuel : nat)
    (b n dst : Z) (w : Word) :
  txn s = Some t -> ro t = false ->
  rv t = gvc (reg s) -> gvc (reg s) = 2 ^ 32 - 1 ->
  payload_ok (reg s) -> 0 <= align (reg s) <= 8 ->
  Forall (fun e => word_free (reg s) (fst e) = true /\
                   align (reg s) <= Z.of_nat (length (snd e))) (write_set t) ->
  word (reg s) b = Some w -> 0 < vl_version (lock w) ->
  (forall e, In e (write_set t) -> ~ same_word (reg s) (fst e) b) ->
  0 <= b < 2 ^ 64 -> 0 < n ->
  exists s1 s2 s3,
    tm_end s = Ok true s1 /\ gvc (reg s1) = 0 /\
    tm_begin is_ro s1 = Ok tt s2 /\
    tm_read (S fuel) b n dst s2 = Ok false s3 /\ txn s3 = None.
Proof.
  intros Ht Hro Hrv Hlast Hok Hal Hws Hw Hver Hother Hb Hn.
  destruct (tm_end_alone_run s t Ht Hro Hrv Hok Hal Hws) as (l0 & sc & Hc & Hend).
  pose proof (Commit_loop_Ok _ _ _ _ Hc) as (_ & _ & _ & (_ & Hg & _) & _).
  pose proof (Commit_loop_frame _ _ _ _ Hc b) as Hfr.
  cbn [after_fetch_add add_log reg bump_gvc gvc] in Hg, Hfr.
  rewrite Hlast in Hg. change (wrap32 (2 ^ 32 - 1 + 1)) with 0 in Hg.
  assert (Hwb : word (reg sc) b = Some w).
  { rewrite Hfr; [exact Hw|]. intros e He. exact (Hother e He). }
  set (t2 := {| ro := is_ro; rv := gvc (reg sc); wv := 0; read_set := ∅; write_set := [] |}).
  set (s2 := {| reg := reg sc; txn := Some t2; pmem := pmem sc; log := log sc |}).
  destruct (tm_read_first_stale fuel b n dst s2 t2 w) as (s3 & Hrun & Hn3 & _).
  - reflexivity.
  - exact Hn.
  - rewrite wrap64_small by exact Hb. exact Hwb.
  - right. reflexivity.
  - cbn [t2 rv]. rewrite Hg. apply orb_true_iff. right. now apply Z.ltb_lt.
  - exists (set_txn sc None), s2, s3. split; [exact Hend|]. split; [exact Hg|].
    split; [reflexivity|]. split; [exact Hrun|exact Hn3].
Qed.

Lemma clock_wraps_to_zero_witness :
  let s0 := {| reg := ex_region_last; txn := None; pmem := ex_pm; log := [] |} in
  let s := state_after [CBegin false; CWrite 3 1000 16 (A 2)] s0 in
  exists s1 s2 s3,
    tm_end s = Ok true s1 /\ gvc (reg s1) = 0 /\
    tm_begin true s1 = Ok tt s2 /\
    tm_read 1 (A 1) 8 2000 s2 = Ok false s3 /\ txn s3 = None.
Proof.
  intros s0 s.
  apply (clock_wraps_to_zero s
           {| ro := false; rv := 2 ^ 32 - 1; wv := 0; read_set := ∅;
              write_set := [(A 2, pm_read ex_pm 1000 8); (A 3, pm_read ex_pm 1008 8)] |}
           true 0 (A 1) 8 2000 (committed_Word 4)).
  - vm_compute. reflexivity.
  - reflexivity.
  - reflexivity.
  - reflexivity.
  - change (reg s) with ex_region_last. apply payload_ok_check. vm_compute. reflexivity.
  - change (align (reg s)) with 8. lia.
  - cbn [write_set]. repeat (apply List.Forall_cons; [split; vm_compute; [reflexivity|discriminate]|]).
    apply List.Forall_nil.
  - vm_compute. reflexivity.
  - vm_compute. reflexivity.
  - intros e [<-|[<-|[]]] [_ H]; vm_compute in H; discriminate.
  - vm_compute. split; [discriminate|reflexivity].
  - lia.
Defined.

(** ** No lock is ever held *)










(** * Validation failure in [tm_end] *)

Lemma tm_end_commit_eq (s1 : State) (t : Transaction) :
  txn s1 = Some t ->
  tm_end_commit t s1 =
  (if wrap32 (rv t + 1) =? wrap32 (gvc (reg s1) + 1) then
     let* _ := Commit in
     let* _ := delete_txn in
     ret true
   else
     let* valid := ValidateReadSet in
     if negb valid then
       let* _ := UnlockWriteSet in
       let* _ := delete_txn in
       ret false
     else
       let* _ := Commit in
       let* _ := delete_txn in
       ret true) (after_fetch_add s1 t).
Proof.
  intros Ht. unfold tm_end_commit.
  unfold bind at 1. cbn [get_region]. unfold bind at 1. rewrite emit_add_log.
  unfold bind at 1. cbn [put_region]. unfold bind at 1.
  unfold put_txn at 1. cbn [txn add_log reg pmem log]. rewrite Ht.
  reflexivity.
Qed.

Lemma tm_end_after_lock (s s1 : State) (t : Transaction) :
  txn s = Some t -> ro t = false -> LockWriteSet s = Ok true s1 ->
  tm_end s = tm_end_commit t s1.
Proof.
  intros Ht Hro Hlock. unfold tm_end. unfold bind at 1. unfold get_txn at 1.
  rewrite Ht, Hro. unfold bind at 1. rewrite Hlock. reflexivity.
Qed.

(** C6: in the part of [tm_end] that follows [LockWriteSet], when the clock
    had moved since the transaction began and some address of the read set
    is locked or newer than [rv], the result is [false] with the
    transaction deleted; the last calls are [Unlock] on every entry of the
    write set, which leaves the lock of each of them free, held before or
    not; every word keeps its payload and its version, and the words that
    the write set does not name are as they were.  That is the result of
    [tm_end] from any state in which [LockWriteSet] returns [true]. *)
Theorem tm_end_validation_failure (s1 : State) (t : Transaction) :
  txn s1 = Some t ->
  wrap32 (gvc (reg s1) + 1) <> wrap32 (rv t + 1) ->
  (forall a, a ∈ read_set t -> is_Some (word (reg s1) a)) ->
  Forall (fun e => is_Some (word (reg s1) (fst e))) (write_set t) ->
  (exists a, a ∈ read_set t /\ word_stale (reg s1) (rv t) a = true) ->
  exists s',
    tm_end_commit t s1 = Ok false s' /\
    (forall s, txn s = Some t -> ro t = false -> LockWriteSet s = Ok true s1 ->
               tm_end s = Ok false s') /\
    txn s' = None /\
    (exists l, log s' = log s1 ++ l ++ map EvUnlock (map fst (write_set t))) /\
    Forall (fun e => word_free (reg s') (fst e) = true) (write_set t) /\
    (forall a, is_Some (word (reg s') a) <-> is_Some (word (reg s1) a)) /\
    (forall a w', word (reg s') a = Some w' ->
       exists w, word (reg s1) a = Some w /\ data w' = data w /\
                 vl_version (lock w') = vl_version (lock w)) /\
    (forall a, (forall e, In e (write_set t) -> ~ same_word (reg s1) (fst e) a) ->
               word (reg s') a = word (reg s1) a).
Proof.
  intros Ht Hne Hin Hws (a0 & Ha0 & Hstale).
  assert (Hrun : exists s',
            tm_end_commit t s1 = Ok false s' /\
            exists l su,
              UnlockWriteSet_loop (write_set t)
                (add_log (after_fetch_add s1 t) l) = Ok tt su /\
              s' = set_txn su None).
  { rewrite (tm_end_commit_eq s1 t Ht).
    destruct (Z.eqb_spec (wrap32 (rv t + 1)) (wrap32 (gvc (reg s1) + 1))) as [Heq|_];
      [exfalso; apply Hne; symmetry; exact Heq|].
    set (s2 := after_fetch_add s1 t).
    assert (Ht2 : txn s2 = Some (with_wv t (wrap32 (gvc (reg s1) + 1)))) by reflexivity.
    destruct (ValidateReadSet_loop_total (rv t) (elements (read_set t)) s2) as [l Hval].
    { apply Forall_forall. intros a Ha. apply elem_of_elements in Ha.
      exact (Hin a Ha). }
    assert (Hex : existsb (word_stale (reg s2) (rv t)) (elements (read_set t)) = true).
    { apply existsb_exists. exists a0. split; [|exact Hstale].
      apply list_elem_of_In, elem_of_elements, Ha0. }
    rewrite Hex in Hval. cbn [negb] in Hval.
    unfold bind at 1. unfold ValidateReadSet, bind at 1. unfold get_txn at 1.
    rewrite Ht2. cbn [with_wv rv read_set]. rewrite Hval. cbn [negb].
    assert (Ht3 : txn (add_log s2 l) = Some (with_wv t (wrap32 (gvc (reg s1) + 1))))
      by reflexivity.
    destruct (abort_path_total _ _ Ht3) as [s' Hs'].
    { cbn [with_wv write_set]. exact Hws. }
    exists s'. split; [exact Hs'|].
    destruct (abort_path_inv _ _ _ _ Ht3 Hs') as (_ & su & Hu & ->).
    exists l, su. split; [exact Hu|reflexivity]. }
  destruct Hrun as (s' & Hrun & l & su & Hu & ->).
  exists (set_txn su None). split; [exact Hrun|].
  split; [intros s Hts Hro Hlock; now rewrite (tm_end_after_lock s s1 t Hts Hro Hlock)|].
  pose proof (UnlockWriteSet_loop_frame _ _ _ Hu) as Hframe.
  apply UnlockWriteSet_loop_Ok in Hu.
  destruct Hu as (_ & _ & Hlog & (_ & _ & _ & _ & Hsome) & Hun & Hfree).
  cbn [set_txn add_log after_fetch_add txn reg log] in *.
  split; [reflexivity|]. split; [|split; [exact Hfree|split; [|split]]].
  - exists (EvFetchAdd :: l). rewrite Hlog. rewrite <- !app_assoc. reflexivity.
  - intros a. exact (Hsome a).
  - intros a w' Hw'. destruct (Hun a w' Hw') as (w & Hw & Hd & Hv & _).
    exists w. auto.
  - intros a Ha. exact (Hframe a Ha).
Qed.

Lemma tm_end_validation_failure_witness :
  let s1 := with_region ex_state_3 (set_word ex_region_5 (A 0) (held_Word 0)) in
  word_free (reg s1) (A 0) = false /\
  exists s',
    tm_end_commit ex_txn_3 s1 = Ok false s' /\
    txn s' = None /\
    word_free (reg s') (A 0) = true.
Proof.
  intros s1. split; [vm_compute; reflexivity|].
  destruct (tm_end_validation_failure s1 ex_txn_3)
    as (s' & Hend & _ & Htx & _ & Hfree & _).
  - reflexivity.
  - vm_compute. discriminate.
  - intros a Ha. apply elem_of_union in Ha.
    destruct Ha as [Ha|Ha]; apply elem_of_singleton in Ha; subst a;
      apply is_Some_check; vm_compute; exact I.
  - cbn [ex_txn_3 write_set].
    apply List.Forall_cons; [apply is_Some_check; vm_compute; exact I|apply List.Forall_nil].
  - exists (A 1). split; [|vm_compute; reflexivity].
    apply elem_of_union. left. now apply elem_of_singleton.
  - exists s'. split; [exact Hend|]. split; [exact Htx|].
    cbn [ex_txn_3 write_set] in Hfree. apply List.Forall_inv in Hfree. exact Hfree.
Defined.
